(** * Membership signup form: payload splicer, tokenization and submission

    A shallow embedding of the [awu-signup] element: the
    [SpliceableUrlSearchParams] helper, the two Stripe tokenization
    strategies, the Plaid success callback, the [submit] handler and the
    dues display; then the loader of the Plaid library, the link flow that
    [openPlaid] starts, the slot of the Stripe card element, the handlers
    of the currency and calculator controls, the [required] attributes of
    the template, and the login page.

    URLSearchParams objects are mutable and passed by reference in the
    source, so they live in an explicit store; the handlers of the element
    are programs of a small state-and-exception monad whose state holds the
    element's reactive properties, that store and the trace of observable
    effects.  Stripe and the signup endpoint are collaborators outside the
    element: their answers come from an environment record.

    A handler runs from its event to its end without another handler in
    between (the form is disabled while [isLoading] holds), and the form it
    reads is the one that [render()] gives for the element's state.  The
    clicks and callbacks of the link flow and the slotchange events of the
    card slot are likewise taken one at a time.
    Strings are sequences of bytes; numbers are IEEE 754 binary64 values,
    computed with the Standard Library's [SpecFloat]. *)

From Stdlib Require Import ZArith Bool Lia.
From Stdlib Require Import Strings.String Strings.Ascii.
From Stdlib Require Import Floats.SpecFloat.
From Stdlib Require Import DecimalString.
From stdpp Require Import base list.

Open Scope string_scope.
Open Scope list_scope.

(** ** URLSearchParams as a value: an ordered list of name/value pairs *)

Module URLSearchParams.

Abbreviation Entries := (list (string * string)).

(** [get(name)]: the value of the first pair named [name], else [null]. *)
Fixpoint get (name : string) (l : Entries) : option string :=
  match l with
  | [] => None
  | (k, v) :: rest => if String.eqb k name then Some v else get name rest
  end.

(** [has(name)]. *)
Fixpoint has (name : string) (l : Entries) : bool :=
  match l with
  | [] => false
  | (k, _) :: rest => String.eqb k name || has name rest
  end.

(** [delete(name)]: removes every pair named [name]. *)
Fixpoint delete (name : string) (l : Entries) : Entries :=
  match l with
  | [] => []
  | (k, v) :: rest =>
      if String.eqb k name then delete name rest
      else (k, v) :: delete name rest
  end.

(** [set(name, value)]: overwrites the first pair named [name] and removes
    the other ones; appends a new pair when there is none. *)
Fixpoint set (name value : string) (l : Entries) : Entries :=
  match l with
  | [] => [(name, value)]
  | (k, v) :: rest =>
      if String.eqb k name then (name, value) :: delete name rest
      else (k, v) :: set name value rest
  end.

(** [append(name, value)]. *)
Definition append (name value : string) (l : Entries) : Entries :=
  l ++ [(name, value)].

End URLSearchParams.

Abbreviation Entries := URLSearchParams.Entries.

(** ** The store of URLSearchParams objects *)

Abbreviation Ref := nat.
Abbreviation Heap := (list Entries).

(** The pairs held by the object at [r]. *)
Definition deref (r : Ref) (h : Heap) : Entries := default [] (h !! r).

(** [new URLSearchParams(init)]: a new object holding a copy of [init]. *)
Definition new_URLSearchParams (init : Entries) (h : Heap) : Ref * Heap :=
  (length h, h ++ [init]).

(** In-place update of the object at [r] (the mutating methods). *)
Definition update (r : Ref) (f : Entries -> Entries) (h : Heap) : Heap :=
  <[r := f (deref r h)]> h.

(** ** SpliceableUrlSearchParams *)

Record SpliceableUrlSearchParams := {
  original : Ref;
  remainder : Ref
}.

Module Spliceable.

(** [constructor(original)]: [this.original] copies the argument and
    [this.remainder] copies [this.original]. *)
Definition constructor (init : Entries) (h : Heap)
  : SpliceableUrlSearchParams * Heap :=
  let '(o, h1) := new_URLSearchParams init h in
  let '(r, h2) := new_URLSearchParams (deref o h1) h1 in
  ({| original := o; remainder := r |}, h2).

Definition get (field : string) (s : SpliceableUrlSearchParams) (h : Heap)
  : option string :=
  URLSearchParams.get field (deref (original s) h).

Definition splice (field : string) (s : SpliceableUrlSearchParams) (h : Heap)
  : option string * Heap :=
  let h' := update (remainder s) (URLSearchParams.delete field) h in
  (get field s h', h').

Definition getRemainder (s : SpliceableUrlSearchParams) (h : Heap)
  : Ref * Heap :=
  new_URLSearchParams (deref (remainder s) h) h.

(** A run of [splice] calls, with the values they returned. *)
Fixpoint splices (fields : list string) (s : SpliceableUrlSearchParams)
    (h : Heap) : list (option string) * Heap :=
  match fields with
  | [] => ([], h)
  | f :: rest =>
      let r1 := splice f s h in
      let r2 := splices rest s (snd r1) in
      (fst r1 :: fst r2, snd r2)
  end.

(** Both objects of the splicer are allocated. *)
Definition wf (s : SpliceableUrlSearchParams) (h : Heap) : Prop :=
  original s < length h /\ remainder s < length h.

(** The splicer [s] is made of two objects of the store [h], holding [o]
    and [r]. *)
Definition repr (s : SpliceableUrlSearchParams) (h : Heap) (o r : Entries)
  : Prop :=
  original s <> remainder s /\
  h !! original s = Some o /\ h !! remainder s = Some r.

End Spliceable.

(** ** JavaScript values that are thrown, logged or alerted *)

Inductive JsVal :=
| VUndefined
| VBool (b : bool)
| VString (s : string)
| VError (name message : string).

(** ToBoolean, as [if (e)] applies it. *)
Definition truthy (v : JsVal) : bool :=
  match v with
  | VUndefined => false
  | VBool b => b
  | VString s => negb (String.eqb s "")
  | VError _ _ => true
  end.

(** Reading a property of [null] or [undefined]. *)
Definition TypeError (message : string) : JsVal := VError "TypeError" message.

(** ** The element's state *)

Inductive PaymentMethod := bank | card | plaid.

Record PlaidToken := {
  public_token : string;
  account_name : string;
  account_id : string
}.

Module PlaidAccount.
Record t := { name : string; id : string }.
End PlaidAccount.

Module PlaidMetadata.
Record t := {
  institution_name : string;
  accounts : list PlaidAccount.t
}.
End PlaidMetadata.

(** The reactive properties read by the handlers, and the current value of
    every named form control ([inputs]); a control that is not rendered is
    not part of the form whatever [inputs] says about its name. *)
Record Signup := {
  paymentMethod : PaymentMethod;
  isLoading : bool;
  isComplete : bool;
  plaidToken : option PlaidToken;
  inputs : string -> string
}.

Definition set_isLoading (b : bool) (c : Signup) : Signup :=
  {| paymentMethod := paymentMethod c; isLoading := b;
     isComplete := isComplete c; plaidToken := plaidToken c;
     inputs := inputs c |}.

Definition set_isComplete (b : bool) (c : Signup) : Signup :=
  {| paymentMethod := paymentMethod c; isLoading := isLoading c;
     isComplete := b; plaidToken := plaidToken c;
     inputs := inputs c |}.

Definition set_plaidToken (t : option PlaidToken) (c : Signup) : Signup :=
  {| paymentMethod := paymentMethod c; isLoading := isLoading c;
     isComplete := isComplete c; plaidToken := t;
     inputs := inputs c |}.

Definition set_paymentMethod (m : PaymentMethod) (c : Signup) : Signup :=
  {| paymentMethod := m; isLoading := isLoading c;
     isComplete := isComplete c; plaidToken := plaidToken c;
     inputs := inputs c |}.

Definition set_input (field value : string) (c : Signup) : Signup :=
  {| paymentMethod := paymentMethod c; isLoading := isLoading c;
     isComplete := isComplete c; plaidToken := plaidToken c;
     inputs := fun f => if String.eqb f field then value else inputs c f |}.

(** ** The rendered form: names of its controls, in document order *)

(** The controls of [render()] that precede the payment section. *)
Definition fieldsBeforePayment : list string :=
  [ "preferred-name"; "pronouns"; "preferred-language"; "personal-email";
    "personal-phone"; "mailing-address-1"; "mailing-address-2";
    "mailing-city"; "mailing-region"; "mailing-postal-code";
    "mailing-country"; "employment-type"; "employer"; "job-title"; "team";
    "org"; "product-area"; "site-code"; "building-code"; "have-reports";
    "work-email"; "total-compensation"; "currency" ].

Definition bankTemplate : list string :=
  [ "routing-number"; "account-number"; "account-holder-name";
    "billing-country" ].

Definition cardTemplate : list string :=
  [ "card-holder-name"; "billing-address-1"; "billing-address-2";
    "billing-city"; "billing-state"; "billing-zip"; "billing-country" ].

(** Only a button. *)
Definition plaidTemplate : list string := [].

Definition paymentMethodTemplate (c : Signup) : list string :=
  match paymentMethod c with
  | bank => bankTemplate
  | card => cardTemplate
  | plaid => plaidTemplate
  end.

(** The three method buttons, then the active method's template. *)
Definition paymentTemplate (c : Signup) : list string :=
  paymentMethodTemplate c.

(** The account name and a Remove button. *)
Definition connectedPlaidTemplate (c : Signup) : list string := [].

Definition render (c : Signup) : list string :=
  fieldsBeforePayment
  ++ (match plaidToken c with
      | Some _ => connectedPlaidTemplate c
      | None => paymentTemplate c
      end)
  ++ [ "signature" ].

(** The pairs of the controls named [fields], with their current values. *)
Definition entries (c : Signup) (fields : list string) : Entries :=
  map (fun f => (f, inputs c f)) fields.

(** [new FormData(this.form)]: one pair per rendered control.  The
    controls of the template are inputs of type text, email, tel and number
    and selects, and each select has a selected option, the first one
    unless the user chose another. *)
Definition FormData (c : Signup) : Entries := entries c (render c).

(** Is [field] one of the names [fields]? *)
Definition includes (fields : list string) (field : string) : bool :=
  existsb (String.eqb field) fields.

(** [this.form.elements.namedItem(field)] finds a control. *)
Definition namedItem (field : string) (c : Signup) : bool :=
  includes (render c) field.

(** ** Collaborators: Stripe and the signup endpoint *)

Inductive TokenKind := CardElement | BankAccount.

(** The data object of [createToken]: property name and value, where
    [None] is [null]. *)
Definition TokenData := list (string * option string).

Inductive StripeLoad :=
| StripeLoaded
| StripeNull
| StripeRejected (e : JsVal).

Inductive TokenResult :=
| TokenOk (id : string)
| TokenError (param : option string) (message : string)
| TokenRejected (e : JsVal).

(** The [error] object of a failure response; [param] may be absent. *)
Module BackendError.
Record t := { param : option string; message : string }.
End BackendError.

(** What [result.json()] gives: a rejection, or an object whose [error]
    property may be missing. *)
Inductive JsonResult :=
| JsonRejected (e : JsVal)
| JsonBody (error : option BackendError.t).

Inductive FetchResult :=
| FetchRejected (e : JsVal)
| Response (ok : bool) (json : JsonResult).

Record Env := {
  stripe : StripeLoad;
  createToken : TokenKind -> TokenData -> TokenResult;
  fetch : Entries -> FetchResult
}.

(** ** Observable effects *)

Inductive Logged :=
| LogTokenResult (r : TokenResult)
| LogBackendError (e : option BackendError.t)
| LogValue (v : JsVal).

Inductive Event :=
| EPreventDefault
| EClassListAdd (cls : string)
| ECreateToken (kind : TokenKind) (data : TokenData)
| EFetchPost (body : Entries)
| EConsoleError (x : Logged)
| EAlert (v : JsVal)
| ESetCustomValidity (field message : string)
| EScrollIntoView (field : string).

(** ** The monad of handlers *)

Record World := {
  comp : Signup;
  heap : Heap;
  trace : list Event
}.

Inductive Completion (A : Type) :=
| Normal (a : A)
| Throw (v : JsVal).
Arguments Normal {A} a.
Arguments Throw {A} v.

Definition Async (A : Type) : Type := World -> Completion A * World.

Definition ret {A} (a : A) : Async A := fun w => (Normal a, w).

Definition throw {A} (v : JsVal) : Async A := fun w => (Throw v, w).

Definition bind {A B} (m : Async A) (k : A -> Async B) : Async B :=
  fun w =>
    match m w with
    | (Normal a, w') => k a w'
    | (Throw v, w') => (Throw v, w')
    end.

(** [try { body } catch (e) { handler } finally { finalizer }]. *)
Definition try_catch_finally {A} (body : Async A) (handler : JsVal -> Async A)
    (finalizer : Async unit) : Async A :=
  fun w =>
    let '(r, w1) :=
      match body w with
      | (Normal a, w') => (Normal a, w')
      | (Throw v, w') => handler v w'
      end in
    match finalizer w1 with
    | (Normal _, w2) => (r, w2)
    | (Throw v, w2) => (Throw v, w2)
    end.

Declare Scope async_scope.
Delimit Scope async_scope with async.
Bind Scope async_scope with Async.

Notation "'let*' x ':=' m 'in' k" := (bind m (fun x => k))
  (at level 10, x name, m at level 100, k at level 200) : async_scope.
Notation "m ';;' k" := (bind m (fun _ => k))
  (at level 100, k at level 200, only parsing, right associativity)
  : async_scope.

Definition emit (e : Event) : Async unit :=
  fun w => (Normal tt,
            {| comp := comp w; heap := heap w; trace := trace w ++ [e] |}).

Definition this : Async Signup := fun w => (Normal (comp w), w).

Definition assign (f : Signup -> Signup) : Async unit :=
  fun w => (Normal tt,
            {| comp := f (comp w); heap := heap w; trace := trace w |}).

Definition on_heap {A} (f : Heap -> A * Heap) : Async A :=
  fun w => let '(a, h) := f (heap w) in
           (Normal a, {| comp := comp w; heap := h; trace := trace w |}).

Definition read_heap {A} (f : Heap -> A) : Async A :=
  fun w => (Normal (f (heap w)), w).

(** [body.set(name, value)] on the object [body]. *)
Definition body_set (body : Ref) (name value : string) : Async unit :=
  on_heap (fun h => (tt, update body (URLSearchParams.set name value) h)).

Definition console_error (x : Logged) : Async unit := emit (EConsoleError x).

Definition alert (v : JsVal) : Async unit := emit (EAlert v).

(** ** The handlers of the element *)

Open Scope async_scope.

(** [case 'label':] of a [switch] on a value that may be [undefined]. *)
Definition case_ (scrutinee : option string) (label : string) : bool :=
  match scrutinee with
  | Some p => String.eqb p label
  | None => false
  end.

(** ToBoolean of a string property that may be missing, as in
    [if (error.param)]. *)
Definition truthy_param (p : option string) : bool :=
  match p with
  | Some s => truthy (VString s)
  | None => truthy VUndefined
  end.

Definition enableInvalidStyles : Async unit :=
  emit (EClassListAdd "invalidatable").

(** [setInvalid(field, message)]: [namedItem] gives [null] for a name that
    no rendered control has, and the method call on it throws. *)
Definition setInvalid (field message : string) : Async unit :=
  let* c := this in
  if namedItem field c then
    emit (ESetCustomValidity field message) ;;
    emit (EScrollIntoView field)
  else throw (TypeError "input is null").

Definition splice (field : string) (data : SpliceableUrlSearchParams)
  : Async (option string) :=
  on_heap (Spliceable.splice field data).

Definition get (field : string) (data : SpliceableUrlSearchParams)
  : Async (option string) :=
  read_heap (Spliceable.get field data).

Definition getRemainder (data : SpliceableUrlSearchParams) : Async Ref :=
  on_heap (Spliceable.getRemainder data).

Section Handlers.

Variable env : Env.

(** [const stripe = await this.stripe]: [true] for a Stripe object,
    [false] for [null]. *)
Definition await_stripe : Async bool :=
  match stripe env with
  | StripeLoaded => ret true
  | StripeNull => ret false
  | StripeRejected e => throw e
  end.

(** The member access [stripe.createToken], evaluated before the
    arguments of the call. *)
Definition member_createToken (stripe : bool) : Async unit :=
  if stripe then ret tt else throw (TypeError "stripe is null").

(** [await stripe.createToken(..., data)] once [data] is evaluated. *)
Definition call_createToken (kind : TokenKind) (data : TokenData)
  : Async TokenResult :=
  emit (ECreateToken kind data) ;;
  match createToken env kind data with
  | TokenRejected e => throw e
  | result => ret result
  end.

Definition cardToken (data : SpliceableUrlSearchParams)
  : Async (string * Ref) :=
  let* stripe := await_stripe in
  member_createToken stripe ;;
  let* name := splice "card-holder-name" data in
  let* address_line1 := splice "billing-address-1" data in
  let* address_line2 := splice "billing-address-2" data in
  let* address_city := splice "billing-city" data in
  let* address_state := splice "billing-state" data in
  let* address_zip := splice "billing-zip" data in
  let* address_country := splice "billing-country" data in
  let* currency := get "currency" data in
  let* result := call_createToken CardElement
    [ ("name", name); ("address_line1", address_line1);
      ("address_line2", address_line2); ("address_city", address_city);
      ("address_state", address_state); ("address_zip", address_zip);
      ("address_country", address_country); ("currency", currency) ] in
  match result with
  | TokenOk id =>
      let* remaining := getRemainder data in
      ret (id, remaining)
  | TokenError param message =>
      console_error (LogTokenResult result) ;;
      let* message' :=
        (if case_ param "card[name]" then
           setInvalid "card-holder-name" message ;; ret ""
         else if case_ param "card[address_line1]" then
           setInvalid "billing-address-1" message ;; ret ""
         else if case_ param "card[address_line2]" then
           setInvalid "billing-address-2" message ;; ret ""
         else if case_ param "card[address_city]" then
           setInvalid "billing-city" message ;; ret ""
         else if case_ param "card[address_zip]" then
           setInvalid "billing-zip" message ;; ret ""
         else if case_ param "card[address_country]" then
           setInvalid "billing-country" message ;; ret ""
         else if case_ param "currency" then
           setInvalid "currency" message ;; ret ""
         else ret message) in
      throw (VString message')
  | TokenRejected e => throw e
  end.

Definition bankAccountToken (data : SpliceableUrlSearchParams)
  : Async (string * Ref) :=
  let* stripe := await_stripe in
  member_createToken stripe ;;
  let* country := splice "billing-country" data in
  let* currency := get "currency" data in
  let* routing_number := splice "routing-number" data in
  let* account_number := splice "account-number" data in
  let* account_holder_name := splice "account-holder-name" data in
  let* result := call_createToken BankAccount
    [ ("country", country); ("currency", currency);
      ("routing_number", routing_number);
      ("account_number", account_number);
      ("account_holder_name", account_holder_name);
      ("account_holder_type", Some "individual") ] in
  match result with
  | TokenOk id =>
      let* remaining := getRemainder data in
      ret (id, remaining)
  | TokenError param message =>
      console_error (LogTokenResult result) ;;
      let* message' :=
        (if case_ param "bank_account[country]" then
           setInvalid "billing-country" message ;; ret ""
         else if case_ param "bank_account[currency]" then
           setInvalid "currency" message ;; ret ""
         else if case_ param "bank_account[routing_number]" then
           setInvalid "routing-number" message ;; ret ""
         else if case_ param "bank_account[account_number]" then
           setInvalid "account-number" message ;; ret ""
         else if case_ param "bank_account[account_holder_name]" then
           setInvalid "account-holder-name" message ;; ret ""
         else ret message) in
      throw (VString message')
  | TokenRejected e => throw e
  end.

(** [await fetch(window.SIGNUP_API, { method: 'POST', body })]: the request
    carries the pairs that [body] holds when it is sent. *)
Definition fetch_POST (body : Ref) : Async (bool * JsonResult) :=
  let* sent := read_heap (deref body) in
  emit (EFetchPost sent) ;;
  match fetch env sent with
  | FetchRejected e => throw e
  | Response ok json => ret (ok, json)
  end.

(** [const { error } = await result.json()]. *)
Definition await_json (json : JsonResult) : Async (option BackendError.t) :=
  match json with
  | JsonRejected e => throw e
  | JsonBody error => ret error
  end.

(** [this.paymentMethod === 'bank']. *)
Definition paymentMethod_is_bank (c : Signup) : bool :=
  match paymentMethod c with
  | bank => true
  | _ => false
  end.

Definition submit : Async unit :=
  emit EPreventDefault ;;
  enableInvalidStyles ;;
  assign (set_isLoading true) ;;
  let* c0 := this in
  let* fields := on_heap (Spliceable.constructor (FormData c0)) in
  try_catch_finally
    (let* c := this in
     let* body :=
       match plaidToken c with
       | Some token =>
           let* body := getRemainder fields in
           body_set body "plaid-public-token" (public_token token) ;;
           body_set body "plaid-account-id" (account_id token) ;;
           ret body
       | None =>
           let* r := (if paymentMethod_is_bank c
                      then bankAccountToken fields
                      else cardToken fields) in
           body_set (snd r) "stripe-payment-token" (fst r) ;;
           ret (snd r)
       end in
     let* result := fetch_POST body in
     (if fst result then assign (set_isComplete true)
      else
        let* error := await_json (snd result) in
        console_error (LogBackendError error) ;;
        match error with
        | None => throw (TypeError "error is undefined")
        | Some err =>
            if truthy_param (BackendError.param err) then
              setInvalid (default "" (BackendError.param err))
                         (BackendError.message err) ;;
              throw (VBool false)
            else throw (VString (BackendError.message err))
        end) ;;
     assign (set_isComplete true))
    (fun e =>
       if truthy e then console_error (LogValue e) ;; alert e
       else ret tt)
    (assign (set_isLoading false)).

End Handlers.

(** One submission attempt on the element [c]: the URLSearchParams objects
    of an attempt are created by it, so its store starts empty. *)
Definition submit_attempt (env : Env) (c : Signup) : Completion unit * World :=
  submit env {| comp := c; heap := []; trace := [] |}.

(** ** The Plaid link flow *)

(** The [onSuccess] callback given to [Plaid.create] by [openPlaid]. *)
Definition onSuccess (public_token : string) (metadata : PlaidMetadata.t)
  : Async unit :=
  match PlaidMetadata.accounts metadata with
  | first :: _ =>
      assign (set_plaidToken (Some
        {| public_token := public_token;
           account_name :=
             String.append (PlaidMetadata.institution_name metadata)
               (String.append " " (PlaidAccount.name first));
           account_id := PlaidAccount.id first |}))
  | [] => throw (TypeError "metadata.accounts[0] is undefined")
  end.

Definition clearPlaid : Async unit := assign (set_plaidToken None).

Definition setMethod (method : PaymentMethod) : Async unit :=
  assign (set_paymentMethod method).

(** ** JavaScript numbers: IEEE 754 binary64 *)

Module Number.

Open Scope Z_scope.

Definition prec : Z := 53.
Definition emax : Z := 1024.

Definition NaN : spec_float := S754_nan.

(** The Number nearest to an integer. *)
Definition of_Z (z : Z) : spec_float := binary_normalize prec emax z 0 false.

(** The Number nearest to [p / q], with sign [s]. *)
Definition of_ratio (s : bool) (p q : Z) : spec_float :=
  let k := Z.max 0 (64 + Z.log2 q - Z.log2 p) in
  let '(m, r) := Z.div_eucl (Z.shiftl p k) q in
  binary_round_aux prec emax s m (- k)
    (if r =? 0 then loc_Exact else loc_Inexact (Z.compare (2 * r) q)).

(** The Number nearest to [m * 10 ^ e], with sign [s]. *)
Definition of_decimal (s : bool) (m e : Z) : spec_float :=
  if m =? 0 then S754_zero s
  else if 0 <=? e then
    if 400 <? e then S754_infinity s
    else binary_normalize prec emax (cond_Zopp s (m * 10 ^ e)) 0 false
  else if Z.log2 m + 1 + 3 * e <=? -1076 then S754_zero s
  else of_ratio s m (10 ^ (- e)).

Definition isNaN (x : spec_float) : bool :=
  match x with
  | S754_nan => true
  | _ => false
  end.

Definition div (x y : spec_float) : spec_float := SFdiv prec emax x y.

Definition mul (x y : spec_float) : spec_float := SFmul prec emax x y.

(** [Math.floor]. *)
Definition floor (x : spec_float) : spec_float :=
  match x with
  | S754_finite s m e =>
      if 0 <=? e then x
      else
        let q := Z.shiftr (Zpos m) (- e) in
        let exact := Z.shiftl q (- e) =? Zpos m in
        let z := if s && negb exact then q + 1 else q in
        if z =? 0 then S754_zero s
        else binary_normalize prec emax (cond_Zopp s z) 0 false
  | _ => x
  end.

Close Scope Z_scope.

End Number.

(** ** StringToNumber, as [Number(value)] applies it to a string

    Strings are sequences of bytes; characters outside ASCII are in UTF-8. *)

Module StringToNumber.

Open Scope Z_scope.

Definition code (c : ascii) : Z := Z.of_nat (nat_of_ascii c).

(** StrWhiteSpaceChar: the byte sequences of WhiteSpace and
    LineTerminator. *)
Definition StrWhiteSpaceChar : list (list Z) :=
  [ [9]; [10]; [11]; [12]; [13]; [32]; [194; 160]; [225; 154; 128];
    [226; 128; 128]; [226; 128; 129]; [226; 128; 130]; [226; 128; 131];
    [226; 128; 132]; [226; 128; 133]; [226; 128; 134]; [226; 128; 135];
    [226; 128; 136]; [226; 128; 137]; [226; 128; 138]; [226; 128; 168];
    [226; 128; 169]; [226; 128; 175]; [226; 129; 159]; [227; 128; 128];
    [239; 187; 191] ].

Fixpoint strip_prefix (p l : list Z) : option (list Z) :=
  match p, l with
  | [], _ => Some l
  | a :: p', b :: l' => if a =? b then strip_prefix p' l' else None
  | _ :: _, [] => None
  end.

Fixpoint first_match (ps : list (list Z)) (l : list Z) : option (list Z) :=
  match ps with
  | [] => None
  | p :: ps' =>
      match strip_prefix p l with
      | Some rest => Some rest
      | None => first_match ps' l
      end
  end.

Fixpoint skip (ps : list (list Z)) (fuel : nat) (l : list Z) : list Z :=
  match fuel with
  | O => l
  | S fuel' =>
      match first_match ps l with
      | Some rest => skip ps fuel' rest
      | None => l
      end
  end.

Definition trim (l : list Z) : list Z :=
  let l1 := skip StrWhiteSpaceChar (length l) l in
  let r := skip (map (@rev Z) StrWhiteSpaceChar) (length l1) (rev l1) in
  rev r.

Definition digit (radix : Z) (c : Z) : option Z :=
  let d :=
    if (48 <=? c) && (c <=? 57) then c - 48
    else if (97 <=? c) && (c <=? 122) then c - 97 + 10
    else if (65 <=? c) && (c <=? 90) then c - 65 + 10
    else 36 in
  if d <? radix then Some d else None.

(** The longest prefix of digits: its value, its length and the rest. *)
Fixpoint digits (radix : Z) (l : list Z) (acc : Z) (n : Z)
  : Z * Z * list Z :=
  match l with
  | [] => (acc, n, [])
  | c :: rest =>
      match digit radix c with
      | Some d => digits radix rest (radix * acc + d) (n + 1)
      | None => (acc, n, l)
      end
  end.

(** NonDecimalIntegerLiteral without its prefix. *)
Definition integer_literal (radix : Z) (l : list Z) : spec_float :=
  let '(v, n, rest) := digits radix l 0 0 in
  match rest with
  | [] => if 0 <? n then Number.of_Z v else Number.NaN
  | _ => Number.NaN
  end.

(** ExponentPart_opt: the exponent and the rest, [None] when an [e] is not
    followed by a SignedInteger. *)
Definition exponent_part (l : list Z) : option (Z * list Z) :=
  match l with
  | c :: rest =>
      if (c =? 101) || (c =? 69) then
        let '(neg, rest1) :=
          match rest with
          | 43 :: r => (false, r)
          | 45 :: r => (true, r)
          | _ => (false, rest)
          end in
        let '(v, n, rest2) := digits 10 rest1 0 0 in
        if 0 <? n then Some (if neg then - v else v, rest2) else None
      else Some (0, l)
  | [] => Some (0, [])
  end.

Definition Infinity : list Z := map code (list_ascii_of_string "Infinity").

(** StrUnsignedDecimalLiteral with the sign [s] read before it. *)
Definition unsigned_decimal (s : bool) (l : list Z) : spec_float :=
  match strip_prefix Infinity l with
  | Some [] => S754_infinity s
  | Some (_ :: _) => Number.NaN
  | None =>
      let '(int, n1, rest1) := digits 10 l 0 0 in
      let '(mant, n2, rest2) :=
        match rest1 with
        | 46 :: r => digits 10 r int 0
        | _ => (int, 0, rest1)
        end in
      if 0 <? n1 + n2 then
        match exponent_part rest2 with
        | Some (e, []) => Number.of_decimal s mant (e - n2)
        | _ => Number.NaN
        end
      else Number.NaN
  end.

Definition StrNumericLiteral (l : list Z) : spec_float :=
  match l with
  | [] => S754_zero false
  | 48 :: 120 :: r | 48 :: 88 :: r => integer_literal 16 r
  | 48 :: 111 :: r | 48 :: 79 :: r => integer_literal 8 r
  | 48 :: 98 :: r | 48 :: 66 :: r => integer_literal 2 r
  | 43 :: r => unsigned_decimal false r
  | 45 :: r => unsigned_decimal true r
  | _ => unsigned_decimal false l
  end.

Definition StringToNumber (str : string) : spec_float :=
  StrNumericLiteral (trim (map code (list_ascii_of_string str))).

Close Scope Z_scope.

End StringToNumber.

(** [Number(value)] for a string or [undefined]. *)
Definition Number_ (value : option string) : spec_float :=
  match value with
  | Some str => StringToNumber.StringToNumber str
  | None => Number.NaN
  end.

(** ** Number::toString in radix 10, as a template literal applies it *)

Module NumberToString.

Open Scope Z_scope.

Definition string_of_Z (z : Z) : string :=
  NilZero.string_of_uint (N.to_uint (Z.to_N z)).

(** [p / q < 10 ^ n]. *)
Definition below_pow10 (p q n : Z) : bool :=
  if 0 <=? n then p <? q * 10 ^ n else p * 10 ^ (- n) <? q.

(** The least [n] from [n0] on with [p / q < 10 ^ n]. *)
Fixpoint exponent (fuel : nat) (n0 p q : Z) : Z :=
  match fuel with
  | O => n0
  | S fuel' => if below_pow10 p q n0 then n0 else exponent fuel' (n0 + 1) p q
  end.

(** [p / q * 10 ^ e] as a fraction. *)
Definition scale (p q e : Z) : Z * Z :=
  if 0 <=? e then (p * 10 ^ e, q) else (p, q * 10 ^ (- e)).

(** Does the decimal [s * 10 ^ (n - k)] denote the Number [x]? *)
Definition denotes (x : spec_float) (s n k : Z) : bool :=
  let '(p, q) := scale s 1 (n - k) in
  match SFcompare (Number.of_ratio false p q) x with
  | Some Eq => true
  | _ => false
  end.

(** The digits [s] with [k] digits and the exponent [n] of the shortest
    decimal that denotes the positive Number [x = p / q], looking for [k]
    from [k0] on. *)
Fixpoint shortest (fuel : nat) (k0 : Z) (x : spec_float) (p q n : Z)
  : Z * Z * Z :=
  let '(p', q') := scale p q (k0 - n) in
  let lo := p' / q' in
  let hi := lo + 1 in
  let ok_lo := denotes x lo n k0 in
  let ok_hi := denotes x hi n k0 in
  let pick_hi :=
    if hi =? 10 ^ k0 then (10 ^ (k0 - 1), k0, n + 1) else (hi, k0, n) in
  match fuel with
  | O => (lo, k0, n)
  | S fuel' =>
      if ok_lo && ok_hi then
        match 2 * p' ?= (2 * lo + 1) * q' with
        | Lt => (lo, k0, n)
        | Gt => pick_hi
        | Eq => if Z.even lo then (lo, k0, n) else pick_hi
        end
      else if ok_lo then (lo, k0, n)
      else if ok_hi then pick_hi
      else shortest fuel' (k0 + 1) x p q n
  end.

Definition zeros (n : Z) : string :=
  string_of_list_ascii (repeat "0"%char (Z.to_nat n)).

Definition take (n : Z) (s : string) : string :=
  String.substring 0 (Z.to_nat n) s.

Definition drop (n : Z) (s : string) : string :=
  String.substring (Z.to_nat n) (String.length s - Z.to_nat n) s.

(** The text of the decimal with digits [s] ([k] of them) and exponent
    [n]. *)
Definition layout (s k n : Z) : string :=
  let ds := string_of_Z s in
  if (k <=? n) && (n <=? 21) then String.append ds (zeros (n - k))
  else if (0 <? n) && (n <=? 21) then
    String.append (take n ds) (String.append "." (drop n ds))
  else if (-6 <? n) && (n <=? 0) then
    String.append "0." (String.append (zeros (- n)) ds)
  else
    let e := String.append (if 0 <=? n - 1 then "e+" else "e-")
                           (string_of_Z (Z.abs (n - 1))) in
    if k =? 1 then String.append ds e
    else String.append (take 1 ds)
           (String.append "." (String.append (drop 1 ds) e)).

Definition toString (x : spec_float) : string :=
  match x with
  | S754_nan => "NaN"
  | S754_zero _ => "0"
  | S754_infinity s => if s then "-Infinity" else "Infinity"
  | S754_finite s m e =>
      let '(p, q) := if 0 <=? e then (Zpos m * 2 ^ e, 1)
                     else (Zpos m, 2 ^ (- e)) in
      let n := exponent 700 (-330) p q in
      let '(d, k, n') := shortest 17 1 (S754_finite false m e) p q n in
      String.append (if s then "-" else "") (layout d k n')
  end.

Close Scope Z_scope.

End NumberToString.

(** ** The dues display *)

(** [formattedDues()], given [this.totalCompensation?.value]: [None] when
    the query finds no control (before the first render). *)
Definition formattedDues (totalCompensation : option string) : string :=
  let comp := Number_ totalCompensation in
  if negb (Number.isNaN comp) then
    String.append "$"
      (NumberToString.toString
         (Number.floor
            (Number.div (Number.div (Number.floor comp) (Number.of_Z 100))
                        (Number.of_Z 12))))
  else "$0".

(** What [render()] shows for the dues: the form exists and the control's
    current value is read. *)
Definition render_dues (c : Signup) : string :=
  formattedDues (Some (inputs c "total-compensation")).

(** ** Reading a trace *)

(** The bodies sent to the signup endpoint. *)
Fixpoint posts (tr : list Event) : list Entries :=
  match tr with
  | [] => []
  | EFetchPost body :: rest => body :: posts rest
  | _ :: rest => posts rest
  end.

(** The values shown by [alert]. *)
Fixpoint alerts (tr : list Event) : list JsVal :=
  match tr with
  | [] => []
  | EAlert v :: rest => v :: alerts rest
  | _ :: rest => alerts rest
  end.

(** The controls marked invalid, with the message of each. *)
Fixpoint invalidated (tr : list Event) : list (string * string) :=
  match tr with
  | [] => []
  | ESetCustomValidity field message :: rest =>
      (field, message) :: invalidated rest
  | _ :: rest => invalidated rest
  end.

(** What [console.error] was given. *)
Fixpoint logs (tr : list Event) : list Logged :=
  match tr with
  | [] => []
  | EConsoleError x :: rest => x :: logs rest
  | _ :: rest => logs rest
  end.

(** The calls of [stripe.createToken]. *)
Fixpoint tokenizations (tr : list Event) : list TokenKind :=
  match tr with
  | [] => []
  | ECreateToken kind _ :: rest => kind :: tokenizations rest
  | _ :: rest => tokenizations rest
  end.

(** Did the signup endpoint answer this body with an ok status? *)
Definition answered_ok (env : Env) (body : Entries) : bool :=
  match fetch env body with
  | Response true _ => true
  | _ => false
  end.

(** ** The vocabulary of the properties *)

(** The controls outside the payment section. *)
Definition nonPaymentFields : list string :=
  fieldsBeforePayment ++ [ "signature" ].

(** The card fields and the manual bank fields that must stay out of the
    body of another method. *)
Definition cardFields : list string :=
  [ "card-holder-name"; "billing-address-1"; "billing-address-2";
    "billing-city"; "billing-state"; "billing-zip" ].

Definition manualBankFields : list string :=
  [ "routing-number"; "account-number"; "account-holder-name" ].

(** The method whose strategy makes this kind of token. *)
Definition method_of (kind : TokenKind) : PaymentMethod :=
  match kind with
  | CardElement => card
  | BankAccount => bank
  end.

(** The known error parameters of each strategy, with the form control
    each one stands for. *)
Definition knownParams (kind : TokenKind) : list (string * string) :=
  match kind with
  | CardElement =>
      [ ("card[name]", "card-holder-name");
        ("card[address_line1]", "billing-address-1");
        ("card[address_line2]", "billing-address-2");
        ("card[address_city]", "billing-city");
        ("card[address_zip]", "billing-zip");
        ("card[address_country]", "billing-country");
        ("currency", "currency") ]
  | BankAccount =>
      [ ("bank_account[country]", "billing-country");
        ("bank_account[currency]", "currency");
        ("bank_account[routing_number]", "routing-number");
        ("bank_account[account_number]", "account-number");
        ("bank_account[account_holder_name]", "account-holder-name") ]
  end.

Fixpoint field_of_param (param : option string) (table : list (string * string))
  : option string :=
  match table with
  | [] => None
  | (known, field) :: rest =>
      if case_ param known then Some field else field_of_param param rest
  end.

(** How many pairs of a body are named [name]. *)
Definition occurrences (name : string) (body : Entries) : nat :=
  length (List.filter (fun kv => String.eqb (fst kv) name) body).

(** What [alert] shows for a thrown value: nothing when it is falsy. *)
Definition alerted (e : JsVal) : list JsVal :=
  if truthy e then [ e ] else [].

(** The token pairs of a body. *)
Definition plaidPairs (token : PlaidToken) : Entries :=
  [ ("plaid-public-token", public_token token);
    ("plaid-account-id", account_id token) ].

Definition stripePair (token_id : string) : Entries :=
  [ ("stripe-payment-token", token_id) ].

(** What an attempt on [c] that ended in the world [w] did: it sent
    nothing, or one body whose answer decided the outcome. *)
Definition Outcome (env : Env) (c : Signup) (w : World) : Prop :=
  match posts (trace w) with
  | [] => isComplete (comp w) = isComplete c /\ plaidToken c = None
  | [body] =>
      match plaidToken c with
      | Some token =>
          body = entries c nonPaymentFields ++ plaidPairs token
          /\ tokenizations (trace w) = []
      | None =>
          exists kind data token_id,
            createToken env kind data = TokenOk token_id
            /\ tokenizations (trace w) = [kind]
            /\ body = entries c nonPaymentFields ++ stripePair token_id
      end
      /\ match fetch env body with
         | Response true _ =>
             isComplete (comp w) = true
             /\ invalidated (trace w) = [] /\ alerts (trace w) = []
         | Response false (JsonBody (Some err)) =>
             isComplete (comp w) = isComplete c
             /\ List.hd_error (logs (trace w))
                = Some (LogBackendError (Some err))
             /\ match BackendError.param err with
                | Some p =>
                    if truthy (VString p) then
                      if namedItem p c then
                        invalidated (trace w) = [(p, BackendError.message err)]
                        /\ alerts (trace w) = []
                      else
                        invalidated (trace w) = []
                        /\ alerts (trace w) = [TypeError "input is null"]
                    else
                      invalidated (trace w) = []
                      /\ alerts (trace w)
                         = alerted (VString (BackendError.message err))
                | None =>
                    invalidated (trace w) = []
                    /\ alerts (trace w)
                       = alerted (VString (BackendError.message err))
                end
         | Response false (JsonBody None) =>
             isComplete (comp w) = isComplete c
             /\ invalidated (trace w) = []
             /\ alerts (trace w) = [TypeError "error is undefined"]
         | Response false (JsonRejected e) | FetchRejected e =>
             isComplete (comp w) = isComplete c
             /\ invalidated (trace w) = [] /\ alerts (trace w) = alerted e
         end
  | _ => False
  end.

(** The strategy that [submit] runs for a kind of token. *)
Definition strategy (env : Env) (kind : TokenKind)
  : SpliceableUrlSearchParams -> Async (string * Ref) :=
  match kind with
  | CardElement => cardToken env
  | BankAccount => bankAccountToken env
  end.

(** The element and the splicer as [submit] has them when it enters its
    try block. *)
Definition entering_try (c : Signup) : SpliceableUrlSearchParams * World :=
  ({| original := 0; remainder := 1 |},
   {| comp := set_isLoading true c;
      heap := [ FormData c; FormData c ];
      trace := [ EPreventDefault; EClassListAdd "invalidatable" ] |}).

(** ** Sample inputs *)

Definition sample_inputs (field : string) : string :=
  if String.eqb field "total-compensation" then "250000"
  else if String.eqb field "currency" then "usd"
  else if String.eqb field "billing-zip" then "94043"
  else "x".

Definition sample_signup (method : PaymentMethod) (token : option PlaidToken)
  : Signup :=
  {| paymentMethod := method; isLoading := false; isComplete := false;
     plaidToken := token; inputs := sample_inputs |}.

Definition sample_token : PlaidToken :=
  {| public_token := "public-token-1"; account_name := "Bank Checking";
     account_id := "acc-1" |}.

(** Stripe answers every request with [result], the endpoint every body
    with [response]. *)
Definition sample_env (result : TokenResult) (response : FetchResult) : Env :=
  {| stripe := StripeLoaded;
     createToken := fun _ _ => result;
     fetch := fun _ => response |}.

(** ** More on an attempt: what Stripe is asked and what is left alone *)

(** The calls of [stripe.createToken] with the data object of each. *)
Fixpoint token_requests (tr : list Event) : list (TokenKind * TokenData) :=
  match tr with
  | [] => []
  | ECreateToken kind data :: rest => (kind, data) :: token_requests rest
  | _ :: rest => token_requests rest
  end.

(** The kind of token that [submit] asks for without a linked account:
    [this.paymentMethod === 'bank'] or anything else. *)
Definition chosen_kind (c : Signup) : TokenKind :=
  if paymentMethod_is_bank c then BankAccount else CardElement.

(** The properties of the data object of each strategy, with the form
    field each one is read from. *)
Definition stripeFields (kind : TokenKind) : list (string * string) :=
  match kind with
  | CardElement =>
      [ ("name", "card-holder-name");
        ("address_line1", "billing-address-1");
        ("address_line2", "billing-address-2");
        ("address_city", "billing-city");
        ("address_state", "billing-state");
        ("address_zip", "billing-zip");
        ("address_country", "billing-country");
        ("currency", "currency") ]
  | BankAccount =>
      [ ("country", "billing-country");
        ("currency", "currency");
        ("routing_number", "routing-number");
        ("account_number", "account-number");
        ("account_holder_name", "account-holder-name") ]
  end.

(** The data object made of the pairs of [form]. *)
Definition stripeData (kind : TokenKind) (form : Entries) : TokenData :=
  map (fun pf => (fst pf, URLSearchParams.get (snd pf) form))
      (stripeFields kind)
  ++ match kind with
     | CardElement => []
     | BankAccount => [ ("account_holder_type", Some "individual") ]
     end.

(** What an attempt asked of Stripe and what it showed of a failure. *)
Definition Conduct (env : Env) (c : Signup) (w : World) : Prop :=
  let kind := chosen_kind c in
  let data := stripeData kind (FormData c) in
  match plaidToken c with
  | Some _ => token_requests (trace w) = []
  | None =>
      match stripe env with
      | StripeLoaded =>
          token_requests (trace w) = [(kind, data)]
          /\ match createToken env kind data with
             | TokenOk _ => length (posts (trace w)) = 1
             | TokenError _ _ => posts (trace w) = []
             | TokenRejected e =>
                 posts (trace w) = [] /\ invalidated (trace w) = []
                 /\ alerts (trace w) = alerted e
             end
      | StripeNull =>
          token_requests (trace w) = [] /\ posts (trace w) = []
          /\ invalidated (trace w) = []
          /\ alerts (trace w) = [TypeError "stripe is null"]
      | StripeRejected e =>
          token_requests (trace w) = [] /\ posts (trace w) = []
          /\ invalidated (trace w) = [] /\ alerts (trace w) = alerted e
      end
  end
  /\ match alerts (trace w), invalidated (trace w) with
     | [], [] | [], [_] => True
     | [v], [] =>
         truthy v = true /\ last (logs (trace w)) = Some (LogValue v)
     | _, _ => False
     end.

(** The reactive properties and values that make the form. *)
Definition same_form (c c' : Signup) : Prop :=
  paymentMethod c' = paymentMethod c
  /\ plaidToken c' = plaidToken c
  /\ inputs c' = inputs c.

(** A handler that leaves them as they are. *)
Definition keeps_form {A} (m : Async A) : Prop :=
  forall w, same_form (comp w) (comp (snd (m w))).

(** No name occurs twice. *)
Fixpoint distinct (names : list string) : bool :=
  match names with
  | [] => true
  | name :: rest => negb (includes rest name) && distinct rest
  end.

(** The controls of the two payment templates. *)
Definition paymentFields : list string := bankTemplate ++ cardTemplate.

(** The names of the token pairs of a body. *)
Definition tokenNames (c : Signup) : list string :=
  match plaidToken c with
  | Some _ => [ "plaid-public-token"; "plaid-account-id" ]
  | None => [ "stripe-payment-token" ]
  end.

(** Two worlds with the same form, the same store and the same trace. *)
Definition same_world (w w' : World) : Prop :=
  same_form (comp w) (comp w') /\ heap w' = heap w /\ trace w' = trace w.

(** Two handlers that do the same from such worlds. *)
Definition alike {A} (m m' : Async A) : Prop :=
  forall w w', same_world w w' ->
    fst (m' w') = fst (m w) /\ same_world (snd (m w)) (snd (m' w')).

(** ** The loader of the Plaid library *)

Definition PLAID_LIB_URL : string :=
  "https://cdn.plaid.com/link/v2/stable/link-initialize.js".

Inductive PromiseState :=
| Pending
| Fulfilled
| Rejected (e : JsVal).

(** The module variable [loadingPlaid], the promises that [loadPlaid] has
    created and the script elements appended to the document body, each
    with the promise that its listeners settle. *)
Record Page := {
  loadingPlaid : option nat;
  promises : list PromiseState;
  scripts : list (string * nat)
}.

(** [loadPlaid()]: the promise kept in [loadingPlaid], created with its
    script element by the first call. *)
Definition loadPlaid (p : Page) : nat * Page :=
  match loadingPlaid p with
  | Some promise => (promise, p)
  | None =>
      let promise := length (promises p) in
      (promise,
       {| loadingPlaid := Some promise;
          promises := promises p ++ [Pending];
          scripts := scripts p ++ [(PLAID_LIB_URL, promise)] |})
  end.

(** [resolve] and [reject] settle a pending promise and do nothing to a
    settled one. *)
Definition settle (promise : nat) (s : PromiseState) (p : Page) : Page :=
  match promises p !! promise with
  | Some Pending =>
      {| loadingPlaid := loadingPlaid p;
         promises := <[promise := s]> (promises p);
         scripts := scripts p |}
  | _ => p
  end.

(** What happens on the page: an element is constructed and calls
    [loadPlaid()], or the n-th appended script fires [load] or [error]. *)
Inductive PageEvent :=
| CallLoadPlaid
| ScriptLoad (script : nat)
| ScriptError (script : nat) (e : JsVal).

(** One event: the promises returned to callers, and the page. *)
Definition page_step (ev : PageEvent) (p : Page) : list nat * Page :=
  match ev with
  | CallLoadPlaid => ([fst (loadPlaid p)], snd (loadPlaid p))
  | ScriptLoad script =>
      match scripts p !! script with
      | Some (_, promise) => ([], settle promise Fulfilled p)
      | None => ([], p)
      end
  | ScriptError script e =>
      match scripts p !! script with
      | Some (_, promise) => ([], settle promise (Rejected e) p)
      | None => ([], p)
      end
  end.

Fixpoint page_run (events : list PageEvent) (p : Page) : list nat * Page :=
  match events with
  | [] => ([], p)
  | ev :: rest =>
      let r1 := page_step ev p in
      let r2 := page_run rest (snd r1) in
      (fst r1 ++ fst r2, snd r2)
  end.

Definition new_page : Page :=
  {| loadingPlaid := None; promises := []; scripts := [] |}.

(** Nothing loaded yet, or one promise and one script. *)
Definition loader_states (p : Page) : Prop :=
  p = new_page
  \/ exists s, p = {| loadingPlaid := Some 0; promises := [s];
                      scripts := [(PLAID_LIB_URL, 0)] |}.

(** ** Opening Plaid Link *)

(** What [await this.plaid] gives: [window.Plaid] as the script defined
    it, [undefined] when it defined none, or the rejection of the
    loader. *)
Inductive PlaidLoad :=
| PlaidLoaded
| PlaidUndefined
| PlaidRejected (e : JsVal).

(** What [await (await fetch(...)).json()] gives: a rejection of either
    promise, [null], or a value whose [link_token] may be missing. *)
Inductive LinkTokenResponse :=
| LinkFetchRejected (e : JsVal)
| LinkJsonRejected (e : JsVal)
| LinkJsonNull
| LinkJson (link_token : option string).

Module Link.

(** The settled [this.plaid], and the answer of the link-token endpoint to
    the n-th request. *)
Record Env := {
  plaid : PlaidLoad;
  link_token : nat -> LinkTokenResponse
}.

End Link.

Inductive LinkEvent :=
| LFetchLinkToken
| LCreate (token : option string) (handler : nat)
| LOpen (handler : nat)
| LDestroy (handler : nat).

Record LinkWorld := {
  element : Signup;
  link_trace : list LinkEvent
}.

Fixpoint link_fetches (tr : list LinkEvent) : nat :=
  match tr with
  | [] => 0
  | LFetchLinkToken :: rest => S (link_fetches rest)
  | _ :: rest => link_fetches rest
  end.

(** The handlers that [Plaid.create] has returned. *)
Fixpoint created (tr : list LinkEvent) : list nat :=
  match tr with
  | [] => []
  | LCreate _ handler :: rest => handler :: created rest
  | _ :: rest => created rest
  end.

Fixpoint opened (tr : list LinkEvent) : list nat :=
  match tr with
  | [] => []
  | LOpen handler :: rest => handler :: opened rest
  | _ :: rest => opened rest
  end.

Fixpoint destroyed (tr : list LinkEvent) : list nat :=
  match tr with
  | [] => []
  | LDestroy handler :: rest => handler :: destroyed rest
  | _ :: rest => destroyed rest
  end.

Definition link_log (e : LinkEvent) (w : LinkWorld) : LinkWorld :=
  {| element := element w; link_trace := link_trace w ++ [e] |}.

(** [openPlaid()]: the link token is fetched, then [this.plaid] is awaited
    and a handler is created and opened; nothing is caught. *)
Definition openPlaid (env : Link.Env) (w : LinkWorld)
  : Completion unit * LinkWorld :=
  let response := Link.link_token env (link_fetches (link_trace w)) in
  let w1 := link_log LFetchLinkToken w in
  match response with
  | LinkFetchRejected e => (Throw e, w1)
  | LinkJsonRejected e => (Throw e, w1)
  | LinkJsonNull => (Throw (TypeError "link_token of null"), w1)
  | LinkJson link_token =>
      match Link.plaid env with
      | PlaidRejected e => (Throw e, w1)
      | PlaidUndefined => (Throw (TypeError "create of undefined"), w1)
      | PlaidLoaded =>
          let handler := length (created (link_trace w)) in
          (Normal tt,
           link_log (LOpen handler)
             (link_log (LCreate link_token handler) w1))
      end
  end.

(** The [onExit] callback of the handler that [openPlaid] created. *)
Definition onExit (handler : nat) (w : LinkWorld) : LinkWorld :=
  link_log (LDestroy handler) w.

(** A handler of the element that touches neither the store nor the
    trace of a submission, run on the element of the link flow. *)
Definition on_element (m : Async unit) (w : LinkWorld) : LinkWorld :=
  {| element := comp (snd (m {| comp := element w; heap := [];
                               trace := [] |}));
     link_trace := link_trace w |}.

(** What the user and Plaid do: a click on a method button, on Connect
    Bank or on Remove, and the callbacks of a handler. *)
Inductive LinkAction :=
| ClickMethod (method : PaymentMethod)
| ClickConnect
| PlaidSuccess (handler : nat) (public_token : string)
    (metadata : PlaidMetadata.t)
| PlaidExit (handler : nat)
| ClickRemove.

(** Is [handler] one of [handlers]? *)
Definition has_handler (handlers : list nat) (handler : nat) : bool :=
  existsb (Nat.eqb handler) handlers.

(** One action, taken to its end before the next one.  A button acts
    when [render()] shows it: the method buttons without a linked account,
    Connect Bank with the plaid method on top of that, Remove with a linked
    account; Plaid calls back the handlers that exist.  Nothing handles a
    rejection of [openPlaid]: what it did before it threw stays done. *)
Definition link_step (env : Link.Env) (a : LinkAction) (w : LinkWorld)
  : LinkWorld :=
  match a with
  | ClickMethod method =>
      match plaidToken (element w) with
      | None => on_element (setMethod method) w
      | Some _ => w
      end
  | ClickConnect =>
      match plaidToken (element w), paymentMethod (element w) with
      | None, plaid => snd (openPlaid env w)
      | _, _ => w
      end
  | PlaidSuccess handler public_token metadata =>
      if has_handler (created (link_trace w)) handler
      then on_element (onSuccess public_token metadata) w
      else w
  | PlaidExit handler =>
      if has_handler (created (link_trace w)) handler
      then onExit handler w
      else w
  | ClickRemove =>
      match plaidToken (element w) with
      | Some _ => on_element clearPlaid w
      | None => w
      end
  end.

Definition link_run (env : Link.Env) (actions : list LinkAction)
    (w : LinkWorld) : LinkWorld :=
  fold_left (fun w a => link_step env a w) actions w.

(** The traces of the link flow: from idle, a click on Connect Bank
    fetches a link token and stops there when something fails, or creates
    and opens a new handler with the token just fetched; a handler that
    exists may exit, which destroys it. *)
Inductive link_flow (env : Link.Env) : list LinkEvent -> Prop :=
| flow_idle : link_flow env []
| flow_failed tr :
    link_flow env tr ->
    (forall token,
       Link.link_token env (link_fetches tr) = LinkJson token ->
       Link.plaid env <> PlaidLoaded) ->
    link_flow env (tr ++ [LFetchLinkToken])
| flow_opened tr token :
    link_flow env tr ->
    Link.link_token env (link_fetches tr) = LinkJson token ->
    Link.plaid env = PlaidLoaded ->
    link_flow env
      (tr ++ [ LFetchLinkToken; LCreate token (length (created tr));
               LOpen (length (created tr)) ])
| flow_exit tr handler :
    link_flow env tr ->
    In handler (created tr) ->
    link_flow env (tr ++ [LDestroy handler]).

(** An action that can change the linked account. *)
Definition links_or_removes (a : LinkAction) : bool :=
  match a with
  | PlaidSuccess _ _ _ | ClickRemove => true
  | _ => false
  end.

(** ** The Stripe card element and its slot *)

Inductive SlotEvent :=
| SCreate (el : nat)
| SMount (el : nat) (container : string)
| SUnmount (el : nat).

Record CardSlot := {
  cardElement : option nat;
  slot_trace : list SlotEvent
}.

Fixpoint cards_created (tr : list SlotEvent) : nat :=
  match tr with
  | [] => 0
  | SCreate _ :: rest => S (cards_created rest)
  | _ :: rest => cards_created rest
  end.

(** [rebindStripeElement(event)], given the first assigned element of the
    slot when it is an HTMLElement. *)
Definition rebindStripeElement (env : Env) (container : option string)
    (s : CardSlot) : Completion unit * CardSlot :=
  let s1 :=
    match cardElement s with
    | Some el =>
        {| cardElement := cardElement s;
           slot_trace := slot_trace s ++ [SUnmount el] |}
    | None => s
    end in
  match container with
  | Some container =>
      match stripe env with
      | StripeLoaded =>
          let el := cards_created (slot_trace s1) in
          (Normal tt,
           {| cardElement := Some el;
              slot_trace :=
                slot_trace s1 ++ [SCreate el; SMount el container] |})
      | StripeNull => (Throw (TypeError "elements of null"), s1)
      | StripeRejected e => (Throw e, s1)
      end
  | None => (Normal tt, s1)
  end.

(** The slotchange events of a page, each one handled to its end before
    the next one. *)
Definition slot_run (env : Env) (containers : list (option string))
    (s : CardSlot) : CardSlot :=
  fold_left (fun s container => snd (rebindStripeElement env container s))
            containers s.

(** The card elements that are mounted after a trace, given the ones
    mounted before it. *)
Fixpoint mounted_after (tr : list SlotEvent) (before : list nat) : list nat :=
  match tr with
  | [] => before
  | SMount el _ :: rest => mounted_after rest (el :: before)
  | SUnmount el :: rest =>
      mounted_after rest (List.filter (fun c => negb (Nat.eqb c el)) before)
  | SCreate _ :: rest => mounted_after rest before
  end.

Definition mounted (tr : list SlotEvent) : list nat := mounted_after tr [].

Definition new_slot : CardSlot := {| cardElement := None; slot_trace := [] |}.

(** The mounted card element, if any, is the one the element holds. *)
Definition slot_ok (s : CardSlot) : Prop :=
  match mounted (slot_trace s) with
  | [] => True
  | [el] => cardElement s = Some el
  | _ => False
  end.

(** ** Handlers of the controls *)

(** [this.billingCountry.value = value]: the query finds the control of
    the bank or of the card template, or [null]. *)
Definition set_billingCountry (value : string) : Async unit :=
  let* c := this in
  if namedItem "billing-country" c
  then assign (set_input "billing-country" value)
  else throw (TypeError "this.billingCountry is null").

Definition currencyChangeHandler : Async unit :=
  let* c := this in
  if String.eqb (inputs c "currency") "usd" then set_billingCountry "US"
  else if String.eqb (inputs c "currency") "cad" then set_billingCountry "CA"
  else ret tt.

(** [clearInvalidity(event)], given the name of [event.target]. *)
Definition clearInvalidity (target : string) : Async unit :=
  emit (ESetCustomValidity target "").

(** The custom validity message of a control after a trace: the last one
    set, and none at first. *)
Definition customValidity (tr : list Event) (field : string) : string :=
  fold_left
    (fun message e =>
       match e with
       | ESetCustomValidity f m => if String.eqb f field then m else message
       | _ => message
       end)
    tr "".

(** The billing country of each currency of the currency control. *)
Definition countryOfCurrency : list (string * string) :=
  [ ("usd", "US"); ("cad", "CA") ].

(** ** The value of an input of type number *)

Module NumberInput.

Definition is_digit (c : ascii) : bool :=
  (48 <=? nat_of_ascii c)%nat && (nat_of_ascii c <=? 57)%nat.

Fixpoint skip_digits (l : list ascii) : list ascii :=
  match l with
  | c :: rest => if is_digit c then skip_digits rest else l
  | [] => []
  end.

(** One or more digits: what follows them. *)
Definition some_digits (l : list ascii) : option (list ascii) :=
  match l with
  | c :: rest => if is_digit c then Some (skip_digits rest) else None
  | [] => None
  end.

(** An exponent, if any: what follows it, [None] when an [e] is not
    followed by digits. *)
Definition exponent_opt (l : list ascii) : option (list ascii) :=
  match l with
  | c :: rest =>
      if Ascii.eqb c "e" || Ascii.eqb c "E" then
        match rest with
        | s :: rest' =>
            if Ascii.eqb s "-" || Ascii.eqb s "+" then some_digits rest'
            else some_digits rest
        | [] => None
        end
      else Some l
  | [] => Some []
  end.

(** HTML's valid floating-point number: an optional minus sign, digits or
    a fraction or both, and an optional exponent. *)
Definition valid_floating_point_number (value : string) : bool :=
  let l := list_ascii_of_string value in
  let l1 := match l with
            | c :: rest => if Ascii.eqb c "-" then rest else l
            | [] => l
            end in
  let '(int, l2) := match some_digits l1 with
                    | Some rest => (true, rest)
                    | None => (false, l1)
                    end in
  let after_fraction :=
    match l2 with
    | c :: rest =>
        if Ascii.eqb c "." then some_digits rest
        else if int then Some l2 else None
    | [] => if int then Some [] else None
    end in
  match after_fraction with
  | Some l3 =>
      match exponent_opt l3 with
      | Some [] => true
      | _ => false
      end
  | None => false
  end.

(** The value sanitization algorithm of type number. *)
Definition sanitize (value : string) : string :=
  if valid_floating_point_number value then value else "".

(** The last character of [l] is a digit. *)
Definition ends_in_digit (l : list ascii) : Prop :=
  exists l' d, l = l' ++ [d] /\ is_digit d = true.

End NumberInput.

(** The codes of a minus sign, a full stop or a digit. *)
Definition literal_codes : list Z :=
  [45; 46; 48; 49; 50; 51; 52; 53; 54; 55; 56; 57]%Z.

(** [Number.isFinite]. *)
Definition isFinite (x : spec_float) : bool :=
  match x with
  | S754_zero _ | S754_finite _ _ _ => true
  | _ => false
  end.

(** ** The compensation calculator *)

Record Calculator := {
  hourlyRate : spec_float;
  hoursPerWeek : spec_float
}.

Definition weeksPerYear : spec_float := Number.of_Z 52.

(** The calculator of a new element. *)
Definition new_calculator : Calculator :=
  {| hourlyRate := Number.of_Z 0; hoursPerWeek := Number.of_Z 40 |}.

(** [String(this.hourlyRate * this.hoursPerWeek * this.weeksPerYear)]. *)
Definition totalComp (k : Calculator) : string :=
  NumberToString.toString
    (Number.mul (Number.mul (hourlyRate k) (hoursPerWeek k)) weeksPerYear).

(** [recalculateTotalComp()]: the control is of type number, so the value
    it takes is the sanitized one. *)
Definition recalculateTotalComp (k : Calculator) (c : Signup) : Signup :=
  set_input "total-compensation" (NumberInput.sanitize (totalComp k)) c.

(** [hourlyRateChangeHandler(event)], given [event.target.value]. *)
Definition hourlyRateChangeHandler (value : string)
    (kc : Calculator * Signup) : Calculator * Signup :=
  let k := {| hourlyRate := Number_ (Some value);
              hoursPerWeek := hoursPerWeek (fst kc) |} in
  (k, recalculateTotalComp k (snd kc)).

Definition hoursPerWeekChangeHandler (value : string)
    (kc : Calculator * Signup) : Calculator * Signup :=
  let k := {| hourlyRate := hourlyRate (fst kc);
              hoursPerWeek := Number_ (Some value) |} in
  (k, recalculateTotalComp k (snd kc)).

(** ** Number::toString, computed from a nearer start *)

Module FastToString.
Import NumberToString.
Open Scope Z_scope.

(** A lower bound of the decimal exponent of [p / q]. *)
Definition guess (p q : Z) : Z :=
  ((Z.log2 p - Z.log2 q - 1) * 30103) / 100000 - 1.

(** [toString] with the search of the exponent started at [guess] when
    that is known to be below the exponent. *)
Definition toString (x : spec_float) : string :=
  match x with
  | S754_finite s m e =>
      let '(p, q) := if 0 <=? e then (Zpos m * 2 ^ e, 1)
                     else (Zpos m, 2 ^ (- e)) in
      let g := guess p q in
      if (-330 <=? g) && (g <=? 370) && negb (below_pow10 p q (g - 1)) then
        let n := exponent (700 - Z.to_nat (g + 330)) g p q in
        let '(d, k, n') := shortest 17 1 (S754_finite false m e) p q n in
        String.append (if s then "-" else "") (layout d k n')
      else NumberToString.toString x
  | _ => NumberToString.toString x
  end.

Close Scope Z_scope.

End FastToString.

(** [P] holds of the [n] integers from [z] on. *)
Fixpoint all_from (P : Z -> bool) (n : nat) (z : Z) : bool :=
  match n with
  | O => true
  | S k => P z && all_from P k (z + 1)
  end.

(** The product of the calculator for a whole rate and whole hours is
    the text of the integer product, which is a valid value. *)
Definition product_is_exact (hours rate : Z) : bool :=
  String.eqb
    (FastToString.toString
       (Number.mul
          (Number.mul (Number_ (Some (NumberToString.string_of_Z rate)))
                      (Number_ (Some (NumberToString.string_of_Z hours))))
          weeksPerYear))
    (NumberToString.string_of_Z (rate * hours * 52)%Z)
  && NumberInput.valid_floating_point_number (NumberToString.string_of_Z (rate * hours * 52)%Z).

(** The dues of the whole compensation [n] are the integer quotient. *)
Definition dues_are_the_quotient (n : Z) : bool :=
  negb (Number.isNaN (Number_ (Some (NumberToString.string_of_Z n))))
  && String.eqb
       (FastToString.toString
          (Number.floor
             (Number.div
                (Number.div (Number.floor (Number_ (Some (NumberToString.string_of_Z n))))
                            (Number.of_Z 100))
                (Number.of_Z 12))))
       (NumberToString.string_of_Z (n / 1200)%Z).

Definition dues_step_at (k : Z) : bool :=
  dues_are_the_quotient (1200 * k - 1)%Z && dues_are_the_quotient (1200 * k)%Z.

(** ** Required controls and their labels *)

(** How a template gives a control its [required] attribute: a boolean
    attribute binding [?required=${...}], an attribute binding
    [required=${...}], or the bare attribute. *)
Inductive RequiredBinding :=
| BooleanAttribute
| AttributeValue
| BareAttribute
| NoAttribute.

(** The attribute as rendered for a bound value, [None] when the control
    has none: a boolean binding sets or removes the attribute, an
    attribute binding sets it to the text of the value. *)
Definition rendered_attribute (b : RequiredBinding) (value : bool)
  : option string :=
  match b with
  | BooleanAttribute => if value then Some "" else None
  | AttributeValue => Some (if value then "true" else "false")
  | BareAttribute => Some ""
  | NoAttribute => None
  end.

(** A control is required when it has the attribute, whatever its
    value. *)
Definition has_attribute (attribute : option string) : bool :=
  match attribute with
  | Some _ => true
  | None => false
  end.

(** The binding of [required] on each control of [render()] outside the
    payment section, in document order. *)
Definition requiredBindings : list (string * RequiredBinding) :=
  [ ("preferred-name", BooleanAttribute); ("pronouns", BooleanAttribute);
    ("preferred-language", BooleanAttribute);
    ("personal-email", BooleanAttribute);
    ("personal-phone", BooleanAttribute);
    ("mailing-address-1", BooleanAttribute);
    ("mailing-address-2", BooleanAttribute);
    ("mailing-city", BooleanAttribute); ("mailing-region", BooleanAttribute);
    ("mailing-postal-code", BooleanAttribute);
    ("mailing-country", BooleanAttribute);
    ("employment-type", BooleanAttribute); ("employer", BooleanAttribute);
    ("job-title", AttributeValue); ("team", BooleanAttribute);
    ("org", BooleanAttribute); ("product-area", BooleanAttribute);
    ("site-code", BooleanAttribute); ("building-code", BooleanAttribute);
    ("have-reports", BooleanAttribute); ("work-email", BooleanAttribute);
    ("total-compensation", BooleanAttribute); ("currency", BooleanAttribute);
    ("signature", BooleanAttribute) ].

(** The controls whose title ends with [optionalLabel(name)]. *)
Definition labelledFields : list string :=
  [ "preferred-name"; "pronouns"; "preferred-language"; "personal-email";
    "personal-phone"; "mailing-address-1"; "mailing-address-2";
    "mailing-city"; "mailing-region"; "mailing-postal-code";
    "mailing-country"; "employment-type"; "employer"; "job-title"; "team";
    "org"; "product-area"; "site-code"; "building-code"; "have-reports";
    "work-email"; "total-compensation" ].

Fixpoint binding_of (name : string) (table : list (string * RequiredBinding))
  : RequiredBinding :=
  match table with
  | [] => NoAttribute
  | (n, b) :: rest => if String.eqb n name then b else binding_of name rest
  end.

Section RequiredFields.

(** The list imported from the signup worker. *)
Variable REQUIRED_FIELDS : list string.

Definition optionalLabel (name : string) : string :=
  if includes REQUIRED_FIELDS name then "" else " (optional)".

(** Is the control [name] of the rendered form required? *)
Definition required (name : string) : bool :=
  has_attribute
    (rendered_attribute (binding_of name requiredBindings)
                        (includes REQUIRED_FIELDS name)).

End RequiredFields.

(** ** The login page *)

Module Login.

(** What [loginPage] gives to [renderDocument]: the notice that a link
    was sent, or the form with its action, its method and the name and
    type of its control. *)
Inductive View :=
| LinkSentNotice
| LoginForm (action method : string) (controls : list (string * string)).

Definition loginPage (params : Entries) : View :=
  let linkSent := URLSearchParams.has "link_sent" params in
  if linkSent then LinkSentNotice
  else LoginForm "" "post" [ ("email", "email") ].

End Login.

(** ** Symbolic runs of the handlers *)

(** A run [H : r = program world] is taken from one question to the next:
    to Stripe, to the endpoint or about a value they gave.  The questions
    stay folded, and so does the data of the store and of the trace, which
    no branch of the handlers reads. *)
Ltac control_in H :=
  lazy -[case_ includes truthy deref update app length FormData
         URLSearchParams.get URLSearchParams.set URLSearchParams.delete]
    in H.

Ltac run := lazy -[case_ includes truthy alerted].
Ltac run_in H := lazy -[case_ includes truthy alerted] in H.

(** The value that a run waits for. *)
Ltac stuck_on t :=
  lazymatch t with
  | match ?x with _ => _ end => stuck_on x
  | ?f _ =>
      let x := stuck_on f in
      lazymatch x with
      | f => t
      | _ => x
      end
  | _ => t
  end.

(** A question whose answer is known is answered, another one is split
    into its possible answers. *)
Ltac answer x H :=
  let b := eval vm_compute in x in
  lazymatch b with
  | true => change x with true in H
  | false => change x with false in H
  end.

Ltac step H :=
  lazymatch type of H with
  | _ = ?t =>
      let x := stuck_on t in
      lazymatch x with
      | t => fail
      | _ => first [ answer x H | destruct x eqn:? ]
      end
  end;
  control_in H.

Ltac finish :=
  repeat first [ reflexivity | split | eexists | eassumption ].

Ltac use_answers :=
  repeat (match goal with
          | H : ?x = _ |- context [match ?x with _ => _ end] => rewrite H
          end; cbv beta iota).

Ltac leaf := use_answers; unfold alerted; use_answers; finish.

(** The run of a whole attempt, split at every question, shows its
    outcome. *)
Ltac outcome_by_run c env :=
  unfold Outcome; destruct c, env;
  cbn [plaidToken paymentMethod] in *; subst;
  match goal with
  | |- context [submit_attempt ?e ?s] =>
      let r := fresh "r" in
      remember (submit_attempt e s) as r;
      match goal with
      | H : r = submit_attempt e s |- _ =>
          unfold submit_attempt in H;
          control_in H; repeat step H;
          vm_compute in H; subst r
      end
  end;
  repeat match goal with H : _ = _ |- _ => progress run_in H end;
  run; leaf.

(** The run of an attempt that Stripe refuses, once it is known which of
    the known parameters the refusal names. *)
Ltac known_step H :=
  control_in H;
  lazymatch type of H with
  | _ = ?t =>
      let x := stuck_on t in
      first
        [ answer x H
        | match goal with
          | Hx : x = _ |- _ => rewrite Hx in H
          | Hx : forall data, _ = TokenError _ _ |- _ => rewrite Hx in H
          end ]
  end.

(** * Properties *)

(** * Facts on lists of pairs *)

Section EntriesFacts.
Import URLSearchParams.

Lemma get_delete_same name l : get name (delete name l) = None.
Proof.
  induction l as [|[k v] l IH]; simpl; [reflexivity|].
  destruct (String.eqb k name) eqn:E; simpl; [assumption|].
  rewrite E. assumption.
Qed.

Lemma get_delete_other name name' l :
  name <> name' -> get name' (delete name l) = get name' l.
Proof.
  intros Hne. induction l as [|[k v] l IH]; simpl; [reflexivity|].
  destruct (String.eqb k name) eqn:E; simpl.
  - apply String.eqb_eq in E. subst k.
    destruct (String.eqb name name') eqn:E'; [|assumption].
    apply String.eqb_eq in E'. contradiction.
  - rewrite IH. reflexivity.
Qed.

Lemma has_delete_same name l : has name (delete name l) = false.
Proof.
  induction l as [|[k v] l IH]; simpl; [reflexivity|].
  destruct (String.eqb k name) eqn:E; simpl; [assumption|].
  rewrite E. assumption.
Qed.

Lemma has_delete_absent name name' l :
  has name l = false -> has name (delete name' l) = false.
Proof.
  induction l as [|[k v] l IH]; simpl; [reflexivity|].
  intros H. apply orb_false_elim in H as [Hk Hl].
  destruct (String.eqb k name'); simpl; [auto|].
  rewrite Hk. auto.
Qed.

Lemma delete_absent name l : has name l = false -> delete name l = l.
Proof.
  induction l as [|[k v] l IH]; simpl; [reflexivity|].
  intros H. apply orb_false_elim in H as [Hk Hl].
  rewrite Hk, IH by assumption. reflexivity.
Qed.

Lemma delete_filter name l :
  delete name l = List.filter (fun kv => negb (String.eqb (fst kv) name)) l.
Proof.
  induction l as [|[k v] l IH]; simpl; [reflexivity|].
  destruct (String.eqb k name); simpl; rewrite IH; reflexivity.
Qed.

Lemma delete_delete_filter a b l :
  delete b (delete a l) =
  List.filter (fun kv => negb (String.eqb (fst kv) a)
                         && negb (String.eqb (fst kv) b)) l.
Proof.
  induction l as [|[k v] l IH]; simpl; [reflexivity|].
  destruct (String.eqb k a); simpl; [assumption|].
  destruct (String.eqb k b); simpl; rewrite IH; reflexivity.
Qed.

Lemma set_absent name value l :
  has name l = false -> set name value l = l ++ [(name, value)].
Proof.
  induction l as [|[k v] l IH]; simpl; [reflexivity|].
  intros H. apply orb_false_elim in H as [Hk Hl].
  rewrite Hk, IH by assumption. reflexivity.
Qed.

End EntriesFacts.

(** * Facts on the store *)

Section HeapFacts.

Lemma deref_lookup (r : Ref) (h : Heap) (e : Entries) :
  h !! r = Some e -> deref r h = e.
Proof. intros H. unfold deref. rewrite H. reflexivity. Qed.

Lemma deref_alloc_new (init : Entries) (h : Heap) :
  deref (length h) (h ++ [init]) = init.
Proof.
  unfold deref. rewrite lookup_app_r by lia.
  replace (length h - length h) with 0 by lia. reflexivity.
Qed.

Lemma deref_alloc_old (init : Entries) (h : Heap) (r : Ref) :
  r < length h -> deref r (h ++ [init]) = deref r h.
Proof.
  intros H. unfold deref. rewrite lookup_app_l by assumption. reflexivity.
Qed.

Lemma deref_update_other (r r' : Ref) f (h : Heap) :
  r <> r' -> deref r' (update r f h) = deref r' h.
Proof.
  intros H. unfold update, deref at 1.
  rewrite list_lookup_insert_ne by assumption. reflexivity.
Qed.

End HeapFacts.

(** * The splicer *)

Section SpliceableFacts.
Import Spliceable.

Lemma constructor_repr (init : Entries) (h : Heap) :
  repr (fst (constructor init h)) (snd (constructor init h)) init init.
Proof.
  unfold constructor, new_URLSearchParams. rewrite deref_alloc_new. simpl.
  unfold repr. simpl. rewrite length_app. simpl.
  split; [lia|]. split.
  - rewrite lookup_app_l by (rewrite length_app; simpl; lia).
    rewrite lookup_app_r by lia.
    replace (length h - length h) with 0 by lia. reflexivity.
  - rewrite lookup_app_r by (rewrite length_app; simpl; lia).
    rewrite length_app. simpl.
    replace (length h + 1 - (length h + 1)) with 0 by lia. reflexivity.
Qed.

Lemma repr_wf s h o r : repr s h o r -> wf s h.
Proof.
  intros (_ & Ho & Hr). split; eapply lookup_lt_Some; eassumption.
Qed.

Lemma constructor_wf (init : Entries) (h : Heap) :
  wf (fst (constructor init h)) (snd (constructor init h)).
Proof. eapply repr_wf, constructor_repr. Qed.

Lemma splice_wf f s h : wf s h -> wf s (snd (splice f s h)).
Proof.
  intros [Ho Hr]. unfold wf, splice, update. simpl.
  rewrite length_insert. split; assumption.
Qed.

Lemma get_repr f s h o r :
  repr s h o r -> get f s h = URLSearchParams.get f o.
Proof.
  intros (_ & Ho & _). unfold get. rewrite (deref_lookup _ _ _ Ho).
  reflexivity.
Qed.

Lemma splice_repr f s h o r :
  repr s h o r ->
  fst (splice f s h) = URLSearchParams.get f o /\
  repr s (snd (splice f s h)) o (URLSearchParams.delete f r).
Proof.
  intros (Hne & Ho & Hr).
  assert (Hrepr : repr s (update (remainder s) (URLSearchParams.delete f) h)
                    o (URLSearchParams.delete f r)).
  { unfold repr, update. split; [assumption|]. split.
    - rewrite list_lookup_insert_ne by auto. assumption.
    - rewrite list_lookup_insert_eq by (eapply lookup_lt_Some; eassumption).
      rewrite (deref_lookup _ _ _ Hr). reflexivity. }
  unfold splice. simpl. split; [|assumption].
  eapply get_repr. eassumption.
Qed.

Lemma splices_repr fs : forall s h o r,
  repr s h o r ->
  fst (splices fs s h) = map (fun f => URLSearchParams.get f o) fs /\
  repr s (snd (splices fs s h)) o
       (fold_left (fun acc f => URLSearchParams.delete f acc) fs r).
Proof.
  induction fs as [|f fs IH]; intros s h o r H; [split; auto|].
  destruct (splice_repr f s h o r H) as [Hv Hrepr].
  destruct (IH s _ o _ Hrepr) as [Hvs Hrepr'].
  cbn [splices fold_left map fst snd]. rewrite Hv, Hvs.
  split; [reflexivity|assumption].
Qed.

Lemma getRemainder_repr s h o r :
  repr s h o r ->
  deref (fst (getRemainder s h)) (snd (getRemainder s h)) = r /\
  repr s (snd (getRemainder s h)) o r.
Proof.
  intros (Hne & Ho & Hr). unfold getRemainder, new_URLSearchParams. simpl.
  rewrite deref_alloc_new, (deref_lookup _ _ _ Hr). split; [reflexivity|].
  unfold repr. split; [assumption|].
  split; (rewrite lookup_app_l by (eapply lookup_lt_Some; eassumption));
    assumption.
Qed.

Lemma splice_absent f s h o r :
  repr s h o r -> URLSearchParams.has f r = false -> snd (splice f s h) = h.
Proof.
  intros (Hne & Ho & Hr) Habs. unfold splice, update. simpl.
  rewrite (deref_lookup _ _ _ Hr), delete_absent by assumption.
  apply list_insert_id. assumption.
Qed.

Lemma has_fold_delete f fs : forall r,
  URLSearchParams.has f r = false ->
  URLSearchParams.has f
    (fold_left (fun acc g => URLSearchParams.delete g acc) fs r) = false.
Proof.
  induction fs as [|g fs IH]; intros r H; simpl; [assumption|].
  apply IH. apply has_delete_absent. assumption.
Qed.

End SpliceableFacts.

(** C1.  For every payload and fields A and B (distinct or not), the copy
    that getRemainder() returns after splice(A) and splice(B) holds exactly
    the pairs of the payload whose name is neither A nor B, in their order
    and with their values: A and B are gone and get(f) on the copy is the
    payload's get(f) for every other f.  Whatever splice calls are made,
    get(f) on the splicer stays the payload's get(f). *)
Theorem remainder_after_two_splices
    (h : Heap) (payload : Entries) (A B : string) :
  let s := fst (Spliceable.constructor payload h) in
  let h1 := snd (Spliceable.constructor payload h) in
  let h2 := snd (Spliceable.splice A s h1) in
  let h3 := snd (Spliceable.splice B s h2) in
  let rest := deref (fst (Spliceable.getRemainder s h3))
                    (snd (Spliceable.getRemainder s h3)) in
  rest = List.filter (fun kv => negb (String.eqb (fst kv) A)
                                && negb (String.eqb (fst kv) B)) payload
  /\ URLSearchParams.get A rest = None
  /\ URLSearchParams.get B rest = None
  /\ (forall f, f <> A -> f <> B ->
        URLSearchParams.get f rest = URLSearchParams.get f payload)
  /\ (forall fields f,
        Spliceable.get f s (snd (Spliceable.splices fields s h1))
        = URLSearchParams.get f payload).
Proof.
  intros s h1 h2 h3 rest.
  pose proof (constructor_repr payload h) as H1. fold s h1 in H1.
  destruct (splice_repr A s h1 _ _ H1) as [_ H2]. fold h2 in H2.
  destruct (splice_repr B s h2 _ _ H2) as [_ H3]. fold h3 in H3.
  destruct (getRemainder_repr s h3 _ _ H3) as [Hrest _]. fold rest in Hrest.
  rewrite Hrest. repeat split.
  - apply delete_delete_filter.
  - destruct (String.eqb_spec A B) as [->|Hne].
    + apply get_delete_same.
    + rewrite get_delete_other by auto. apply get_delete_same.
  - apply get_delete_same.
  - intros f HA HB. rewrite !get_delete_other by auto. reflexivity.
  - intros fields f.
    destruct (splices_repr fields s h1 _ _ H1) as [_ Hs].
    eapply get_repr. eassumption.
Qed.

(** C5 as stated fails: a field that the payload holds is returned again
    by the second splice, which reads the untouched original. *)
Lemma second_splice_returns_the_value_again :
  let s := fst (Spliceable.constructor [("billing-zip", "94043")] []) in
  let h1 := snd (Spliceable.constructor [("billing-zip", "94043")] []) in
  let h2 := snd (Spliceable.splice "billing-zip" s h1) in
  fst (Spliceable.splice "billing-zip" s h2) = Some "94043"
  /\ fst (Spliceable.splice "billing-zip" s h2) <> None
  /\ fst (Spliceable.splice "billing-zip" s h2) <> Some "".
Proof. repeat split; discriminate. Qed.

(** C5, amended.  For every payload and field F, whatever splice calls come
    before the first splice(F) and between it and the second one: the
    second splice(F) returns what the first one returned, which is the
    payload's get(F) (null only when the payload has no F); the second call
    leaves the store as it found it, so getRemainder() gives the same pairs
    after one call as after two. *)
Theorem second_splice_same_value_same_remainder
    (h : Heap) (payload : Entries) (before between : list string)
    (F : string) :
  let s := fst (Spliceable.constructor payload h) in
  let h1 := snd (Spliceable.constructor payload h) in
  let h2 := snd (Spliceable.splices before s h1) in
  let first := Spliceable.splice F s h2 in
  let h3 := snd (Spliceable.splices between s (snd first)) in
  let second := Spliceable.splice F s h3 in
  fst second = fst first
  /\ fst first = URLSearchParams.get F payload
  /\ snd second = h3
  /\ Spliceable.getRemainder s (snd second) = Spliceable.getRemainder s h3.
Proof.
  intros s h1 h2 first h3 second.
  pose proof (constructor_repr payload h) as H1. fold s h1 in H1.
  destruct (splices_repr before s h1 _ _ H1) as [_ H2]. fold h2 in H2.
  destruct (splice_repr F s h2 _ _ H2) as [Hv1 H2']. fold first in Hv1, H2'.
  destruct (splices_repr between s _ _ _ H2') as [_ H3]. fold h3 in H3.
  destruct (splice_repr F s h3 _ _ H3) as [Hv2 _]. fold second in Hv2.
  assert (Hsame : snd second = h3).
  { eapply splice_absent; [eassumption|].
    apply has_fold_delete, has_delete_same. }
  repeat split; [congruence|assumption|assumption|].
  rewrite Hsame. reflexivity.
Qed.

(** C10.  getRemainder() hands out a new object: for every splicer whose
    two objects are in the store, whatever is done to the returned copy
    (set, append, delete: any change of its pairs) leaves the original and
    the remainder of the splicer as they were, so get(f) and a later
    getRemainder() give what they gave before the change. *)
Theorem getRemainder_returns_fresh_copy
    (s : SpliceableUrlSearchParams) (h : Heap)
    (mutate : Entries -> Entries) (f : string) :
  Spliceable.wf s h ->
  let copy := fst (Spliceable.getRemainder s h) in
  let h1 := snd (Spliceable.getRemainder s h) in
  let h2 := update copy mutate h1 in
  copy <> original s /\ copy <> remainder s
  /\ deref (original s) h2 = deref (original s) h
  /\ deref (remainder s) h2 = deref (remainder s) h
  /\ Spliceable.get f s h2 = Spliceable.get f s h
  /\ deref (fst (Spliceable.getRemainder s h2))
           (snd (Spliceable.getRemainder s h2))
     = deref copy h1.
Proof.
  intros [Ho Hr] copy h1 h2.
  assert (Hco : copy <> original s) by (unfold copy; simpl; lia).
  assert (Hcr : copy <> remainder s) by (unfold copy; simpl; lia).
  assert (Eo : deref (original s) h2 = deref (original s) h).
  { unfold h2. rewrite deref_update_other by assumption.
    apply deref_alloc_old. assumption. }
  assert (Er : deref (remainder s) h2 = deref (remainder s) h).
  { unfold h2. rewrite deref_update_other by assumption.
    apply deref_alloc_old. assumption. }
  repeat split; try assumption.
  - unfold Spliceable.get. rewrite Eo. reflexivity.
  - unfold Spliceable.getRemainder, new_URLSearchParams. simpl.
    rewrite deref_alloc_new, Er. unfold copy, h1. simpl.
    rewrite deref_alloc_new. reflexivity.
Qed.

Lemma getRemainder_returns_fresh_copy_witness :
  let s := fst (Spliceable.constructor [("currency", "usd")] []) in
  let h := snd (Spliceable.constructor [("currency", "usd")] []) in
  let copy := fst (Spliceable.getRemainder s h) in
  let h2 := update copy (URLSearchParams.set "stripe-payment-token" "tok_1")
                   (snd (Spliceable.getRemainder s h)) in
  Spliceable.wf s h
  /\ deref copy h2 = [("currency", "usd"); ("stripe-payment-token", "tok_1")]
  /\ Spliceable.get "stripe-payment-token" s h2 = None
  /\ deref (fst (Spliceable.getRemainder s h2))
           (snd (Spliceable.getRemainder s h2)) = [("currency", "usd")].
Proof.
  assert (W : Spliceable.wf
                (fst (Spliceable.constructor [("currency", "usd")] []))
                (snd (Spliceable.constructor [("currency", "usd")] [])))
    by (split; simpl; lia).
  pose proof (getRemainder_returns_fresh_copy _ _
    (URLSearchParams.set "stripe-payment-token" "tok_1")
    "stripe-payment-token" W) as (_ & _ & _ & _ & Hget & Hrem).
  split; [exact W|]. split; [reflexivity|]. split.
  - rewrite Hget. reflexivity.
  - rewrite Hrem. reflexivity.
Defined.

(** * The monad *)

Section AsyncFacts.

Lemma bind_unfold {A B} (m : Async A) (k : A -> Async B) (w : World) :
  bind m k w =
  match m w with
  | (Normal a, w') => k a w'
  | (Throw v, w') => (Throw v, w')
  end.
Proof. reflexivity. Qed.

Lemma bind_emit {B} (e : Event) (k : unit -> Async B) (w : World) :
  bind (emit e) k w
  = k tt {| comp := comp w; heap := heap w; trace := trace w ++ [e] |}.
Proof. reflexivity. Qed.

Lemma bind_assign {B} (f : Signup -> Signup) (k : unit -> Async B) w :
  bind (assign f) k w
  = k tt {| comp := f (comp w); heap := heap w; trace := trace w |}.
Proof. reflexivity. Qed.

Lemma bind_this {B} (k : Signup -> Async B) (w : World) :
  bind this k w = k (comp w) w.
Proof. reflexivity. Qed.

Lemma bind_on_heap {A B} (f : Heap -> A * Heap) (k : A -> Async B) w :
  bind (on_heap f) k w
  = k (fst (f (heap w)))
      {| comp := comp w; heap := snd (f (heap w)); trace := trace w |}.
Proof. unfold bind, on_heap. destruct (f (heap w)). reflexivity. Qed.

(** The finalizer runs on every exit of the body and of the handler. *)
Lemma try_catch_finally_assign {A} (body : Async A) handler f w :
  exists w1,
    snd (try_catch_finally body handler (assign f) w)
    = {| comp := f (comp w1); heap := heap w1; trace := trace w1 |}.
Proof.
  unfold try_catch_finally.
  destruct (body w) as [[a|v] w'].
  - exists w'. reflexivity.
  - destruct (handler v w') as [r w1]. exists w1. reflexivity.
Qed.

(** Nothing escapes when the handler and the finalizer complete. *)
Lemma try_catch_finally_normal (body : Async unit) handler f w :
  (forall v w', fst (handler v w') = Normal tt) ->
  fst (try_catch_finally body handler (assign f) w) = Normal tt.
Proof.
  intros H. unfold try_catch_finally.
  destruct (body w) as [[[]|v] w']; [reflexivity|].
  specialize (H v w'). destruct (handler v w') as [r w1].
  simpl in *. assumption.
Qed.

End AsyncFacts.

(** C8.  Every submission attempt finishes with isLoading false, whatever
    Stripe and the endpoint answer, reject or throw, and no exception
    leaves the handler: the finalizer of submit assigns isLoading on every
    exit of the try block and of the catch block. *)
Theorem loading_cleared_after_every_attempt (env : Env) (c : Signup) :
  isLoading (comp (snd (submit_attempt env c))) = false
  /\ fst (submit_attempt env c) = Normal tt.
Proof.
  unfold submit_attempt, submit, enableInvalidStyles.
  rewrite !bind_emit, bind_assign, bind_this, bind_on_heap.
  split.
  - match goal with
    | |- context [try_catch_finally ?b ?h (assign ?f) ?w] =>
        destruct (try_catch_finally_assign b h f w) as [w1 ->]
    end.
    reflexivity.
  - apply try_catch_finally_normal.
    intros v w'. destruct (truthy v); reflexivity.
Qed.

(** * The outcomes of an attempt *)

(** Every attempt has one of the outcomes of [Outcome]: first for each
    state of the payment section, by a symbolic run. *)
Lemma outcome_linked (env : Env) (c : Signup) (token : PlaidToken) :
  plaidToken c = Some token -> Outcome env c (snd (submit_attempt env c)).
Proof. intros Htoken. outcome_by_run c env. Qed.

Lemma outcome_bank (env : Env) (c : Signup) :
  plaidToken c = None -> paymentMethod c = bank ->
  Outcome env c (snd (submit_attempt env c)).
Proof. intros Htoken Hmethod. outcome_by_run c env. Qed.

Lemma outcome_card (env : Env) (c : Signup) :
  plaidToken c = None -> paymentMethod c = card ->
  Outcome env c (snd (submit_attempt env c)).
Proof. intros Htoken Hmethod. outcome_by_run c env. Qed.

Lemma outcome_plaid (env : Env) (c : Signup) :
  plaidToken c = None -> paymentMethod c = plaid ->
  Outcome env c (snd (submit_attempt env c)).
Proof. intros Htoken Hmethod. outcome_by_run c env. Qed.

Lemma submit_summary (env : Env) (c : Signup) :
  Outcome env c (snd (submit_attempt env c)).
Proof.
  destruct (plaidToken c) as [token|] eqn:Htoken.
  - eapply outcome_linked. eassumption.
  - destruct (paymentMethod c) eqn:Hmethod.
    + apply outcome_bank; assumption.
    + apply outcome_card; assumption.
    + apply outcome_plaid; assumption.
Qed.

(** A sent body is the one body of the attempt. *)
Lemma posted_once (env : Env) (c : Signup) (body : Entries) :
  In body (posts (trace (snd (submit_attempt env c)))) ->
  posts (trace (snd (submit_attempt env c))) = [body].
Proof.
  intros Hin. pose proof (submit_summary env c) as S. unfold Outcome in S.
  destruct (posts (trace (snd (submit_attempt env c)))) as [|b [|b' rest]].
  - destruct Hin.
  - destruct Hin as [->|[]]. reflexivity.
  - destruct S.
Qed.

(** What a sent body is made of. *)
Lemma posted_body (env : Env) (c : Signup) (body : Entries) :
  In body (posts (trace (snd (submit_attempt env c)))) ->
  match plaidToken c with
  | Some token => body = entries c nonPaymentFields ++ plaidPairs token
  | None =>
      exists kind data token_id,
        createToken env kind data = TokenOk token_id
        /\ body = entries c nonPaymentFields ++ stripePair token_id
  end.
Proof.
  intros Hin. apply posted_once in Hin.
  pose proof (submit_summary env c) as S. unfold Outcome in S.
  rewrite Hin in S. destruct S as [S _].
  destruct (plaidToken c).
  - apply S.
  - destruct S as (kind & data & id & Hk & _ & Hb). eauto.
Qed.

Lemma get_nonPaymentFields (c : Signup) (tokens : Entries) (f : string) :
  In f nonPaymentFields ->
  URLSearchParams.get f (entries c nonPaymentFields ++ tokens)
  = Some (inputs c f).
Proof.
  intros Hf. vm_compute in Hf.
  repeat (destruct Hf as [<-|Hf]; [reflexivity|]). destruct Hf.
Qed.

(** C4.  Every body that submit sends holds the value of every control
    outside the payment section and exactly one token form: with a linked
    account, one plaid-public-token pair and one plaid-account-id pair with
    the stored values and no stripe-payment-token pair; without one, one
    stripe-payment-token pair, whose value is the id of a token that Stripe
    returned, and neither plaid pair. *)
Theorem body_carries_exactly_one_token_form
    (env : Env) (c : Signup) (body : Entries) :
  In body (posts (trace (snd (submit_attempt env c)))) ->
  (forall f, In f nonPaymentFields ->
     URLSearchParams.get f body = Some (inputs c f))
  /\ match plaidToken c with
     | Some token =>
         URLSearchParams.get "plaid-public-token" body
         = Some (public_token token)
         /\ URLSearchParams.get "plaid-account-id" body
            = Some (account_id token)
         /\ occurrences "plaid-public-token" body = 1
         /\ occurrences "plaid-account-id" body = 1
         /\ occurrences "stripe-payment-token" body = 0
     | None =>
         (exists kind data token_id,
            createToken env kind data = TokenOk token_id
            /\ URLSearchParams.get "stripe-payment-token" body
               = Some token_id)
         /\ occurrences "stripe-payment-token" body = 1
         /\ occurrences "plaid-public-token" body = 0
         /\ occurrences "plaid-account-id" body = 0
     end.
Proof.
  intros Hin. apply posted_body in Hin.
  destruct (plaidToken c) as [token|].
  - subst body. split; [intros f Hf; apply get_nonPaymentFields, Hf|].
    repeat split; reflexivity.
  - destruct Hin as (kind & data & id & Hk & ->).
    split; [intros f Hf; apply get_nonPaymentFields, Hf|].
    split; [exists kind, data, id; split; [exact Hk|reflexivity]|].
    repeat split; reflexivity.
Qed.

Lemma body_carries_exactly_one_token_form_witness :
  let env := sample_env (TokenOk "tok_1") (Response true (JsonBody None)) in
  let c := sample_signup card None in
  let body := entries c nonPaymentFields ++ stripePair "tok_1" in
  In body (posts (trace (snd (submit_attempt env c))))
  /\ occurrences "stripe-payment-token" body = 1
  /\ occurrences "plaid-public-token" body = 0
  /\ occurrences "plaid-account-id" body = 0.
Proof.
  intros env c body.
  assert (Hin : In body (posts (trace (snd (submit_attempt env c)))))
    by (vm_compute; left; reflexivity).
  refine (conj Hin _).
  exact (proj2 (proj2 (body_carries_exactly_one_token_form env c body Hin))).
Defined.

(** C6.  No body that submit sends holds a field of a method that is not
    the active one: with plaid or bank active none of the card fields, with
    card or plaid active none of the manual bank fields, whatever the
    element holds as the value of a control that is not rendered. *)
Theorem body_has_no_field_of_another_method
    (env : Env) (c : Signup) (body : Entries) (f : string) :
  In body (posts (trace (snd (submit_attempt env c)))) ->
  (paymentMethod c <> card -> In f cardFields ->
     URLSearchParams.has f body = false)
  /\ (paymentMethod c <> bank -> In f manualBankFields ->
        URLSearchParams.has f body = false).
Proof.
  intros Hin. apply posted_body in Hin.
  assert (Hout : forall tokens,
            (tokens = stripePair (snd (hd ("", "") tokens))
             \/ exists token, tokens = plaidPairs token) ->
            In f (cardFields ++ manualBankFields) ->
            URLSearchParams.has f (entries c nonPaymentFields ++ tokens)
            = false).
  { intros tokens Ht Hf. vm_compute in Hf.
    destruct Ht as [->|[token ->]];
      repeat (destruct Hf as [<-|Hf]; [reflexivity|]); destruct Hf. }
  assert (Hbody : forall g, In g (cardFields ++ manualBankFields) ->
            g = f -> URLSearchParams.has f body = false).
  { intros g Hg ->. destruct (plaidToken c) as [token|].
    - subst body. apply Hout; [right; eauto|assumption].
    - destruct Hin as (kind & data & id & _ & ->).
      apply Hout; [left; reflexivity|assumption]. }
  split; intros _ Hf; apply (Hbody f); auto using in_or_app.
Qed.

Lemma body_has_no_field_of_another_method_witness :
  let env := sample_env (TokenOk "btok_1") (Response true (JsonBody None)) in
  let c := sample_signup bank None in
  let body := entries c nonPaymentFields ++ stripePair "btok_1" in
  In body (posts (trace (snd (submit_attempt env c))))
  /\ paymentMethod c <> card
  /\ In "billing-zip" cardFields
  /\ URLSearchParams.has "billing-zip" body = false.
Proof.
  intros env c body.
  assert (Hin : In body (posts (trace (snd (submit_attempt env c)))))
    by (vm_compute; left; reflexivity).
  assert (Hm : paymentMethod c <> card) by discriminate.
  assert (Hf : In "billing-zip" cardFields) by (vm_compute; tauto).
  refine (conj Hin (conj Hm (conj Hf _))).
  exact (proj1 (body_has_no_field_of_another_method env c body
                  "billing-zip" Hin) Hm Hf).
Defined.

(** X30.  An attempt leaves isComplete true exactly when it was true
    before or the body it sent was answered with an ok status, and then
    nothing is marked invalid or alerted.  On a failure status whose JSON
    holds an error object, isComplete is left as it was and the error is
    what is logged first; when its param is the name of a control of the
    form, that control alone is marked invalid with the message and nothing
    is alerted; when the param is missing or empty, no control is marked
    and the message is alerted, unless it is empty (a falsy thrown value is
    not alerted).  A param that names no control of the form marks nothing:
    the TypeError of setInvalid is what is alerted. *)
Theorem complete_exactly_when_post_ok (env : Env) (c : Signup) :
  let w := snd (submit_attempt env c) in
  isComplete (comp w)
  = isComplete c || existsb (answered_ok env) (posts (trace w))
  /\ (existsb (answered_ok env) (posts (trace w)) = true ->
      invalidated (trace w) = [] /\ alerts (trace w) = [])
  /\ (forall body err,
        In body (posts (trace w)) ->
        fetch env body = Response false (JsonBody (Some err)) ->
        isComplete (comp w) = isComplete c
        /\ List.hd_error (logs (trace w))
           = Some (LogBackendError (Some err))
        /\ match BackendError.param err with
           | Some p =>
               if truthy (VString p) then
                 if namedItem p c then
                   invalidated (trace w) = [(p, BackendError.message err)]
                   /\ alerts (trace w) = []
                 else
                   invalidated (trace w) = []
                   /\ alerts (trace w) = [TypeError "input is null"]
               else
                 invalidated (trace w) = []
                 /\ alerts (trace w)
                    = alerted (VString (BackendError.message err))
           | None =>
               invalidated (trace w) = []
               /\ alerts (trace w)
                  = alerted (VString (BackendError.message err))
           end).
Proof.
  intros w. subst w.
  pose proof (submit_summary env c) as S. unfold Outcome in S.
  remember (submit_attempt env c) as r eqn:Hr. clear Hr.
  destruct (posts (trace (snd r))) as [|b [|b' rest]]; [| |destruct S].
  - destruct S as [S _]. simpl. rewrite orb_false_r.
    split; [exact S|]. split; [discriminate|]. intros body err [].
  - destruct S as [_ S]. unfold answered_ok, existsb. rewrite orb_false_r.
    destruct (fetch env b) as [e|[|] json] eqn:Hb.
    + rewrite orb_false_r. destruct S as (S1 & S2 & S3).
      split; [exact S1|]. split; [discriminate|].
      intros body err [<-|[]] H. congruence.
    + rewrite orb_true_r. destruct S as (S1 & S2 & S3).
      split; [exact S1|]. split; [auto|].
      intros body err [<-|[]] H. congruence.
    + rewrite orb_false_r.
      assert (S1 : isComplete (comp (snd r)) = isComplete c)
        by (destruct json as [e|[err|]]; apply S).
      split; [exact S1|]. split; [discriminate|].
      intros body err [<-|[]] H. rewrite Hb in H.
      injection H as ->. destruct S as (_ & L & S).
      split; [exact S1|]. split; [exact L|exact S].
Qed.

Lemma complete_exactly_when_post_ok_witness :
  let err := {| BackendError.param := Some "signature";
                BackendError.message := "Please sign" |} in
  let env := sample_env (TokenOk "tok_1")
                        (Response false (JsonBody (Some err))) in
  let c := sample_signup card None in
  let w := snd (submit_attempt env c) in
  let body := entries c nonPaymentFields ++ stripePair "tok_1" in
  In body (posts (trace w))
  /\ fetch env body = Response false (JsonBody (Some err))
  /\ isComplete (comp w) = false
  /\ invalidated (trace w) = [("signature", "Please sign")]
  /\ alerts (trace w) = [].
Proof.
  intros err env c w body.
  assert (Hin : In body (posts (trace w)))
    by (vm_compute; left; reflexivity).
  assert (Hb : fetch env body = Response false (JsonBody (Some err)))
    by reflexivity.
  destruct (proj2 (proj2 (complete_exactly_when_post_ok env c))
              body err Hin Hb) as (Hc & _ & Hi).
  exact (conj Hin (conj Hb (conj Hc Hi))).
Defined.

(** C9.  The code misses a case of the claim.  On the card form, with a
    token from Stripe, the endpoint answers the POST with a failure status
    and the error object whose param is stripe-payment-token and whose
    message is Invalid token.  The param is truthy and no control of the form
    has that name, so setInvalid calls setCustomValidity on the null that
    namedItem returns: no control is marked invalid, and what is alerted is
    that TypeError, not the message, which is only logged with the error.
    The element is left not complete and not loading. *)
Lemma param_of_no_control_alerts_TypeError :
  let err := {| BackendError.param := Some "stripe-payment-token";
                BackendError.message := "Invalid token" |} in
  let env := sample_env (TokenOk "tok_1")
                        (Response false (JsonBody (Some err))) in
  let c := sample_signup card None in
  let w := snd (submit_attempt env c) in
  namedItem "stripe-payment-token" c = false
  /\ posts (trace w) = [entries c nonPaymentFields ++ stripePair "tok_1"]
  /\ invalidated (trace w) = []
  /\ alerts (trace w) = [TypeError "input is null"]
  /\ alerts (trace w) <> [VString "Invalid token"]
  /\ logs (trace w)
     = [LogBackendError (Some err); LogValue (TypeError "input is null")]
  /\ isComplete (comp w) = false /\ isLoading (comp w) = false.
Proof. vm_compute. repeat split. discriminate. Qed.

(** With a linked account token the attempt does not depend on Stripe:
    neither the loading of the library nor createToken is consulted. *)
Lemma linked_attempt_ignores_stripe
    (env env' : Env) (c : Signup) (token : PlaidToken) :
  plaidToken c = Some token ->
  fetch env' = fetch env ->
  submit_attempt env' c = submit_attempt env c.
Proof.
  intros Htoken Hfetch.
  destruct c, env as [st ct ft], env' as [st' ct' ft'].
  cbn [plaidToken fetch] in *. subst.
  unfold submit_attempt.
  lazy -[case_ includes truthy deref update app length FormData
         URLSearchParams.get URLSearchParams.set URLSearchParams.delete].
  reflexivity.
Qed.

(** Metadata without an account: the callback throws before it assigns,
    and the element keeps the token it had. *)
Lemma onSuccess_without_account
    (public_token institution : string) (w0 : World) :
  onSuccess public_token
    {| PlaidMetadata.institution_name := institution;
       PlaidMetadata.accounts := [] |} w0
  = (Throw (TypeError "metadata.accounts[0] is undefined"), w0).
Proof. reflexivity. Qed.

(** The element after the success callback: the token is stored, and
    nothing else of the element, of the store or of the trace changes. *)
Lemma onSuccess_stores_the_token
    (public_token institution : string)
    (first : PlaidAccount.t) (others : list PlaidAccount.t) (w0 : World) :
  let r := onSuccess public_token
             {| PlaidMetadata.institution_name := institution;
                PlaidMetadata.accounts := first :: others |} w0 in
  fst r = Normal tt
  /\ plaidToken (comp (snd r))
     = Some {| public_token := public_token;
               account_name :=
                 String.append institution
                   (String.append " " (PlaidAccount.name first));
               account_id := PlaidAccount.id first |}
  /\ paymentMethod (comp (snd r)) = paymentMethod (comp w0)
  /\ inputs (comp (snd r)) = inputs (comp w0)
  /\ isLoading (comp (snd r)) = isLoading (comp w0)
  /\ isComplete (comp (snd r)) = isComplete (comp w0)
  /\ heap (snd r) = heap w0
  /\ trace (snd r) = trace w0.
Proof. repeat split. Qed.

(** An attempt with a linked account token calls no tokenization and sends
    one body, which ends with the token's pairs. *)
Lemma linked_attempt_sends_the_token
    (env : Env) (c : Signup) (token : PlaidToken) :
  plaidToken c = Some token ->
  tokenizations (trace (snd (submit_attempt env c))) = []
  /\ posts (trace (snd (submit_attempt env c)))
     = [entries c nonPaymentFields ++ plaidPairs token].
Proof.
  intros Htoken.
  pose proof (submit_summary env c) as S. unfold Outcome in S.
  remember (submit_attempt env c) as r eqn:Hr. clear Hr.
  rewrite Htoken in S.
  destruct (posts (trace (snd r))) as [|b [|b' rest]].
  - destruct S as [_ S]. discriminate.
  - destruct S as [[-> S] _]. split; [exact S|reflexivity].
  - destruct S.
Qed.

(** C3.  After the success callback of the bank link, the element holds a
    linked account token made of the public token as given, the id of the
    first account of the metadata and the institution name followed by a
    space and that account's name; the callback completes normally and
    changes nothing else.  An attempt made with a linked account token runs
    neither tokenization strategy: it never calls stripe.createToken, it is
    the same attempt whatever Stripe would do, and it sends one body, the
    values of the controls outside the payment section followed by the
    stored public token and account id.  So does the attempt made on the
    element as the callback left it: its body ends with the public token
    that Plaid gave and the id of the first account. *)
Theorem linked_account_token_skips_tokenization
    (env : Env) (c : Signup) (token : PlaidToken) (w0 : World)
    (public_token : string) (institution : string)
    (first : PlaidAccount.t) (others : list PlaidAccount.t) :
  plaidToken c = Some token ->
  let callback :=
    onSuccess public_token
      {| PlaidMetadata.institution_name := institution;
         PlaidMetadata.accounts := first :: others |} w0 in
  let linked := comp (snd callback) in
  (fst callback = Normal tt
   /\ plaidToken linked
      = Some {| public_token := public_token;
                account_name :=
                  String.append institution
                    (String.append " " (PlaidAccount.name first));
                account_id := PlaidAccount.id first |}
   /\ paymentMethod linked = paymentMethod (comp w0)
   /\ inputs linked = inputs (comp w0)
   /\ heap (snd callback) = heap w0
   /\ trace (snd callback) = trace w0)
  /\ tokenizations (trace (snd (submit_attempt env c))) = []
  /\ (forall env', fetch env' = fetch env ->
        submit_attempt env' c = submit_attempt env c)
  /\ posts (trace (snd (submit_attempt env c)))
     = [entries c nonPaymentFields ++ plaidPairs token]
  /\ tokenizations (trace (snd (submit_attempt env linked))) = []
  /\ posts (trace (snd (submit_attempt env linked)))
     = [entries (comp w0) nonPaymentFields
        ++ [ ("plaid-public-token", public_token);
             ("plaid-account-id", PlaidAccount.id first) ]].
Proof.
  intros Htoken callback linked.
  destruct (onSuccess_stores_the_token public_token institution first others
              w0) as (Hfst & Hstored & Hmethod & Hinputs & _ & _ & Hheap
                      & Htrace).
  fold callback in Hfst, Hstored, Hmethod, Hinputs, Hheap, Htrace.
  fold linked in Hstored, Hmethod, Hinputs.
  split; [repeat split; assumption|].
  destruct (linked_attempt_sends_the_token env c token Htoken)
    as [Hnone Hposts].
  destruct (linked_attempt_sends_the_token env linked _ Hstored)
    as [Hnone' Hposts'].
  refine (conj Hnone (conj _ (conj Hposts (conj Hnone' _)))).
  - intros env' Hfetch.
    eapply linked_attempt_ignores_stripe; eassumption.
  - rewrite Hposts'. unfold entries. rewrite Hinputs. reflexivity.
Qed.

Lemma linked_account_token_skips_tokenization_witness :
  let c := sample_signup plaid (Some sample_token) in
  let env := sample_env (TokenOk "tok_1") (Response true (JsonBody None)) in
  let w0 := {| comp := sample_signup plaid None; heap := []; trace := [] |} in
  let first := {| PlaidAccount.name := "Checking";
                  PlaidAccount.id := "acc-1" |} in
  let callback :=
    onSuccess "public-token-1"
      {| PlaidMetadata.institution_name := "Bank";
         PlaidMetadata.accounts := [first] |} w0 in
  plaidToken c = Some sample_token
  /\ plaidToken (comp w0) = None
  /\ plaidToken (comp (snd callback))
     = Some {| public_token := "public-token-1";
               account_name := "Bank Checking";
               account_id := "acc-1" |}
  /\ tokenizations (trace (snd (submit_attempt env c))) = []
  /\ posts (trace (snd (submit_attempt env c)))
     = [entries c nonPaymentFields ++ plaidPairs sample_token]
  /\ posts (trace (snd (submit_attempt env (comp (snd callback)))))
     = [entries (comp w0) nonPaymentFields
        ++ [ ("plaid-public-token", "public-token-1");
             ("plaid-account-id", "acc-1") ]].
Proof.
  intros c env w0 first callback.
  destruct (linked_account_token_skips_tokenization env c sample_token w0
              "public-token-1" "Bank" first [] eq_refl)
    as ((_ & Hstored & _) & Hnone & _ & Hposts & _ & Hposts').
  exact (conj eq_refl (conj eq_refl (conj Hstored (conj Hnone
           (conj Hposts Hposts'))))).
Defined.

(** C2.  When the strategy of the active method (card or bank, no linked
    account) gets a failure from Stripe, the attempt sends nothing.  For
    a parameter of the strategy's known set, the one control it stands for
    is marked invalid with Stripe's message, nothing is alerted and the
    strategy rejects with the empty string.  For any other parameter, or
    none, no control is marked and the strategy rejects with Stripe's
    message, which submit alerts unless it is empty. *)
Theorem tokenization_failure_by_parameter
    (env : Env) (c : Signup) (kind : TokenKind)
    (param : option string) (message : string) :
  plaidToken c = None ->
  paymentMethod c = method_of kind ->
  stripe env = StripeLoaded ->
  (forall data, createToken env kind data = TokenError param message) ->
  let w := snd (submit_attempt env c) in
  let rejection :=
    fst (strategy env kind (fst (entering_try c)) (snd (entering_try c))) in
  posts (trace w) = []
  /\ tokenizations (trace w) = [kind]
  /\ match field_of_param param (knownParams kind) with
     | Some field =>
         invalidated (trace w) = [(field, message)]
         /\ alerts (trace w) = []
         /\ rejection = Throw (VString "")
     | None =>
         invalidated (trace w) = []
         /\ alerts (trace w) = alerted (VString message)
         /\ rejection = Throw (VString message)
     end.
Proof.
  intros Htoken Hmethod Hstripe Hfail w rejection. subst w rejection.
  remember (submit_attempt env c) as r eqn:Hr.
  remember (strategy env kind (fst (entering_try c)) (snd (entering_try c)))
    as s eqn:Hs.
  destruct c as [m l done tok inp], env as [st ct ft].
  cbn [plaidToken paymentMethod stripe createToken] in *. subst tok m st.
  unfold submit_attempt in Hr.
  unfold alerted. destruct (truthy (VString message)) eqn:T.
  all: destruct kind; cbn [method_of knownParams field_of_param strategy] in *.
  all: repeat match goal with
       | |- context [if case_ ?p ?k then _ else _] =>
           destruct (case_ p k) eqn:?
       end.
  all: repeat known_step Hr; repeat known_step Hs.
  all: vm_compute in Hr; vm_compute in Hs; subst r s.
  all: repeat split; reflexivity.
Qed.

Lemma tokenization_failure_by_parameter_witness :
  let env := sample_env (TokenError (Some "card[address_zip]") "Bad ZIP")
                        (Response true (JsonBody None)) in
  let c := sample_signup card None in
  let w := snd (submit_attempt env c) in
  posts (trace w) = []
  /\ invalidated (trace w) = [("billing-zip", "Bad ZIP")]
  /\ alerts (trace w) = [].
Proof.
  intros env c w.
  destruct (tokenization_failure_by_parameter env c CardElement
              (Some "card[address_zip]") "Bad ZIP"
              eq_refl eq_refl eq_refl (fun _ => eq_refl))
    as (Hposts & _ & Hinvalid & Halerts & _).
  exact (conj Hposts (conj Hinvalid Halerts)).
Defined.

(** The same failure parameter outside the known set: the message is
    alerted and no control is marked. *)
Lemma unknown_parameter_is_alerted :
  let env := sample_env (TokenError (Some "card[number]") "Bad number")
                        (Response true (JsonBody None)) in
  let w := snd (submit_attempt env (sample_signup card None)) in
  posts (trace w) = [] /\ invalidated (trace w) = []
  /\ alerts (trace w) = [VString "Bad number"].
Proof. vm_compute. repeat split. Qed.

(** With the plaid method active and no linked account, submit runs the
    card strategy; its controls are not rendered, so a failure naming one
    of them ends in the TypeError of setInvalid, which is alerted. *)
Lemma plaid_without_token_runs_card_strategy :
  let env := sample_env (TokenError (Some "card[name]") "No name")
                        (Response true (JsonBody None)) in
  let w := snd (submit_attempt env (sample_signup plaid None)) in
  tokenizations (trace w) = [CardElement]
  /\ invalidated (trace w) = []
  /\ alerts (trace w) = [TypeError "input is null"]
  /\ isLoading (comp w) = false.
Proof. vm_compute. repeat split. Qed.

(** * Numbers and the dues display *)

(** Checks of the model of Number against values that JavaScript gives. *)
Example Number_of_numeric_strings :
  map (fun s => NumberToString.toString (Number_ (Some s)))
      [ "250000"; ""; "  12  "; "1e3"; "0x1F"; "-0"; "0.1"; "1e21";
        "123.456"; "9007199254740993" ]
  = [ "250000"; "0"; "12"; "1000"; "31"; "0"; "0.1"; "1e+21";
      "123.456"; "9007199254740992" ].
Proof. vm_compute. reflexivity. Qed.

Example Number_of_other_strings :
  map (fun s => Number.isNaN (Number_ (Some s)))
      [ "abc"; "12px"; "1,000"; "."; "1e"; "- 1"; "infinity"; "$5" ]
  = [ true; true; true; true; true; true; true; true ].
Proof. vm_compute. reflexivity. Qed.

Example Math_floor_examples :
  map (fun s => NumberToString.toString (Number.floor (Number_ (Some s))))
      [ "1.5"; "-1.5"; "-0.5"; "0.5"; "2.9999999999999996"; "-Infinity" ]
  = [ "1"; "-2"; "-1"; "0"; "2"; "-Infinity" ].
Proof. vm_compute. reflexivity. Qed.

(** What the display gives outside the three cases of the property. *)
Example formattedDues_other_values :
  map (fun s => formattedDues (Some s))
      [ ""; "1199"; "1200"; "2399.99"; "104000"; "-1"; "1e400" ]
  = [ "$0"; "$0"; "$1"; "$1"; "$86"; "$-1"; "$Infinity" ].
Proof. vm_compute. reflexivity. Qed.

Lemma formattedDues_NaN (value : option string) :
  Number.isNaN (Number_ value) = true -> formattedDues value = "$0".
Proof. intros H. unfold formattedDues. rewrite H. reflexivity. Qed.

Lemma formattedDues_number (value : option string) :
  Number.isNaN (Number_ value) = false ->
  formattedDues value
  = String.append "$"
      (NumberToString.toString
         (Number.floor
            (Number.div
               (Number.div (Number.floor (Number_ value)) (Number.of_Z 100))
               (Number.of_Z 12)))).
Proof. intros H. unfold formattedDues. rewrite H. reflexivity. Qed.

(** C7.  The dues shown are "$" followed by
    floor(floor(Number(value)) / 100 / 12) in JavaScript's numbers, for
    every value of the compensation control that Number does not turn into
    NaN: "$208" for 250000 and "$0" for 0.  A value that is not numeric, or
    no control at all, gives "$0".  Nothing is stored: what render shows
    after the control takes a value is the dues of that value. *)
Theorem dues_are_recomputed_from_compensation :
  formattedDues (Some "250000") = "$208"
  /\ formattedDues (Some "0") = "$0"
  /\ formattedDues (Some "not a number") = "$0"
  /\ formattedDues None = "$0"
  /\ (forall value, Number.isNaN (Number_ value) = true ->
        formattedDues value = "$0")
  /\ (forall value, Number.isNaN (Number_ value) = false ->
        formattedDues value
        = String.append "$"
            (NumberToString.toString
               (Number.floor
                  (Number.div
                     (Number.div (Number.floor (Number_ value))
                                 (Number.of_Z 100))
                     (Number.of_Z 12)))))
  /\ (forall c value,
        render_dues (set_input "total-compensation" value c)
        = formattedDues (Some value)).
Proof.
  split; [vm_compute; reflexivity|].
  split; [vm_compute; reflexivity|].
  split; [apply formattedDues_NaN; vm_compute; reflexivity|].
  split; [apply formattedDues_NaN; reflexivity|].
  split; [exact formattedDues_NaN|].
  split; [exact formattedDues_number|].
  intros c value. reflexivity.
Qed.

Lemma dues_are_recomputed_from_compensation_witness :
  Number.isNaN (Number_ (Some "12 dollars")) = true
  /\ formattedDues (Some "12 dollars") = "$0"
  /\ Number.isNaN (Number_ (Some "104000")) = false
  /\ formattedDues (Some "104000") = "$86".
Proof.
  assert (H1 : Number.isNaN (Number_ (Some "12 dollars")) = true)
    by (vm_compute; reflexivity).
  assert (H2 : Number.isNaN (Number_ (Some "104000")) = false)
    by (vm_compute; reflexivity).
  pose proof dues_are_recomputed_from_compensation
    as (_ & _ & _ & _ & Hnan & Hnum & _).
  refine (conj H1 (conj (Hnan _ H1) (conj H2 _))).
  rewrite (Hnum _ H2). vm_compute. reflexivity.
Defined.

(** * More of the splicer *)

Section SplicesFacts.
Import URLSearchParams.

Lemma fold_delete_filter (fields : list string) : forall r : Entries,
  fold_left (fun acc f => delete f acc) fields r
  = List.filter (fun kv => negb (includes fields (fst kv))) r.
Proof.
  induction fields as [|f fields IH]; intros r; cbn [fold_left].
  - induction r as [|kv r IHr]; [reflexivity|].
    simpl. f_equal. exact IHr.
  - rewrite IH, delete_filter.
    induction r as [|[k v] r IHr]; [reflexivity|].
    cbn [List.filter fst].
    change (includes (f :: fields) k)
      with (String.eqb k f || includes fields k).
    destruct (String.eqb k f); cbn [negb orb List.filter fst]; [exact IHr|].
    destruct (includes fields k); cbn [negb]; rewrite IHr; reflexivity.
Qed.

Lemma includes_In (fields : list string) (f : string) :
  includes fields f = true <-> In f fields.
Proof.
  unfold includes. rewrite existsb_exists. split.
  - intros (x & Hx & E). apply String.eqb_eq in E. subst. assumption.
  - intros H. exists f. split; [assumption|apply String.eqb_refl].
Qed.

Lemma includes_same (fields fields' : list string) :
  (forall f, In f fields <-> In f fields') ->
  forall f, includes fields f = includes fields' f.
Proof.
  intros H f.
  destruct (includes fields f) eqn:E, (includes fields' f) eqn:E';
    try reflexivity.
  - apply includes_In, H, includes_In in E. congruence.
  - apply includes_In, H, includes_In in E'. congruence.
Qed.

Lemma get_absent name l : has name l = false -> get name l = None.
Proof.
  induction l as [|[k v] l IH]; simpl; [reflexivity|].
  intros H. apply orb_false_elim in H as [Hk Hl].
  rewrite Hk. auto.
Qed.

Lemma has_get name l : has name l = true <-> get name l <> None.
Proof.
  induction l as [|[k v] l IH]; simpl.
  - split; [discriminate|congruence].
  - destruct (String.eqb k name); simpl; [split; [discriminate|reflexivity]|].
    exact IH.
Qed.

Lemma has_In name l : has name l = true <-> exists v, In (name, v) l.
Proof.
  induction l as [|[k v] l IH]; simpl.
  - split; [discriminate|intros [v []]].
  - rewrite orb_true_iff, IH. split.
    + intros [E|[v' H]]; [apply String.eqb_eq in E; subst; eauto|eauto].
    + intros [v' [E|H]]; [injection E as -> ->; left; apply String.eqb_refl|].
      right. eauto.
Qed.

End SplicesFacts.

Lemma remainder_of_splices
    (h : Heap) (payload : Entries) (fields : list string) :
  let s := fst (Spliceable.constructor payload h) in
  let h1 := snd (Spliceable.constructor payload h) in
  let run := Spliceable.splices fields s h1 in
  fst run = map (fun f => URLSearchParams.get f payload) fields
  /\ deref (fst (Spliceable.getRemainder s (snd run)))
           (snd (Spliceable.getRemainder s (snd run)))
     = List.filter (fun kv => negb (includes fields (fst kv))) payload.
Proof.
  intros s h1 run.
  pose proof (constructor_repr payload h) as H1. fold s h1 in H1.
  destruct (splices_repr fields s h1 _ _ H1) as [Hv H2]. fold run in Hv, H2.
  destruct (getRemainder_repr s _ _ _ H2) as [Hrest _].
  rewrite fold_delete_filter in Hrest. split; assumption.
Qed.

(** X1.  For every payload and every run of splice calls, each call returns
    the payload's first value of its field (null when it has none), and the
    copy that getRemainder() returns afterwards holds exactly the pairs of
    the payload whose name was not spliced, in their order and with their
    values: no spliced name is left, get(f) of any other name is the
    payload's, and with no splice at all the copy is the whole payload. *)
Theorem remainder_after_any_splices
    (h : Heap) (payload : Entries) (fields : list string) :
  let s := fst (Spliceable.constructor payload h) in
  let h1 := snd (Spliceable.constructor payload h) in
  let run := Spliceable.splices fields s h1 in
  let rest := deref (fst (Spliceable.getRemainder s (snd run)))
                    (snd (Spliceable.getRemainder s (snd run))) in
  fst run = map (fun f => URLSearchParams.get f payload) fields
  /\ rest = List.filter (fun kv => negb (includes fields (fst kv))) payload
  /\ (forall f, In f fields -> URLSearchParams.has f rest = false)
  /\ (forall f, ~ In f fields ->
        URLSearchParams.get f rest = URLSearchParams.get f payload)
  /\ (fields = [] -> rest = payload).
Proof.
  intros s h1 run rest.
  destruct (remainder_of_splices h payload fields) as [Hv Hrest].
  fold s h1 run rest in Hv, Hrest.
  split; [exact Hv|]. split; [exact Hrest|].
  rewrite Hrest. clear. split; [|split].
  - intros f Hf. apply includes_In in Hf.
    induction payload as [|[k v] l IH]; [reflexivity|].
    cbn [List.filter fst].
    destruct (includes fields k) eqn:E; cbn [negb]; [exact IH|].
    cbn [URLSearchParams.has]. rewrite IH, orb_false_r.
    destruct (String.eqb_spec k f) as [->|]; congruence.
  - intros f Hf.
    induction payload as [|[k v] l IH]; [reflexivity|].
    cbn [List.filter fst URLSearchParams.get].
    destruct (String.eqb_spec k f) as [->|Hne].
    + destruct (includes fields f) eqn:E.
      * apply includes_In in E. contradiction.
      * cbn. rewrite String.eqb_refl. reflexivity.
    + destruct (includes fields k); cbn [negb]; [exact IH|].
      cbn. destruct (String.eqb_spec k f); [contradiction|exact IH].
  - intros ->. induction payload as [|kv l IH]; [reflexivity|].
    simpl. f_equal. exact IH.
Qed.

(** X2.  The remainder depends on which fields were spliced, not on the
    order of the calls nor on how often a field was spliced: two runs of
    splice calls over the same set of names leave the same remainder. *)
Theorem remainder_ignores_order_and_repetition
    (h : Heap) (payload : Entries) (fields fields' : list string) :
  (forall f, In f fields <-> In f fields') ->
  let s := fst (Spliceable.constructor payload h) in
  let h1 := snd (Spliceable.constructor payload h) in
  let h2 := snd (Spliceable.splices fields s h1) in
  let h2' := snd (Spliceable.splices fields' s h1) in
  deref (fst (Spliceable.getRemainder s h2)) (snd (Spliceable.getRemainder s h2))
  = deref (fst (Spliceable.getRemainder s h2'))
          (snd (Spliceable.getRemainder s h2')).
Proof.
  intros Hsame s h1 h2 h2'.
  destruct (remainder_of_splices h payload fields) as [_ H].
  destruct (remainder_of_splices h payload fields') as [_ H'].
  fold s h1 h2 in H. fold s h1 h2' in H'. rewrite H, H'. clear H H'.
  induction payload as [|[k v] l IH]; [reflexivity|].
  cbn [List.filter fst]. rewrite (includes_same _ _ Hsame k), IH.
  reflexivity.
Qed.

Lemma remainder_ignores_order_and_repetition_witness :
  let payload := [("a", "1"); ("b", "2"); ("c", "3"); ("a", "4")] in
  let s := fst (Spliceable.constructor payload []) in
  let h1 := snd (Spliceable.constructor payload []) in
  let h2 := snd (Spliceable.splices ["a"; "b"] s h1) in
  let h2' := snd (Spliceable.splices ["b"; "a"; "b"] s h1) in
  (forall f, In f ["a"; "b"] <-> In f ["b"; "a"; "b"])
  /\ deref (fst (Spliceable.getRemainder s h2))
           (snd (Spliceable.getRemainder s h2)) = [("c", "3")]
  /\ deref (fst (Spliceable.getRemainder s h2'))
           (snd (Spliceable.getRemainder s h2')) = [("c", "3")].
Proof.
  intros payload s h1 h2 h2'.
  assert (Hsame : forall f, In f ["a"; "b"] <-> In f ["b"; "a"; "b"])
    by (intros f; simpl; tauto).
  pose proof (remainder_ignores_order_and_repetition [] payload
                ["a"; "b"] ["b"; "a"; "b"] Hsame) as H.
  split; [exact Hsame|]. split; [reflexivity|].
  etransitivity; [symmetry; exact H|reflexivity].
Defined.

(** X3.  splice(F) of a field that the payload does not hold returns null and
    leaves the store as it is, whatever was spliced before. *)
Theorem splice_of_a_missing_field
    (h : Heap) (payload : Entries) (before : list string) (F : string) :
  URLSearchParams.has F payload = false ->
  let s := fst (Spliceable.constructor payload h) in
  let h1 := snd (Spliceable.constructor payload h) in
  let h2 := snd (Spliceable.splices before s h1) in
  Spliceable.splice F s h2 = (None, h2).
Proof.
  intros Habs s h1 h2.
  pose proof (constructor_repr payload h) as H1. fold s h1 in H1.
  destruct (splices_repr before s h1 _ _ H1) as [_ H2]. fold h2 in H2.
  destruct (splice_repr F s h2 _ _ H2) as [Hv _].
  rewrite (surjective_pairing (Spliceable.splice F s h2)).
  f_equal.
  - rewrite Hv. apply get_absent. assumption.
  - eapply splice_absent; [eassumption|].
    apply has_fold_delete. assumption.
Qed.

Lemma splice_of_a_missing_field_witness :
  let payload := [("currency", "usd")] in
  let s := fst (Spliceable.constructor payload []) in
  let h1 := snd (Spliceable.constructor payload []) in
  URLSearchParams.has "billing-zip" payload = false
  /\ Spliceable.splice "billing-zip" s h1 = (None, h1).
Proof.
  intros payload s h1.
  split; [reflexivity|].
  exact (splice_of_a_missing_field [] payload [] "billing-zip" eq_refl).
Defined.

(** * What an attempt asks of Stripe and shows of a failure *)

(** The run of a whole attempt, split at every question as for its
    outcome, shows its conduct. *)
Ltac conduct_leaf :=
  use_answers; unfold alerted; use_answers;
  repeat first [ reflexivity | split | eassumption ].

Ltac conduct_by_run c env :=
  unfold Conduct, chosen_kind; destruct c, env;
  cbn [plaidToken paymentMethod paymentMethod_is_bank stripe createToken]
    in *; subst;
  match goal with
  | |- context [submit_attempt ?e ?s] =>
      let r := fresh "r" in
      remember (submit_attempt e s) as r;
      match goal with
      | H : r = submit_attempt e s |- _ =>
          unfold submit_attempt in H;
          control_in H; repeat step H;
          vm_compute in H; subst r
      end
  end;
  repeat match goal with H : _ = _ |- _ => progress run_in H end;
  run; conduct_leaf.

Lemma conduct_linked (env : Env) (c : Signup) (token : PlaidToken) :
  plaidToken c = Some token -> Conduct env c (snd (submit_attempt env c)).
Proof. intros Htoken. conduct_by_run c env. Qed.

Lemma conduct_bank (env : Env) (c : Signup) :
  plaidToken c = None -> paymentMethod c = bank ->
  Conduct env c (snd (submit_attempt env c)).
Proof. intros Htoken Hmethod. conduct_by_run c env. Qed.

Lemma conduct_card (env : Env) (c : Signup) :
  plaidToken c = None -> paymentMethod c = card ->
  Conduct env c (snd (submit_attempt env c)).
Proof. intros Htoken Hmethod. conduct_by_run c env. Qed.

Lemma conduct_plaid (env : Env) (c : Signup) :
  plaidToken c = None -> paymentMethod c = plaid ->
  Conduct env c (snd (submit_attempt env c)).
Proof. intros Htoken Hmethod. conduct_by_run c env. Qed.

Lemma submit_conduct (env : Env) (c : Signup) :
  Conduct env c (snd (submit_attempt env c)).
Proof.
  destruct (plaidToken c) as [token|] eqn:Htoken.
  - eapply conduct_linked. eassumption.
  - destruct (paymentMethod c) eqn:Hmethod.
    + apply conduct_bank; assumption.
    + apply conduct_card; assumption.
    + apply conduct_plaid; assumption.
Qed.

Section FormFacts.

Lemma get_entries (c : Signup) (fields : list string) (f : string) :
  URLSearchParams.get f (entries c fields)
  = if includes fields f then Some (inputs c f) else None.
Proof.
  unfold includes.
  induction fields as [|g fields IH]; [reflexivity|].
  cbn [entries map URLSearchParams.get existsb].
  rewrite (String.eqb_sym f g).
  destruct (String.eqb_spec g f) as [->|]; [reflexivity|exact IH].
Qed.

Lemma has_entries (c : Signup) (fields : list string) (f : string) :
  URLSearchParams.has f (entries c fields) = includes fields f.
Proof.
  unfold includes.
  induction fields as [|g fields IH]; [reflexivity|].
  cbn [entries map URLSearchParams.has existsb].
  rewrite (String.eqb_sym f g), <- IH. reflexivity.
Qed.

Lemma map_fst_entries (c : Signup) (fields : list string) :
  map fst (entries c fields) = fields.
Proof.
  induction fields as [|g fields IH]; [reflexivity|].
  cbn [entries map fst]. f_equal. exact IH.
Qed.

Lemma distinct_NoDup (names : list string) :
  distinct names = true -> NoDup names.
Proof.
  induction names as [|name rest IH]; intros H; [constructor|].
  cbn [distinct] in H. apply andb_true_iff in H as [Hn Hr].
  constructor; [|auto].
  intros Hin. apply list_elem_of_In, includes_In in Hin.
  rewrite Hin in Hn. discriminate.
Qed.

Lemma render_distinct (c : Signup) : distinct (render c) = true.
Proof.
  unfold render, paymentTemplate, paymentMethodTemplate,
    connectedPlaidTemplate.
  destruct (plaidToken c); [|destruct (paymentMethod c)];
    vm_compute; reflexivity.
Qed.

End FormFacts.

(** X4.  The form that render() shows has no two controls of the same name,
    whatever the method and the linked account, so namedItem never finds
    more than one control; and no control has the name of a pair that
    submit sets on the body (stripe-payment-token, plaid-public-token,
    plaid-account-id). *)
Theorem no_two_rendered_controls_share_a_name (c : Signup) :
  NoDup (render c)
  /\ (forall f, In f [ "stripe-payment-token"; "plaid-public-token";
                        "plaid-account-id" ] ->
       namedItem f c = false).
Proof.
  split; [apply distinct_NoDup, render_distinct|].
  intros f Hf.
  unfold namedItem, render, paymentTemplate, paymentMethodTemplate,
    connectedPlaidTemplate.
  destruct (plaidToken c); [|destruct (paymentMethod c)];
    repeat (destruct Hf as [<-|Hf]; [vm_compute; reflexivity|]);
    destruct Hf.
Qed.

(** X5.  The names of every body that submit sends are the names of the
    controls outside the payment section, in document order, followed by
    the names of the token pairs (stripe-payment-token, or
    plaid-public-token and plaid-account-id): no name occurs twice, and no
    control of the bank or of the card template is sent, not even those of
    the active method. *)
Theorem body_names_are_the_other_fields_and_the_token
    (env : Env) (c : Signup) (body : Entries) :
  In body (posts (trace (snd (submit_attempt env c)))) ->
  map fst body = nonPaymentFields ++ tokenNames c
  /\ NoDup (map fst body)
  /\ (forall f, In f paymentFields -> URLSearchParams.has f body = false).
Proof.
  intros Hin. apply posted_body in Hin.
  assert (Hnames : map fst body = nonPaymentFields ++ tokenNames c).
  { unfold tokenNames. destruct (plaidToken c) as [token|].
    - subst body. rewrite map_app, map_fst_entries. reflexivity.
    - destruct Hin as (kind & data & id & _ & ->).
      rewrite map_app, map_fst_entries. reflexivity. }
  split; [exact Hnames|]. split.
  - rewrite Hnames. apply distinct_NoDup. unfold tokenNames.
    destruct (plaidToken c); vm_compute; reflexivity.
  - intros f Hf. vm_compute in Hf.
    destruct (plaidToken c) as [token|].
    + subst body.
      repeat (destruct Hf as [<-|Hf]; [reflexivity|]). destruct Hf.
    + destruct Hin as (kind & data & id & _ & ->).
      repeat (destruct Hf as [<-|Hf]; [reflexivity|]). destruct Hf.
Qed.

Lemma body_names_are_the_other_fields_and_the_token_witness :
  let env := sample_env (TokenOk "tok_1") (Response true (JsonBody None)) in
  let c := sample_signup card None in
  let body := entries c nonPaymentFields ++ stripePair "tok_1" in
  In body (posts (trace (snd (submit_attempt env c))))
  /\ In "card-holder-name" paymentFields
  /\ URLSearchParams.has "card-holder-name" body = false.
Proof.
  intros env c body.
  assert (Hin : In body (posts (trace (snd (submit_attempt env c)))))
    by (vm_compute; left; reflexivity).
  assert (Hf : In "card-holder-name" paymentFields) by (vm_compute; tauto).
  refine (conj Hin (conj Hf _)).
  exact (proj2 (proj2 (body_names_are_the_other_fields_and_the_token
                         env c body Hin)) "card-holder-name" Hf).
Defined.

(** X6.  When the POST is rejected, or answered with a failure status whose
    JSON cannot be read, isComplete is left as it was, no control is marked
    and the rejection is alerted unless it is falsy.  A failure status whose
    JSON has no error object ends in the TypeError of reading error.param,
    which is what is alerted. *)
Theorem failure_without_an_error_object
    (env : Env) (c : Signup) (body : Entries) :
  In body (posts (trace (snd (submit_attempt env c)))) ->
  let w := snd (submit_attempt env c) in
  (forall e,
     fetch env body = FetchRejected e
     \/ fetch env body = Response false (JsonRejected e) ->
     isComplete (comp w) = isComplete c
     /\ invalidated (trace w) = [] /\ alerts (trace w) = alerted e)
  /\ (fetch env body = Response false (JsonBody None) ->
      isComplete (comp w) = isComplete c
      /\ invalidated (trace w) = []
      /\ alerts (trace w) = [TypeError "error is undefined"]).
Proof.
  intros Hin w. subst w. apply posted_once in Hin.
  pose proof (submit_summary env c) as S. unfold Outcome in S.
  remember (submit_attempt env c) as r eqn:Hr. clear Hr.
  rewrite Hin in S. destruct S as [_ S].
  split.
  - intros e [H|H]; rewrite H in S; exact S.
  - intros H. rewrite H in S. exact S.
Qed.

Lemma failure_without_an_error_object_witness :
  let env := sample_env (TokenOk "tok_1")
                        (FetchRejected (TypeError "Failed to fetch")) in
  let c := sample_signup card None in
  let w := snd (submit_attempt env c) in
  let body := entries c nonPaymentFields ++ stripePair "tok_1" in
  In body (posts (trace w))
  /\ isComplete (comp w) = false
  /\ invalidated (trace w) = []
  /\ alerts (trace w) = [TypeError "Failed to fetch"].
Proof.
  intros env c w body.
  assert (Hin : In body (posts (trace w)))
    by (vm_compute; left; reflexivity).
  destruct (failure_without_an_error_object env c body Hin) as [H _].
  exact (conj Hin (H (TypeError "Failed to fetch") (or_introl eq_refl))).
Defined.

(** X7.  Without a linked account and with Stripe loaded, an attempt calls
    createToken exactly once: for a bank account when the method is bank,
    for the card element otherwise, with a data object read from the pairs
    of the form.  When the method is the one of that strategy, every
    property that is read from a control carries the control's current
    value.  When the method is plaid (nothing linked yet), the card strategy
    runs and every property but currency is null. *)
Theorem stripe_is_asked_once_for_the_rendered_values
    (env : Env) (c : Signup) :
  plaidToken c = None ->
  stripe env = StripeLoaded ->
  let w := snd (submit_attempt env c) in
  let kind := chosen_kind c in
  let data := stripeData kind (FormData c) in
  token_requests (trace w) = [(kind, data)]
  /\ (paymentMethod c = method_of kind ->
      forall prop field, In (prop, field) (stripeFields kind) ->
        In (prop, Some (inputs c field)) data)
  /\ (paymentMethod c = plaid ->
      kind = CardElement
      /\ data = [ ("name", None); ("address_line1", None);
                  ("address_line2", None); ("address_city", None);
                  ("address_state", None); ("address_zip", None);
                  ("address_country", None);
                  ("currency", Some (inputs c "currency")) ]).
Proof.
  intros Htoken Hstripe w kind data. subst w.
  pose proof (submit_conduct env c) as [S _].
  rewrite Htoken, Hstripe in S. destruct S as [S _].
  split; [exact S|]. clear S.
  subst data kind. unfold chosen_kind, paymentMethod_is_bank.
  destruct c as [m l d tok inp]. cbn [plaidToken paymentMethod inputs] in *.
  subst tok. split.
  - destruct m; cbn [method_of]; intros Hm; try discriminate;
      intros prop field Hin; cbn in Hin;
      repeat (destruct Hin as [E|Hin];
              [injection E as <- <-; vm_compute; tauto|]);
      destruct Hin.
  - intros ->. split; reflexivity.
Qed.

Lemma stripe_is_asked_once_for_the_rendered_values_witness :
  let env := sample_env (TokenOk "btok_1") (Response true (JsonBody None)) in
  let c := sample_signup bank None in
  plaidToken c = None /\ stripe env = StripeLoaded
  /\ token_requests (trace (snd (submit_attempt env c)))
     = [ (BankAccount,
          [ ("country", Some "x"); ("currency", Some "usd");
            ("routing_number", Some "x"); ("account_number", Some "x");
            ("account_holder_name", Some "x");
            ("account_holder_type", Some "individual") ]) ].
Proof.
  intros env c.
  destruct (stripe_is_asked_once_for_the_rendered_values env c
              eq_refl eq_refl) as [H _].
  exact (conj eq_refl (conj eq_refl H)).
Defined.

(** X8.  Without a linked account, when the Stripe library is not there (its
    promise rejected, or resolved to null), an attempt never calls
    createToken, sends nothing and marks nothing; it alerts the rejection
    unless it is falsy, or the TypeError of reading createToken of null;
    isComplete is left as it was. *)
Theorem nothing_is_sent_without_the_stripe_library
    (env : Env) (c : Signup) :
  plaidToken c = None ->
  stripe env <> StripeLoaded ->
  let w := snd (submit_attempt env c) in
  token_requests (trace w) = []
  /\ posts (trace w) = []
  /\ invalidated (trace w) = []
  /\ alerts (trace w)
     = match stripe env with
       | StripeRejected e => alerted e
       | _ => [TypeError "stripe is null"]
       end
  /\ isComplete (comp w) = isComplete c.
Proof.
  intros Htoken Hstripe w. subst w.
  pose proof (submit_conduct env c) as [S _].
  pose proof (submit_summary env c) as O. unfold Outcome in O.
  remember (submit_attempt env c) as r eqn:Hr. clear Hr.
  rewrite Htoken in S.
  assert (Hposts : posts (trace (snd r)) = [])
    by (destruct (stripe env); [congruence|apply S|apply S]).
  rewrite Hposts in O. destruct O as [O _].
  destruct (stripe env); [congruence| |];
    destruct S as (S1 & S2 & S3 & S4); auto.
Qed.

Lemma nothing_is_sent_without_the_stripe_library_witness :
  let env := {| stripe := StripeRejected (VString "Failed to load Stripe.js");
                createToken := fun _ _ => TokenOk "tok_1";
                fetch := fun _ => Response true (JsonBody None) |} in
  let c := sample_signup card None in
  let w := snd (submit_attempt env c) in
  plaidToken c = None /\ stripe env <> StripeLoaded
  /\ posts (trace w) = []
  /\ alerts (trace w) = [VString "Failed to load Stripe.js"].
Proof.
  intros env c w.
  assert (Hs : stripe env <> StripeLoaded) by discriminate.
  destruct (nothing_is_sent_without_the_stripe_library env c eq_refl Hs)
    as (_ & Hp & _ & Ha & _).
  exact (conj eq_refl (conj Hs (conj Hp Ha))).
Defined.

(** X9.  When the promise of createToken rejects for the data of the form,
    the attempt sends nothing and marks nothing, the rejection is alerted
    unless it is falsy, and isComplete is left as it was. *)
Theorem rejected_tokenization_is_alerted
    (env : Env) (c : Signup) (e : JsVal) :
  plaidToken c = None ->
  stripe env = StripeLoaded ->
  createToken env (chosen_kind c) (stripeData (chosen_kind c) (FormData c))
  = TokenRejected e ->
  let w := snd (submit_attempt env c) in
  posts (trace w) = []
  /\ invalidated (trace w) = []
  /\ alerts (trace w) = alerted e
  /\ isComplete (comp w) = isComplete c.
Proof.
  intros Htoken Hstripe Hreject w. subst w.
  pose proof (submit_conduct env c) as [S _].
  pose proof (submit_summary env c) as O. unfold Outcome in O.
  remember (submit_attempt env c) as r eqn:Hr. clear Hr.
  rewrite Htoken, Hstripe in S. cbv zeta in S. rewrite Hreject in S.
  destruct S as (_ & S1 & S2 & S3).
  rewrite S1 in O. destruct O as [O _]. auto.
Qed.

Lemma rejected_tokenization_is_alerted_witness :
  let env := sample_env (TokenRejected (VError "Error" "network"))
                        (Response true (JsonBody None)) in
  let c := sample_signup bank None in
  let w := snd (submit_attempt env c) in
  posts (trace w) = [] /\ alerts (trace w) = [VError "Error" "network"].
Proof.
  intros env c w.
  destruct (rejected_tokenization_is_alerted env c (VError "Error" "network")
              eq_refl eq_refl eq_refl) as (Hp & _ & Ha & _).
  exact (conj Hp Ha).
Defined.

(** X10.  An attempt shows at most one error: at most one alert and at most
    one control marked invalid, and never both.  A value that is alerted is
    truthy and is what console.error logged last.  An attempt calls
    createToken at most once and sends at most one POST. *)
Theorem an_attempt_shows_at_most_one_error (env : Env) (c : Signup) :
  let w := snd (submit_attempt env c) in
  length (alerts (trace w)) + length (invalidated (trace w)) <= 1
  /\ (forall v, In v (alerts (trace w)) ->
        truthy v = true /\ last (logs (trace w)) = Some (LogValue v))
  /\ length (token_requests (trace w)) <= 1
  /\ length (posts (trace w)) <= 1.
Proof.
  intros w. subst w.
  pose proof (submit_conduct env c) as [S E].
  pose proof (submit_summary env c) as O. unfold Outcome in O.
  remember (submit_attempt env c) as r eqn:Hr. clear Hr.
  split; [|split; [|split]].
  - clear S O.
    destruct (alerts (trace (snd r))) as [|v [|v' vs]],
      (invalidated (trace (snd r))) as [|i [|i' more]];
      simpl; try lia; destruct E.
  - clear S O. intros v Hv.
    destruct (alerts (trace (snd r))) as [|v0 [|v' vs]],
      (invalidated (trace (snd r))) as [|i [|i' more]];
      simpl in Hv; try contradiction.
    destruct Hv as [<-|[]]. exact E.
  - clear O E. destruct (plaidToken c); [rewrite S; simpl; lia|].
    destruct (stripe env); destruct S as [-> _]; simpl; lia.
  - clear S E. destruct (posts (trace (snd r))) as [|b [|b' bs]];
      simpl; try lia; destruct O.
Qed.

(** * What a handler leaves as it is *)

Section Frame.

Lemma same_form_refl (c : Signup) : same_form c c.
Proof. repeat split. Qed.

Lemma same_form_trans (c1 c2 c3 : Signup) :
  same_form c1 c2 -> same_form c2 c3 -> same_form c1 c3.
Proof.
  intros (M1 & T1 & I1) (M2 & T2 & I2). repeat split; congruence.
Qed.

Lemma keeps_ret {A} (a : A) : keeps_form (ret a).
Proof. intros w. apply same_form_refl. Qed.

Lemma keeps_throw {A} (v : JsVal) : keeps_form (@throw A v).
Proof. intros w. apply same_form_refl. Qed.

Lemma keeps_emit (e : Event) : keeps_form (emit e).
Proof. intros w. apply same_form_refl. Qed.

Lemma keeps_this : keeps_form this.
Proof. intros w. apply same_form_refl. Qed.

Lemma keeps_on_heap {A} (f : Heap -> A * Heap) : keeps_form (on_heap f).
Proof.
  intros w. unfold on_heap. destruct (f (heap w)). apply same_form_refl.
Qed.

Lemma keeps_read_heap {A} (f : Heap -> A) : keeps_form (read_heap f).
Proof. intros w. apply same_form_refl. Qed.

Lemma keeps_assign (f : Signup -> Signup) :
  (forall c, same_form c (f c)) -> keeps_form (assign f).
Proof. intros H w. apply H. Qed.

Lemma keeps_bind {A B} (m : Async A) (k : A -> Async B) :
  keeps_form m -> (forall a, keeps_form (k a)) -> keeps_form (bind m k).
Proof.
  intros Hm Hk w. unfold bind. specialize (Hm w).
  destruct (m w) as [[a|v] w']; [|exact Hm].
  eapply same_form_trans; [exact Hm|apply Hk].
Qed.

Lemma keeps_try_catch_finally {A} (body : Async A) handler finalizer :
  keeps_form body -> (forall v, keeps_form (handler v)) ->
  keeps_form finalizer ->
  keeps_form (try_catch_finally body handler finalizer).
Proof.
  intros Hb Hh Hf w. unfold try_catch_finally. specialize (Hb w).
  destruct (body w) as [[a|v] w'].
  - specialize (Hf w'). destruct (finalizer w') as [[u|v] w2];
      eapply same_form_trans; eassumption.
  - specialize (Hh v w'). destruct (handler v w') as [r w1].
    specialize (Hf w1). destruct (finalizer w1) as [[u|v'] w2];
      eapply same_form_trans; try eassumption;
      eapply same_form_trans; eassumption.
Qed.

End Frame.

Create HintDb frame.

#[local] Hint Resolve keeps_ret keeps_throw keeps_emit keeps_this
  keeps_on_heap keeps_read_heap same_form_refl : frame.

(** A handler made of handlers that keep the form keeps it. *)
Ltac frame :=
  repeat first
    [ progress auto with frame
    | apply keeps_bind; [|intros ?]
    | apply keeps_try_catch_finally; [| intros ? |]
    | apply keeps_assign; intros ?; repeat split
    | match goal with
      | |- keeps_form (match ?x with _ => _ end) => destruct x
      end ].

Lemma setInvalid_keeps_form (field message : string) :
  keeps_form (setInvalid field message).
Proof. unfold setInvalid. frame. Qed.

#[local] Hint Resolve setInvalid_keeps_form : frame.

Lemma cardToken_keeps_form (env : Env) data :
  keeps_form (cardToken env data).
Proof.
  unfold cardToken, await_stripe, member_createToken, call_createToken,
    splice, get, getRemainder, console_error.
  frame.
Qed.

Lemma bankAccountToken_keeps_form (env : Env) data :
  keeps_form (bankAccountToken env data).
Proof.
  unfold bankAccountToken, await_stripe, member_createToken,
    call_createToken, splice, get, getRemainder, console_error.
  frame.
Qed.

#[local] Hint Resolve cardToken_keeps_form bankAccountToken_keeps_form
  : frame.

Lemma submit_keeps_form (env : Env) : keeps_form (submit env).
Proof.
  unfold submit, enableInvalidStyles, getRemainder, body_set, fetch_POST,
    await_json, console_error, alert.
  frame.
Qed.

(** X11.  submit assigns nothing but isLoading and isComplete: after an
    attempt the payment method, the linked account and the value of every
    control are what they were before, and so are the rendered controls and
    the form data. *)
Theorem submit_changes_only_its_two_flags (env : Env) (c : Signup) :
  let c' := comp (snd (submit_attempt env c)) in
  paymentMethod c' = paymentMethod c
  /\ plaidToken c' = plaidToken c
  /\ inputs c' = inputs c
  /\ render c' = render c
  /\ FormData c' = FormData c.
Proof.
  intros c'. subst c'.
  destruct (submit_keeps_form env {| comp := c; heap := []; trace := [] |})
    as (M & T & I).
  fold (submit_attempt env c) in M, T, I. cbn [comp] in M, T, I.
  remember (comp (snd (submit_attempt env c))) as c' eqn:Hc. clear Hc.
  assert (R : render c' = render c).
  { unfold render, paymentTemplate, paymentMethodTemplate,
      connectedPlaidTemplate. rewrite M, T. reflexivity. }
  repeat split; try assumption.
  unfold FormData, entries. rewrite R, I. reflexivity.
Qed.

(** * What an attempt reads of the element *)

Section Alike.

Lemma render_same_form c c' : same_form c c' -> render c' = render c.
Proof.
  intros (M & T & I).
  unfold render, paymentTemplate, paymentMethodTemplate,
    connectedPlaidTemplate. rewrite M, T. reflexivity.
Qed.

Lemma FormData_same_form c c' : same_form c c' -> FormData c' = FormData c.
Proof.
  intros H. unfold FormData, entries.
  rewrite (render_same_form _ _ H). destruct H as (_ & _ & ->). reflexivity.
Qed.

Lemma namedItem_same_form f c c' :
  same_form c c' -> namedItem f c' = namedItem f c.
Proof. intros H. unfold namedItem. rewrite (render_same_form _ _ H). reflexivity. Qed.

Lemma is_bank_same_form c c' :
  same_form c c' -> paymentMethod_is_bank c' = paymentMethod_is_bank c.
Proof. intros (M & _). unfold paymentMethod_is_bank. rewrite M. reflexivity. Qed.

Lemma plaidToken_same_form c c' : same_form c c' -> plaidToken c' = plaidToken c.
Proof. intros (_ & T & _). exact T. Qed.

Lemma alike_ret {A} (a : A) : alike (ret a) (ret a).
Proof. intros w w' H. split; [reflexivity|exact H]. Qed.

Lemma alike_throw {A} (v : JsVal) : alike (@throw A v) (throw v).
Proof. intros w w' H. split; [reflexivity|exact H]. Qed.

Lemma alike_emit (e : Event) : alike (emit e) (emit e).
Proof.
  intros w w' (C & H & T). split; [reflexivity|].
  unfold emit, same_world. cbn. rewrite T. auto.
Qed.

Lemma alike_on_heap {A} (f : Heap -> A * Heap) : alike (on_heap f) (on_heap f).
Proof.
  intros w w' (C & H & T). unfold on_heap, same_world. rewrite H.
  destruct (f (heap w)). cbn. auto.
Qed.

Lemma alike_read_heap {A} (f : Heap -> A) : alike (read_heap f) (read_heap f).
Proof.
  intros w w' (C & H & T). unfold read_heap, same_world. rewrite H.
  cbn. auto.
Qed.

Lemma alike_assign (f : Signup -> Signup) :
  (forall c c', same_form c c' -> same_form (f c) (f c')) ->
  alike (assign f) (assign f).
Proof.
  intros Hf w w' (C & H & T). unfold assign, same_world. cbn. auto.
Qed.

Lemma alike_bind {A B} (m m' : Async A) (k k' : A -> Async B) :
  alike m m' -> (forall a, alike (k a) (k' a)) ->
  alike (bind m k) (bind m' k').
Proof.
  intros Hm Hk w w' H. unfold bind.
  destruct (Hm w w' H) as [E W].
  destruct (m w) as [[a|v] w1], (m' w') as [[a'|v'] w1'];
    cbn [fst snd] in E, W; try discriminate.
  - injection E as ->. apply Hk. exact W.
  - injection E as ->. split; [reflexivity|exact W].
Qed.

Lemma alike_bind_this {B} (k k' : Signup -> Async B) :
  (forall c c', same_form c c' -> alike (k c) (k' c')) ->
  alike (bind this k) (bind this k').
Proof.
  intros Hk w w' H. unfold bind, this. apply Hk; [apply H|exact H].
Qed.

Lemma alike_try_catch_finally {A} (body body' : Async A)
    handler handler' finalizer finalizer' :
  alike body body' -> (forall v, alike (handler v) (handler' v)) ->
  alike finalizer finalizer' ->
  alike (try_catch_finally body handler finalizer)
        (try_catch_finally body' handler' finalizer').
Proof.
  intros Hb Hh Hf w w' H. unfold try_catch_finally.
  destruct (Hb w w' H) as [E W].
  destruct (body w) as [[a|v] w1], (body' w') as [[a'|v'] w1'];
    cbn [fst snd] in E, W; try discriminate.
  - injection E as ->. destruct (Hf _ _ W) as [E' W'].
    destruct (finalizer w1) as [[u|v] w2],
      (finalizer' w1') as [[u'|v'] w2'];
      cbn [fst snd] in E', W'; try discriminate.
    + split; [reflexivity|exact W'].
    + injection E' as ->. split; [reflexivity|exact W'].
  - injection E as ->. destruct (Hh v _ _ W) as [E1 W1].
    destruct (handler v w1) as [r w2], (handler' v w1') as [r' w2'].
    cbn [fst snd] in E1, W1. subst r'.
    destruct (Hf _ _ W1) as [E' W'].
    destruct (finalizer w2) as [[u|v0] w3],
      (finalizer' w2') as [[u'|v0'] w3'];
      cbn [fst snd] in E', W'; try discriminate.
    + split; [reflexivity|exact W'].
    + injection E' as ->. split; [reflexivity|exact W'].
Qed.

End Alike.

Create HintDb alike.

#[local] Hint Resolve alike_ret alike_throw alike_emit alike_on_heap
  alike_read_heap : alike.

(** What the second run reads of its element is what the first one
    reads. *)
Ltac to_first_form :=
  match goal with
  | H : same_form ?c ?c' |- _ =>
      rewrite ?(FormData_same_form _ _ H), ?(namedItem_same_form _ _ _ H),
        ?(is_bank_same_form _ _ H), ?(plaidToken_same_form _ _ H)
  end.

(** A handler made of handlers that are alike is alike itself. *)
Ltac alike_run :=
  repeat first
    [ progress auto with alike
    | apply alike_bind_this; intros ? ? ?; to_first_form
    | apply alike_bind; [|intros ?]
    | apply alike_try_catch_finally; [| intros ? |]
    | apply alike_assign; intros ? ? (? & ? & ?); repeat split; assumption
    | match goal with
      | |- alike (match ?x with _ => _ end) (match ?x with _ => _ end) =>
          destruct x
      end ].

Lemma setInvalid_alike (field message : string) :
  alike (setInvalid field message) (setInvalid field message).
Proof. unfold setInvalid. alike_run. Qed.

#[local] Hint Resolve setInvalid_alike : alike.

Lemma cardToken_alike (env : Env) data :
  alike (cardToken env data) (cardToken env data).
Proof.
  unfold cardToken, await_stripe, member_createToken, call_createToken,
    splice, get, getRemainder, console_error.
  alike_run.
Qed.

Lemma bankAccountToken_alike (env : Env) data :
  alike (bankAccountToken env data) (bankAccountToken env data).
Proof.
  unfold bankAccountToken, await_stripe, member_createToken,
    call_createToken, splice, get, getRemainder, console_error.
  alike_run.
Qed.

#[local] Hint Resolve cardToken_alike bankAccountToken_alike : alike.

Lemma submit_alike (env : Env) : alike (submit env) (submit env).
Proof.
  unfold submit, enableInvalidStyles, getRemainder, body_set, fetch_POST,
    await_json, console_error, alert.
  alike_run.
Qed.

(** X12.  An attempt depends on the element only through its form (method,
    linked account, values of the controls): two elements that differ in
    isLoading or isComplete alone make the same attempt, with the same
    trace, the same store and the same completion.  submit does not look at
    isLoading or isComplete: an attempt started while another one is loading
    or after completion runs in full. *)
Theorem an_attempt_depends_only_on_the_form
    (env : Env) (c c' : Signup) :
  same_form c c' ->
  trace (snd (submit_attempt env c')) = trace (snd (submit_attempt env c))
  /\ heap (snd (submit_attempt env c')) = heap (snd (submit_attempt env c))
  /\ fst (submit_attempt env c') = fst (submit_attempt env c).
Proof.
  intros F.
  assert (W : same_world {| comp := c; heap := []; trace := [] |}
                         {| comp := c'; heap := []; trace := [] |})
    by (repeat split; apply F).
  destruct (submit_alike env _ _ W) as (E & _ & H & T).
  auto.
Qed.

Lemma an_attempt_depends_only_on_the_form_witness :
  let env := sample_env (TokenOk "tok_1") (Response true (JsonBody None)) in
  let c := sample_signup card None in
  let c' := set_isLoading true (set_isComplete true c) in
  same_form c c'
  /\ posts (trace (snd (submit_attempt env c')))
     = [entries c nonPaymentFields ++ stripePair "tok_1"].
Proof.
  intros env c c'.
  assert (F : same_form c c') by (repeat split).
  destruct (an_attempt_depends_only_on_the_form env c c' F) as (T & _).
  refine (conj F _). rewrite T. vm_compute. reflexivity.
Defined.

(** X13.  A retry is a fresh attempt: after any attempt, the next attempt on
    the element does, in the same environment, what a first attempt on the
    element as it was before would do. *)
Theorem a_retry_is_a_fresh_attempt (env env' : Env) (c : Signup) :
  let c1 := comp (snd (submit_attempt env c)) in
  trace (snd (submit_attempt env' c1)) = trace (snd (submit_attempt env' c))
  /\ fst (submit_attempt env' c1) = fst (submit_attempt env' c).
Proof.
  intros c1.
  assert (F : same_form c c1)
    by apply (submit_keeps_form env {| comp := c; heap := []; trace := [] |}).
  assert (W : same_world {| comp := c; heap := []; trace := [] |}
                         {| comp := c1; heap := []; trace := [] |})
    by (repeat split; apply F).
  destruct (submit_alike env' _ _ W) as (E & _ & H & T).
  auto.
Qed.

(** * The loader *)

Section LoaderFacts.

Lemma settle_loader_states promise s p :
  loader_states p -> loader_states (settle promise s p).
Proof.
  intros [->|[s0 ->]]; [left; reflexivity|]. right.
  unfold settle. cbn [promises loadingPlaid scripts].
  destruct promise as [|n]; cbn.
  - destruct s0; eauto.
  - eauto.
Qed.

Lemma page_step_loader_states ev p :
  loader_states p ->
  loader_states (snd (page_step ev p))
  /\ (forall r, In r (fst (page_step ev p)) -> r = 0).
Proof.
  intros H. destruct ev as [|script|script e]; cbn [page_step].
  - destruct H as [->|[s ->]]; cbn.
    + split; [right; eauto|]. intros r [<-|[]]. reflexivity.
    + split; [right; eauto|]. intros r [<-|[]]. reflexivity.
  - destruct (scripts p !! script) as [[src promise]|]; cbn [fst snd].
    + split; [apply settle_loader_states, H|intros r []].
    + split; [exact H|intros r []].
  - destruct (scripts p !! script) as [[src promise]|]; cbn [fst snd].
    + split; [apply settle_loader_states, H|intros r []].
    + split; [exact H|intros r []].
Qed.

Lemma page_run_loader_states events : forall p,
  loader_states p ->
  loader_states (snd (page_run events p))
  /\ (forall r, In r (fst (page_run events p)) -> r = 0).
Proof.
  induction events as [|ev events IH]; intros p H; cbn [page_run fst snd].
  - split; [exact H|intros r []].
  - destruct (page_step_loader_states ev p H) as [H1 R1].
    destruct (IH _ H1) as [H2 R2].
    split; [exact H2|]. intros r Hr. apply in_app_or in Hr as [Hr|Hr]; auto.
Qed.

Lemma page_run_app events events' p :
  page_run (events ++ events') p
  = (fst (page_run events p)
       ++ fst (page_run events' (snd (page_run events p))),
     snd (page_run events' (snd (page_run events p)))).
Proof.
  revert p. induction events as [|ev events IH]; intros p.
  - cbn. destruct (page_run events' p). reflexivity.
  - cbn [page_run app fst snd]. rewrite IH. cbn [fst snd].
    rewrite app_assoc. reflexivity.
Qed.

End LoaderFacts.

Lemma loaded_stays ev p :
  loadingPlaid p <> None -> loadingPlaid (snd (page_step ev p)) <> None.
Proof.
  intros H. destruct ev as [|script|script e]; cbn [page_step snd].
  - unfold loadPlaid. destruct (loadingPlaid p) eqn:E; cbn [snd];
      [congruence|discriminate].
  - destruct (scripts p !! script) as [[src promise]|]; [|exact H].
    unfold settle. destruct (promises p !! promise) as [[| |]|]; exact H.
  - destruct (scripts p !! script) as [[src promise]|]; [|exact H].
    unfold settle. destruct (promises p !! promise) as [[| |]|]; exact H.
Qed.

Lemma loaded_stays_run events : forall p,
  loadingPlaid p <> None -> loadingPlaid (snd (page_run events p)) <> None.
Proof.
  induction events as [|ev events IH]; intros p H; [exact H|].
  cbn [page_run snd]. apply IH, loaded_stays, H.
Qed.

Lemma called_is_loaded events : forall p r,
  In r (fst (page_run events p)) ->
  loadingPlaid (snd (page_run events p)) <> None.
Proof.
  induction events as [|ev events IH]; intros p r Hr; [destruct Hr|].
  cbn [page_run fst snd] in *. apply in_app_or in Hr as [Hr|Hr].
  - apply loaded_stays_run.
    destruct ev as [|script|script e]; cbn [page_step fst snd] in *.
    + unfold loadPlaid. destruct (loadingPlaid p) eqn:E; cbn [snd];
        [congruence|discriminate].
    + destruct (scripts p !! script) as [[src promise]|]; destruct Hr.
    + destruct (scripts p !! script) as [[src promise]|]; destruct Hr.
  - eapply IH. exact Hr.
Qed.

Lemma settled_page_is_fixed ev s :
  s <> Pending ->
  let p := {| loadingPlaid := Some 0; promises := [s];
              scripts := [(PLAID_LIB_URL, 0)] |} in
  snd (page_step ev p) = p
  /\ (forall r, In r (fst (page_step ev p)) -> r = 0).
Proof.
  intros Hs p. destruct ev as [|[|script]|[|script] e]; cbn.
  - split; [reflexivity|]. intros r [<-|[]]. reflexivity.
  - split; [|intros r []]. unfold settle. cbn. destruct s; congruence.
  - split; [reflexivity|intros r []].
  - split; [|intros r []]. unfold settle. cbn. destruct s; congruence.
  - split; [reflexivity|intros r []].
Qed.

Lemma settled_page_is_fixed_run events s :
  s <> Pending ->
  let p := {| loadingPlaid := Some 0; promises := [s];
              scripts := [(PLAID_LIB_URL, 0)] |} in
  snd (page_run events p) = p
  /\ (forall r, In r (fst (page_run events p)) -> r = 0).
Proof.
  intros Hs p. induction events as [|ev events [IH1 IH2]].
  - split; [reflexivity|intros r []].
  - cbn [page_run fst snd].
    destruct (settled_page_is_fixed ev s Hs) as [E R]. fold p in E, R.
    rewrite E. split; [exact IH1|].
    intros r Hr. apply in_app_or in Hr as [Hr|Hr]; auto.
Qed.

(** X14.  loadPlaid is memoized: whatever calls and script events happen on
    a page, at most one script element is appended, and every call returns
    the same promise, the one kept in loadingPlaid, which that one script
    settles. *)
Theorem the_plaid_script_is_appended_once (events : list PageEvent) :
  let returned := fst (page_run events new_page) in
  let p := snd (page_run events new_page) in
  length (scripts p) <= 1
  /\ (forall r r', In r returned -> In r' returned -> r = r')
  /\ (forall r, In r returned ->
        loadingPlaid p = Some r /\ scripts p = [(PLAID_LIB_URL, r)]).
Proof.
  intros returned p.
  destruct (page_run_loader_states events new_page (or_introl eq_refl))
    as [H R]. fold p in H. fold returned in R.
  split; [|split].
  - destruct H as [->|[s ->]]; cbn; lia.
  - intros r r' Hr Hr'. rewrite (R r Hr), (R r' Hr'). reflexivity.
  - intros r Hr. pose proof (called_is_loaded events new_page r Hr) as L.
    fold p in L. rewrite (R r Hr).
    destruct H as [->|[s ->]]; [contradiction|]. split; reflexivity.
Qed.

(** X15.  A failed load is never retried: once the promise of the loader is
    rejected, every later call of loadPlaid returns that rejected promise
    and nothing changes any more (no script is appended, a late load event
    does not fulfil it). *)
Theorem a_failed_load_is_never_retried
    (events later : list PageEvent) (e : JsVal) :
  let p := snd (page_run events new_page) in
  promises p = [Rejected e] ->
  snd (page_run later p) = p
  /\ (forall r, In r (fst (page_run later p)) ->
        loadingPlaid p = Some r /\ promises p !! r = Some (Rejected e)).
Proof.
  intros p Hp.
  destruct (page_run_loader_states events new_page (or_introl eq_refl))
    as [H _]. fold p in H.
  destruct H as [E|[s E]]; rewrite E in Hp |- *; [discriminate|].
  cbn [promises] in Hp. injection Hp as ->.
  assert (Hs : Rejected e <> Pending) by discriminate.
  destruct (settled_page_is_fixed_run later (Rejected e) Hs) as [F R].
  split; [exact F|].
  intros r Hr. rewrite (R r Hr). split; reflexivity.
Qed.

Lemma a_failed_load_is_never_retried_witness :
  let e := VString "error" in
  let p := snd (page_run [CallLoadPlaid; ScriptError 0 e] new_page) in
  promises p = [Rejected e]
  /\ page_run [CallLoadPlaid; ScriptLoad 0; CallLoadPlaid] p = ([0; 0], p).
Proof.
  intros e p.
  assert (Hp : promises p = [Rejected e]) by reflexivity.
  destruct (a_failed_load_is_never_retried [CallLoadPlaid; ScriptError 0 e]
              [CallLoadPlaid; ScriptLoad 0; CallLoadPlaid] e Hp) as [F _].
  split; [exact Hp|].
  rewrite (surjective_pairing (page_run _ p)). fold p in F. rewrite F.
  reflexivity.
Defined.

(** * The link flow *)

Section LinkFacts.

Lemma has_handler_In handlers handler :
  has_handler handlers handler = true -> In handler handlers.
Proof.
  unfold has_handler. rewrite existsb_exists.
  intros (x & Hx & E). apply Nat.eqb_eq in E. subst. exact Hx.
Qed.

Lemma link_step_flow env a w :
  link_flow env (link_trace w) ->
  link_flow env (link_trace (link_step env a w)).
Proof.
  intros H. destruct a as [method| |handler tok md|handler|];
    cbn [link_step].
  - destruct (plaidToken (element w)); exact H.
  - destruct (plaidToken (element w)); [exact H|].
    destruct (paymentMethod (element w)); try exact H.
    unfold openPlaid.
    destruct (Link.link_token env (link_fetches (link_trace w)))
      as [e|e| |token] eqn:R; cbn [snd link_log link_trace];
      try (apply flow_failed; [exact H|intros t Ht; congruence]).
    destruct (Link.plaid env) eqn:P; cbn [snd link_log link_trace];
      try (apply flow_failed; [exact H|intros t Ht; congruence]).
    rewrite <- !app_assoc. cbn [app].
    apply flow_opened; assumption.
  - destruct (has_handler _ _); exact H.
  - destruct (has_handler _ _) eqn:E; [|exact H].
    apply flow_exit; [exact H|apply has_handler_In, E].
  - destruct (plaidToken (element w)); exact H.
Qed.

Lemma link_run_flow env actions : forall w,
  link_flow env (link_trace w) ->
  link_flow env (link_trace (link_run env actions w)).
Proof.
  induction actions as [|a actions IH]; intros w H; [exact H|].
  cbn [link_run fold_left]. apply IH, link_step_flow, H.
Qed.

Lemma created_app tr tr' : created (tr ++ tr') = created tr ++ created tr'.
Proof.
  induction tr as [|[|tok h|h|h] tr IH]; cbn; rewrite ?IH; reflexivity.
Qed.

Lemma opened_app tr tr' : opened (tr ++ tr') = opened tr ++ opened tr'.
Proof.
  induction tr as [|[|tok h|h|h] tr IH]; cbn; rewrite ?IH; reflexivity.
Qed.

Lemma destroyed_app tr tr' :
  destroyed (tr ++ tr') = destroyed tr ++ destroyed tr'.
Proof.
  induction tr as [|[|tok h|h|h] tr IH]; cbn; rewrite ?IH; reflexivity.
Qed.

Lemma link_fetches_app tr tr' :
  link_fetches (tr ++ tr') = link_fetches tr + link_fetches tr'.
Proof.
  induction tr as [|[|tok h|h|h] tr IH]; cbn; rewrite ?IH; reflexivity.
Qed.

Lemma flow_handlers env tr :
  link_flow env tr ->
  created tr = seq 0 (length (created tr))
  /\ opened tr = created tr
  /\ length (created tr) <= link_fetches tr
  /\ (forall h, In h (destroyed tr) -> In h (created tr)).
Proof.
  induction 1 as [|tr H (C & O & F & D) Hfail
                  |tr token H (C & O & F & D) Htoken Hplaid
                  |tr handler H (C & O & F & D) Hin].
  - split; [reflexivity|]. split; [reflexivity|].
    split; [cbn; lia|]. intros h [].
  - rewrite created_app, opened_app, link_fetches_app, destroyed_app.
    cbn. rewrite !app_nil_r. repeat split; try assumption; lia.
  - rewrite created_app, opened_app, link_fetches_app, destroyed_app.
    cbn. rewrite !app_nil_r, length_app. cbn.
    split; [|split; [|split]].
    + rewrite seq_app. cbn. rewrite <- C. reflexivity.
    + rewrite O. reflexivity.
    + lia.
    + intros h Hh. apply in_or_app. left. auto.
  - rewrite created_app, opened_app, link_fetches_app, destroyed_app.
    cbn. rewrite !app_nil_r. repeat split; try assumption; try lia.
    intros h Hh. apply in_app_or in Hh as [Hh|[<-|[]]]; auto.
Qed.

End LinkFacts.

(** X16.  Whatever the user and Plaid do (method buttons, Connect Bank,
    Remove, success and exit callbacks), one action after the other, the
    trace of the link flow is made of three kinds of steps: a click on Connect Bank that fetches a link
    token and stops before any handler exists (the request failed, its JSON
    is unreadable or null, or the Plaid library is not there), a click that
    fetches a link token and creates and opens a new handler with the token
    just fetched, and the exit of an existing handler, which destroys
    it. *)
Theorem the_link_flow_follows_its_state_machine
    (env : Link.Env) (actions : list LinkAction) (c : Signup) :
  link_flow env
    (link_trace (link_run env actions {| element := c; link_trace := [] |})).
Proof. apply link_run_flow. constructor. Qed.

(** X17.  With the actions taken one after the other, every Connect Bank
    click that gets a handler gets one of its own:
    handlers are numbered in the order of their creation, each one is opened
    once, right after its creation, and none is opened twice; there are no
    more handlers than link token requests, and only handlers that exist
    are destroyed. *)
Theorem every_connect_opens_a_new_handler
    (env : Link.Env) (actions : list LinkAction) (c : Signup) :
  let tr :=
    link_trace (link_run env actions {| element := c; link_trace := [] |}) in
  created tr = seq 0 (length (created tr))
  /\ opened tr = created tr
  /\ NoDup (opened tr)
  /\ length (created tr) <= link_fetches tr
  /\ (forall h, In h (destroyed tr) -> In h (created tr)).
Proof.
  intros tr.
  assert (H : link_flow env tr) by (apply link_run_flow; constructor).
  destruct (flow_handlers env tr H) as (C & O & F & D).
  repeat split; try assumption.
  rewrite O, C. apply NoDup_seq.
Qed.

(** X18.  Only the success callback and Remove change the linked account:
    after any run of the other actions (method buttons, Connect Bank,
    exits), the element holds the linked account that it held before. *)
Theorem only_success_and_remove_change_the_linked_account
    (env : Link.Env) (actions : list LinkAction) (w : LinkWorld) :
  forallb (fun a => negb (links_or_removes a)) actions = true ->
  plaidToken (element (link_run env actions w)) = plaidToken (element w).
Proof.
  revert w. induction actions as [|a actions IH]; intros w H; [reflexivity|].
  cbn [forallb] in H. apply andb_true_iff in H as [Ha H].
  cbn [link_run fold_left]. fold (link_run env actions (link_step env a w)).
  rewrite (IH _ H). clear IH H.
  destruct a as [method| |handler tok md|handler|]; try discriminate;
    cbn [link_step].
  - destruct (plaidToken (element w)) eqn:T; [exact T|cbn; exact T].
  - destruct (plaidToken (element w)) eqn:T; [exact T|].
    destruct (paymentMethod (element w)); try exact T.
    unfold openPlaid.
    destruct (Link.link_token _ _); try exact T.
    destruct (Link.plaid env); exact T.
  - destruct (has_handler _ _); reflexivity.
Qed.

Lemma only_success_and_remove_change_the_linked_account_witness :
  let env := {| Link.plaid := PlaidLoaded;
                Link.link_token := fun _ => LinkJson (Some "link-1") |} in
  let w := {| element := sample_signup plaid None; link_trace := [] |} in
  let actions := [ClickConnect; PlaidExit 0; ClickMethod bank] in
  link_trace (link_run env actions w)
  = [LFetchLinkToken; LCreate (Some "link-1") 0; LOpen 0; LDestroy 0]
  /\ plaidToken (element (link_run env actions w)) = None.
Proof.
  intros env w actions. split; [reflexivity|].
  exact (only_success_and_remove_change_the_linked_account env actions w
           eq_refl).
Defined.

(** X19.  Remove undoes a link: from the state in which Connect Bank is
    shown (the plaid method, no linked account), a success callback,
    whatever its metadata, followed by Remove leaves the element and the
    link flow as they were. *)
Theorem remove_undoes_a_link
    (env : Link.Env) (w : LinkWorld) (handler : nat) (public_token : string)
    (metadata : PlaidMetadata.t) :
  plaidToken (element w) = None ->
  paymentMethod (element w) = plaid ->
  link_run env [PlaidSuccess handler public_token metadata; ClickRemove] w
  = w.
Proof.
  intros T _. destruct w as [c tr]. cbn [element] in T.
  cbn [link_run fold_left link_step link_trace element].
  destruct (has_handler (created tr) handler).
  - unfold on_element at 2, onSuccess. cbn [element link_trace].
    destruct (PlaidMetadata.accounts metadata) as [|first others].
    + cbn. rewrite T. reflexivity.
    + cbn. unfold on_element. cbn.
      destruct c. cbn in *. subst. reflexivity.
  - cbn. rewrite T. reflexivity.
Qed.

Lemma remove_undoes_a_link_witness :
  let env := {| Link.plaid := PlaidLoaded;
                Link.link_token := fun _ => LinkJson (Some "link-1") |} in
  let w := link_run env [ClickConnect]
             {| element := sample_signup plaid None; link_trace := [] |} in
  let metadata :=
    {| PlaidMetadata.institution_name := "Bank";
       PlaidMetadata.accounts :=
         [ {| PlaidAccount.name := "Checking";
              PlaidAccount.id := "acc-1" |} ] |} in
  plaidToken (element w) = None
  /\ paymentMethod (element w) = plaid
  /\ plaidToken (element (link_run env [PlaidSuccess 0 "public-token-1"
                                          metadata] w))
     = Some sample_token
  /\ link_run env [PlaidSuccess 0 "public-token-1" metadata; ClickRemove] w
     = w.
Proof.
  intros env w metadata.
  exact (conj eq_refl (conj eq_refl (conj eq_refl
           (remove_undoes_a_link env w 0 "public-token-1" metadata
              eq_refl eq_refl)))).
Defined.

(** * The card element *)

Section SlotFacts.

Lemma mounted_after_app tr tr' before :
  mounted_after (tr ++ tr') before
  = mounted_after tr' (mounted_after tr before).
Proof.
  revert before. induction tr as [|[el|el cont|el] tr IH]; intros before;
    cbn; auto.
Qed.

Lemma rebind_slot_ok env container s :
  slot_ok s -> slot_ok (snd (rebindStripeElement env container s)).
Proof.
  unfold slot_ok, rebindStripeElement, mounted. intros H.
  assert (H1 : mounted_after
                 (slot_trace
                    match cardElement s with
                    | Some el =>
                        {| cardElement := cardElement s;
                           slot_trace := slot_trace s ++ [SUnmount el] |}
                    | None => s
                    end) [] = []).
  { destruct (cardElement s) as [el|] eqn:E.
    - cbn [slot_trace]. rewrite mounted_after_app. cbn.
      destruct (mounted_after (slot_trace s) []) as [|m [|m' ms]];
        [reflexivity| |destruct H].
      injection H as ->. cbn. rewrite Nat.eqb_refl. reflexivity.
    - destruct (mounted_after (slot_trace s) []) as [|m [|m' ms]];
        [reflexivity|discriminate|destruct H]. }
  destruct container as [cont|]; [|cbn [snd]; rewrite H1; exact I].
  destruct (stripe env); cbn [snd slot_trace cardElement].
  - rewrite mounted_after_app, H1. reflexivity.
  - rewrite H1. exact I.
  - rewrite H1. exact I.
Qed.

Lemma slot_run_ok env containers : forall s,
  slot_ok s -> slot_ok (slot_run env containers s).
Proof.
  induction containers as [|container containers IH]; intros s H; [exact H|].
  cbn [slot_run fold_left]. apply IH, rebind_slot_ok, H.
Qed.

End SlotFacts.

(** X20.  Whatever slotchange events arrive (with an assigned element or
    without, Stripe loaded or not), each one handled to its end before the
    next, at most one card element is mounted, and it is the one that
    this.cardElement holds. *)
Theorem at_most_one_card_element_is_mounted
    (env : Env) (containers : list (option string)) :
  let s := slot_run env containers new_slot in
  length (mounted (slot_trace s)) <= 1
  /\ (forall el, In el (mounted (slot_trace s)) -> cardElement s = Some el).
Proof.
  intros s.
  assert (H : slot_ok s) by (apply slot_run_ok; exact I).
  unfold slot_ok in H.
  destruct (mounted (slot_trace s)) as [|m [|m' ms]]; [| |destruct H].
  - split; [cbn; lia|intros el []].
  - split; [cbn; lia|]. intros el [<-|[]]. exact H.
Qed.

(** * Handlers of the controls *)

Lemma billingCountry_rendered (c : Signup) :
  namedItem "billing-country" c
  = match plaidToken c, paymentMethod c with
    | None, bank | None, card => true
    | _, _ => false
    end.
Proof.
  unfold namedItem, render, paymentTemplate, paymentMethodTemplate,
    connectedPlaidTemplate.
  destruct (plaidToken c); [|destruct (paymentMethod c)]; reflexivity.
Qed.

Lemma currencyChangeHandler_cases (w : World) :
  currencyChangeHandler w
  = match URLSearchParams.get (inputs (comp w) "currency") countryOfCurrency
    with
    | None => (Normal tt, w)
    | Some country =>
        if match plaidToken (comp w), paymentMethod (comp w) with
           | None, bank | None, card => true
           | _, _ => false
           end
        then (Normal tt,
              {| comp := set_input "billing-country" country (comp w);
                 heap := heap w; trace := trace w |})
        else (Throw (TypeError "this.billingCountry is null"), w)
    end.
Proof.
  destruct w as [c h tr]. cbn [comp heap trace].
  assert (Hset : forall value,
            set_billingCountry value {| comp := c; heap := h; trace := tr |}
            = if match plaidToken c, paymentMethod c with
                 | None, bank | None, card => true
                 | _, _ => false
                 end
              then (Normal tt,
                    {| comp := set_input "billing-country" value c;
                       heap := h; trace := tr |})
              else (Throw (TypeError "this.billingCountry is null"),
                    {| comp := c; heap := h; trace := tr |})).
  { intros value. unfold set_billingCountry. rewrite bind_this.
    cbn [comp]. rewrite billingCountry_rendered.
    destruct (plaidToken c); [reflexivity|].
    destruct (paymentMethod c); reflexivity. }
  unfold currencyChangeHandler. rewrite bind_this. cbn [comp].
  unfold countryOfCurrency. cbn [URLSearchParams.get].
  rewrite (String.eqb_sym "usd"), (String.eqb_sym "cad").
  destruct (String.eqb (inputs c "currency") "usd"); [apply Hset|].
  destruct (String.eqb (inputs c "currency") "cad"); [apply Hset|].
  reflexivity.
Qed.

Lemma get_countryOfCurrency (currency country : string) :
  In (currency, country) countryOfCurrency ->
  URLSearchParams.get currency countryOfCurrency = Some country.
Proof.
  intros [H|[H|[]]]; injection H as <- <-; reflexivity.
Qed.

(** X21.  currencyChangeHandler: for the currencies usd and cad, without a
    billing-country control (a linked account, or the plaid method, which is
    the element's initial one) it throws a TypeError and changes nothing;
    for any other currency it does nothing; for usd and cad with the control
    rendered (bank or card method, no linked account) it sets that control
    to US or CA and changes nothing else. *)
Theorem currency_change_needs_the_billing_country_control (w : World) :
  let c := comp w in
  (In (inputs c "currency") (map fst countryOfCurrency) ->
   (plaidToken c <> None \/ paymentMethod c = plaid) ->
   currencyChangeHandler w
   = (Throw (TypeError "this.billingCountry is null"), w))
  /\ (~ In (inputs c "currency") (map fst countryOfCurrency) ->
      currencyChangeHandler w = (Normal tt, w))
  /\ (forall country,
        In (inputs c "currency", country) countryOfCurrency ->
        plaidToken c = None -> paymentMethod c <> plaid ->
        currencyChangeHandler w
        = (Normal tt,
           {| comp := set_input "billing-country" country c;
              heap := heap w; trace := trace w |})).
Proof.
  intros c. subst c. rewrite currencyChangeHandler_cases.
  split; [|split].
  - intros Hc Hn.
    assert (E : match plaidToken (comp w), paymentMethod (comp w) with
                | None, bank | None, card => true
                | _, _ => false
                end = false).
    { destruct (plaidToken (comp w)); [reflexivity|].
      destruct Hn as [Hn| ->]; [congruence|reflexivity]. }
    rewrite E.
    cbn in Hc. destruct Hc as [Hc|[Hc|[]]]; rewrite <- Hc; reflexivity.
  - intros Hc.
    destruct (URLSearchParams.get _ countryOfCurrency) eqn:G; [|reflexivity].
    exfalso. apply Hc. unfold countryOfCurrency in *.
    cbn [map fst In]. cbn [URLSearchParams.get] in G.
    destruct ("usd" =? inputs (comp w) "currency") eqn:E1;
      [apply String.eqb_eq in E1; auto|].
    destruct ("cad" =? inputs (comp w) "currency") eqn:E2;
      [apply String.eqb_eq in E2; auto|].
    discriminate.
  - intros country Hc Ht Hm.
    rewrite (get_countryOfCurrency _ _ Hc), Ht.
    destruct (paymentMethod (comp w)); [reflexivity|reflexivity|congruence].
Qed.

(** X22.  After a change of the currency to usd or cad on the manual bank
    form, the token request of the next attempt carries the matching country
    (US or CA) and that currency. *)
Theorem the_bank_token_country_follows_the_currency
    (env : Env) (w : World) (country : string) :
  In (inputs (comp w) "currency", country) countryOfCurrency ->
  plaidToken (comp w) = None ->
  paymentMethod (comp w) = bank ->
  stripe env = StripeLoaded ->
  let c' := comp (snd (currencyChangeHandler w)) in
  exists data,
    token_requests (trace (snd (submit_attempt env c')))
    = [(BankAccount, data)]
    /\ In ("country", Some country) data
    /\ In ("currency", Some (inputs (comp w) "currency")) data.
Proof.
  intros Hc Ht Hm Hs c'. subst c'.
  rewrite currencyChangeHandler_cases, (get_countryOfCurrency _ _ Hc).
  rewrite Ht, Hm. cbn [snd comp].
  pose proof (submit_conduct env
                (set_input "billing-country" country (comp w))) as [S _].
  remember (submit_attempt env _) as r eqn:Hr. clear Hr.
  destruct (comp w) as [m l d tok inp].
  cbn [plaidToken paymentMethod inputs set_input] in *. subst m tok.
  rewrite Hs in S. destruct S as [S _].
  eexists. split; [exact S|].
  split; [left; reflexivity|right; left; reflexivity].
Qed.

Lemma the_bank_token_country_follows_the_currency_witness :
  let env := sample_env (TokenOk "btok_1") (Response true (JsonBody None)) in
  let c := set_input "currency" "cad" (sample_signup bank None) in
  let w := {| comp := c; heap := []; trace := [] |} in
  let c' := comp (snd (currencyChangeHandler w)) in
  In (inputs (comp w) "currency", "CA") countryOfCurrency
  /\ inputs c' "billing-country" = "CA"
  /\ exists data,
       token_requests (trace (snd (submit_attempt env c')))
       = [(BankAccount, data)]
       /\ In ("country", Some "CA") data
       /\ In ("currency", Some "cad") data.
Proof.
  intros env c w c'.
  assert (Hc : In (inputs (comp w) "currency", "CA") countryOfCurrency)
    by (right; left; reflexivity).
  exact (conj Hc (conj eq_refl
           (the_bank_token_country_follows_the_currency env w "CA" Hc
              eq_refl eq_refl eq_refl))).
Defined.

(** X23.  setInvalid on a rendered control leaves it with the message as its
    custom validity; an input event on that control clears the message, an
    input event on another control leaves it; the validity of the other
    controls is what it was. *)
Theorem editing_a_control_clears_its_mark_only
    (w : World) (field message target : string) :
  namedItem field (comp w) = true ->
  let w1 := snd (setInvalid field message w) in
  let w2 := snd (clearInvalidity target w1) in
  customValidity (trace w1) field = message
  /\ customValidity (trace w2) field
     = (if String.eqb target field then "" else message)
  /\ (forall other, other <> field -> other <> target ->
        customValidity (trace w2) other = customValidity (trace w) other).
Proof.
  intros Hn w1 w2. subst w1 w2.
  unfold setInvalid. rewrite bind_this, Hn, bind_emit.
  unfold clearInvalidity, emit, customValidity. cbn [snd trace].
  rewrite !fold_left_app. cbn [fold_left].
  rewrite String.eqb_refl. split; [reflexivity|]. split; [reflexivity|].
  intros other Ho Ht. rewrite !fold_left_app. cbn [fold_left].
  destruct (String.eqb_spec field other); [congruence|].
  destruct (String.eqb_spec target other); [congruence|reflexivity].
Qed.

Lemma editing_a_control_clears_its_mark_only_witness :
  let w := {| comp := sample_signup card None; heap := []; trace := [] |} in
  let w1 := snd (setInvalid "billing-zip" "Bad ZIP" w) in
  namedItem "billing-zip" (comp w) = true
  /\ customValidity (trace w1) "billing-zip" = "Bad ZIP"
  /\ customValidity (trace (snd (clearInvalidity "billing-city" w1)))
       "billing-zip" = "Bad ZIP"
  /\ customValidity (trace (snd (clearInvalidity "billing-zip" w1)))
       "billing-zip" = "".
Proof.
  intros w w1.
  destruct (editing_a_control_clears_its_mark_only w "billing-zip" "Bad ZIP"
              "billing-city" eq_refl) as (H1 & H2 & _).
  exact (conj eq_refl (conj H1 (conj H2 eq_refl))).
Defined.

Section FastToStringFacts.
Import NumberToString.
Open Scope Z_scope.

Lemma below_pow10_true p q n :
  below_pow10 p q n = true <->
  p * 10 ^ Z.max 0 (- n) < q * 10 ^ Z.max 0 n.
Proof.
  unfold below_pow10. destruct (Z.leb_spec 0 n).
  - rewrite Z.ltb_lt. replace (Z.max 0 (- n)) with 0 by lia.
    replace (Z.max 0 n) with n by lia. rewrite Z.pow_0_r, Z.mul_1_r.
    reflexivity.
  - rewrite Z.ltb_lt. replace (Z.max 0 (- n)) with (- n) by lia.
    replace (Z.max 0 n) with 0 by lia. rewrite Z.pow_0_r, Z.mul_1_r.
    reflexivity.
Qed.

Lemma below_pow10_mono p q n n' :
  0 <= p -> 0 < q -> n <= n' ->
  below_pow10 p q n = true -> below_pow10 p q n' = true.
Proof.
  intros Hp Hq Hn. rewrite !below_pow10_true. intros H.
  assert (A : 10 ^ Z.max 0 (- n') <= 10 ^ Z.max 0 (- n))
    by (apply Z.pow_le_mono_r; lia).
  assert (B : 10 ^ Z.max 0 n <= 10 ^ Z.max 0 n')
    by (apply Z.pow_le_mono_r; lia).
  assert (C : 0 < 10 ^ Z.max 0 (- n')) by (apply Z.pow_pos_nonneg; lia).
  assert (D : 0 < 10 ^ Z.max 0 n) by (apply Z.pow_pos_nonneg; lia).
  nia.
Qed.

Lemma exponent_skip p q (k : nat) : forall (fuel : nat) (n0 : Z),
  0 <= p -> 0 < q -> (k <= fuel)%nat ->
  below_pow10 p q (n0 + Z.of_nat k - 1) = false ->
  exponent fuel n0 p q = exponent (fuel - k) (n0 + Z.of_nat k) p q.
Proof.
  induction k as [|k IH]; intros fuel n0 Hp Hq Hk Hb.
  - rewrite Nat.sub_0_r, Z.add_0_r. reflexivity.
  - destruct fuel as [|fuel]; [lia|]. cbn [exponent].
    destruct (below_pow10 p q n0) eqn:E.
    + rewrite (below_pow10_mono p q n0 (n0 + Z.of_nat (S k) - 1)) in Hb;
        [discriminate|lia|lia|lia|exact E].
    + rewrite (IH fuel (n0 + 1)); try lia.
      * replace (n0 + 1 + Z.of_nat k) with (n0 + Z.of_nat (S k)) by lia.
        reflexivity.
      * replace (n0 + 1 + Z.of_nat k - 1) with (n0 + Z.of_nat (S k) - 1)
          by lia.
        exact Hb.
Qed.

Lemma FastToString_toString (x : spec_float) :
  FastToString.toString x = NumberToString.toString x.
Proof.
  destruct x as [s|s| |s m e]; try reflexivity.
  unfold FastToString.toString, NumberToString.toString.
  destruct (0 <=? e) eqn:He.
  - set (p := Z.pos m * 2 ^ e). set (g := FastToString.guess p 1).
    destruct ((-330 <=? g) && (g <=? 370) && negb (below_pow10 p 1 (g - 1)))
      eqn:C; [|reflexivity].
    apply andb_true_iff in C as [C C3]. apply andb_true_iff in C as [C1 C2].
    apply Z.leb_le in C1, C2. apply negb_true_iff in C3.
    rewrite (exponent_skip p 1 (Z.to_nat (g + 330)) 700 (-330)).
    + replace (-330 + Z.of_nat (Z.to_nat (g + 330))) with g by lia.
      reflexivity.
    + apply Z.leb_le in He. subst p.
      apply Z.mul_nonneg_nonneg; [lia|apply Z.pow_nonneg; lia].
    + lia.
    + lia.
    + replace (-330 + Z.of_nat (Z.to_nat (g + 330)) - 1) with (g - 1) by lia.
      exact C3.
  - set (p := Z.pos m). set (q := 2 ^ (- e)).
    set (g := FastToString.guess p q).
    destruct ((-330 <=? g) && (g <=? 370) && negb (below_pow10 p q (g - 1)))
      eqn:C; [|reflexivity].
    apply andb_true_iff in C as [C C3]. apply andb_true_iff in C as [C1 C2].
    apply Z.leb_le in C1, C2. apply negb_true_iff in C3.
    rewrite (exponent_skip p q (Z.to_nat (g + 330)) 700 (-330)).
    + replace (-330 + Z.of_nat (Z.to_nat (g + 330))) with g by lia.
      reflexivity.
    + subst p. lia.
    + apply Z.leb_gt in He. subst q. apply Z.pow_pos_nonneg; lia.
    + lia.
    + replace (-330 + Z.of_nat (Z.to_nat (g + 330)) - 1) with (g - 1) by lia.
      exact C3.
Qed.

Lemma all_from_spec (P : Z -> bool) (n : nat) : forall z x,
  all_from P n z = true -> z <= x < z + Z.of_nat n -> P x = true.
Proof.
  induction n as [|n IH]; intros z x H Hx; [lia|].
  cbn [all_from] in H. apply andb_true_iff in H as [H0 H].
  destruct (Z.eq_dec x z) as [->|Hne]; [exact H0|].
  apply (IH (z + 1)); [exact H|lia].
Qed.

End FastToStringFacts.

(** * The compensation calculator and the dues *)

(** Checks of the value sanitization against what a browser keeps. *)
Example valid_floating_point_number_examples :
  map NumberInput.sanitize
      [ "104000"; "-0.5"; ".5"; "1e+21"; "1.5e-7"; "NaN"; "Infinity";
        "-Infinity"; "5."; "1e"; "+1"; "1,000"; "" ]
  = [ "104000"; "-0.5"; ".5"; "1e+21"; "1.5e-7"; ""; ""; ""; ""; ""; "";
      ""; "" ].
Proof. vm_compute. reflexivity. Qed.

Section CalculatorFacts.

Lemma dues_of_zero (c : Signup) :
  render_dues (set_input "total-compensation" "0" c) = "$0".
Proof. vm_compute. reflexivity. Qed.

End CalculatorFacts.

(** * What a control of type number hands to the calculator *)

(** Rounding a mantissa that is not negative never gives NaN. *)
Section RoundingFacts.
Open Scope Z_scope.

Lemma shr_1_nonneg (mrs : shr_record) :
  0 <= shr_m mrs -> 0 <= shr_m (shr_1 mrs).
Proof. destruct mrs as [[|[p|p|]|p] r s]; cbn; lia. Qed.

Lemma iter_shr_1_nonneg (p : positive) : forall mrs,
  0 <= shr_m mrs -> 0 <= shr_m (SpecFloat.iter_pos shr_1 p mrs).
Proof.
  induction p as [p IH|p IH|]; intros mrs H; cbn [SpecFloat.iter_pos];
    auto using shr_1_nonneg.
Qed.

Lemma shr_nonneg (mrs : shr_record) (e n : Z) :
  0 <= shr_m mrs -> 0 <= shr_m (fst (shr mrs e n)).
Proof.
  intros H. destruct n; cbn [shr fst]; auto using iter_shr_1_nonneg.
Qed.

Lemma shr_fexp_nonneg (m e : Z) (l : location) :
  0 <= m -> 0 <= shr_m (fst (shr_fexp Number.prec Number.emax m e l)).
Proof.
  intros H. unfold shr_fexp. apply shr_nonneg.
  destruct l as [|[| |]]; exact H.
Qed.

Lemma round_nearest_even_nonneg (m : Z) (l : location) :
  0 <= m -> 0 <= round_nearest_even m l.
Proof.
  intros H. destruct l as [|[| |]]; cbn [round_nearest_even]; try lia.
  destruct (Z.even m); lia.
Qed.

Lemma binary_round_aux_is_a_number (s : bool) (m e : Z) (l : location) :
  0 <= m ->
  Number.isNaN (binary_round_aux Number.prec Number.emax s m e l) = false.
Proof.
  intros H. unfold binary_round_aux.
  pose proof (shr_fexp_nonneg m e l H) as H1.
  destruct (shr_fexp Number.prec Number.emax m e l) as [mrs' e'].
  cbn [fst] in H1.
  pose proof (shr_fexp_nonneg _ e' loc_Exact
                (round_nearest_even_nonneg _ (loc_of_shr_record mrs') H1))
    as H2.
  destruct (shr_fexp Number.prec Number.emax _ e' loc_Exact) as [mrs'' e''].
  cbn [fst] in H2.
  destruct (shr_m mrs'') as [|p|p]; [reflexivity| |lia].
  destruct (e'' <=? Number.emax - Number.prec); reflexivity.
Qed.

Lemma binary_normalize_is_a_number (m e : Z) (szero : bool) :
  Number.isNaN (binary_normalize Number.prec Number.emax m e szero) = false.
Proof.
  destruct m as [|p|p]; [reflexivity| |];
    cbn [binary_normalize]; unfold binary_round;
    destruct (shl_align _ _ _) as [mz ez];
    apply binary_round_aux_is_a_number; lia.
Qed.

Lemma of_ratio_is_a_number (s : bool) (p q : Z) :
  0 <= p -> 0 < q -> Number.isNaN (Number.of_ratio s p q) = false.
Proof.
  intros Hp Hq. unfold Number.of_ratio.
  set (k := Z.max 0 (64 + Z.log2 q - Z.log2 p)).
  pose proof (Z.div_eucl_eq (Z.shiftl p k) q ltac:(lia)) as E.
  pose proof (Z.mod_pos_bound (Z.shiftl p k) q Hq) as B.
  unfold Z.modulo in B.
  destruct (Z.div_eucl (Z.shiftl p k) q) as [m r].
  apply binary_round_aux_is_a_number.
  assert (0 <= Z.shiftl p k) by (apply Z.shiftl_nonneg; exact Hp).
  nia.
Qed.

Lemma of_decimal_is_a_number (s : bool) (m e : Z) :
  0 <= m -> Number.isNaN (Number.of_decimal s m e) = false.
Proof.
  intros H. unfold Number.of_decimal.
  destruct (m =? 0); [reflexivity|].
  destruct (0 <=? e) eqn:He.
  - destruct (400 <? e); [reflexivity|].
    apply binary_normalize_is_a_number.
  - destruct (Z.log2 m + 1 + 3 * e <=? -1076); [reflexivity|].
    apply of_ratio_is_a_number; [exact H|].
    apply Z.leb_gt in He. apply Z.pow_pos_nonneg; lia.
Qed.

End RoundingFacts.

(** The scanner of StringToNumber follows the one of the number control:
    what the control keeps is a StrDecimalLiteral. *)
Section NumberInputFacts.
Import StringToNumber NumberInput.
Open Scope Z_scope.

Lemma is_digit_cases (c : ascii) :
  is_digit c = true ->
  In c ["0"; "1"; "2"; "3"; "4"; "5"; "6"; "7"; "8"; "9"]%char.
Proof.
  destruct c as [[] [] [] [] [] [] [] []]; intros H;
    vm_compute in H; try discriminate H;
    repeat first [left; reflexivity | right].
Qed.

Lemma digit_of_code (c : ascii) :
  is_digit c = true -> exists d, 0 <= d /\ digit 10 (code c) = Some d.
Proof.
  intros H. apply is_digit_cases in H.
  repeat (destruct H as [<-|H];
          [eexists; split; [|vm_compute; reflexivity]; lia|]).
  destruct H.
Qed.

Lemma digit_of_other (c : ascii) :
  is_digit c = false -> digit 10 (code c) = None.
Proof.
  destruct c as [[] [] [] [] [] [] [] []]; intros H;
    vm_compute in H; try discriminate H; vm_compute; reflexivity.
Qed.

Lemma digits_skip_digits (l : list ascii) : forall acc n,
  0 <= acc ->
  exists acc' n',
    digits 10 (map code l) acc n = (acc', n', map code (skip_digits l))
    /\ 0 <= acc' /\ n <= n'.
Proof.
  induction l as [|c l IH]; intros acc n Hacc.
  - exists acc, n. repeat split; lia.
  - cbn [map digits skip_digits]. destruct (is_digit c) eqn:D.
    + destruct (digit_of_code c D) as (d & Hd & ->).
      destruct (IH (10 * acc + d) (n + 1)) as (acc' & n' & E & ? & ?);
        [lia|].
      exists acc', n'. rewrite E. repeat split; lia.
    + rewrite (digit_of_other c D). exists acc, n. repeat split; lia.
Qed.

Lemma digits_some_digits (l rest : list ascii) (acc n : Z) :
  some_digits l = Some rest -> 0 <= acc ->
  exists acc' n',
    digits 10 (map code l) acc n = (acc', n', map code rest)
    /\ 0 <= acc' /\ n < n'.
Proof.
  destruct l as [|c l]; [discriminate|]. cbn [some_digits].
  destruct (is_digit c) eqn:D; [|discriminate]. intros [= <-] Hacc.
  cbn [map digits]. destruct (digit_of_code c D) as (d & Hd & ->).
  destruct (digits_skip_digits l (10 * acc + d) (n + 1))
    as (acc' & n' & E & ? & ?); [lia|].
  exists acc', n'. rewrite E. repeat split; lia.
Qed.

Lemma exponent_part_signed (c : Z) (rest rest1 rest2 : list Z)
    (neg : bool) (v n : Z) :
  (c =? 101) || (c =? 69) = true ->
  match rest with
  | 43 :: r => (false, r)
  | 45 :: r => (true, r)
  | _ => (false, rest)
  end = (neg, rest1) ->
  digits 10 rest1 0 0 = (v, n, rest2) ->
  0 < n ->
  exponent_part (c :: rest) = Some (if neg then - v else v, rest2).
Proof.
  intros Hc Hs Hd Hn. unfold exponent_part. rewrite Hc, Hs, Hd.
  apply Z.ltb_lt in Hn. rewrite Hn. reflexivity.
Qed.

Lemma exponent_of_valid (l : list ascii) :
  exponent_opt l = Some [] ->
  exists e, exponent_part (map code l) = Some (e, []).
Proof.
  destruct l as [|c rest]; [exists 0; reflexivity|].
  cbn [exponent_opt].
  destruct (Ascii.eqb c "e" || Ascii.eqb c "E")%char eqn:E; [|discriminate].
  assert (Hc : (code c =? 101) || (code c =? 69) = true).
  { apply orb_true_iff in E as [E|E]; apply Ascii.eqb_eq in E; subst c;
      reflexivity. }
  destruct rest as [|s rest']; [discriminate|].
  destruct (Ascii.eqb s "-" || Ascii.eqb s "+")%char eqn:S; intros H.
  - destruct (digits_some_digits rest' [] 0 0 H) as (v & n & Hd & _ & Hn);
      [lia|].
    apply orb_true_iff in S as [S|S]; apply Ascii.eqb_eq in S; subst s;
      eexists; cbn [map];
      eapply exponent_part_signed; eauto; reflexivity.
  - destruct (digits_some_digits (s :: rest') [] 0 0 H)
      as (v & n & Hd & _ & Hn); [lia|].
    assert (D : is_digit s = true).
    { cbn [some_digits] in H. destruct (is_digit s); [reflexivity|].
      discriminate. }
    apply is_digit_cases in D. cbn [map] in *.
    repeat (destruct D as [<-|D];
            [eexists; eapply exponent_part_signed; eauto; reflexivity|]).
    destruct D.
Qed.

Lemma unsigned_decimal_literal (s : bool) (l rest1 rest2 : list Z)
    (int n1 mant n2 e : Z) :
  strip_prefix Infinity l = None ->
  digits 10 l 0 0 = (int, n1, rest1) ->
  match rest1 with
  | 46 :: r => digits 10 r int 0
  | _ => (int, 0, rest1)
  end = (mant, n2, rest2) ->
  0 < n1 + n2 ->
  exponent_part rest2 = Some (e, []) ->
  unsigned_decimal s l = Number.of_decimal s mant (e - n2).
Proof.
  intros Hi H1 H2 Hn He. unfold unsigned_decimal.
  rewrite Hi, H1, H2, He. apply Z.ltb_lt in Hn. rewrite Hn. reflexivity.
Qed.

Lemma skip_digits_app (l : list ascii) :
  exists ds, l = ds ++ skip_digits l
             /\ Forall (fun c => is_digit c = true) ds.
Proof.
  induction l as [|c l (ds & E & F)].
  { exists []. split; [reflexivity|constructor]. }
  cbn [skip_digits]. destruct (is_digit c) eqn:D.
  - exists (c :: ds). split; [cbn; f_equal; exact E|constructor; assumption].
  - exists []. split; [reflexivity|constructor].
Qed.

Lemma some_digits_app (l rest : list ascii) :
  some_digits l = Some rest ->
  exists d ds, l = (d :: ds) ++ rest
               /\ Forall (fun c => is_digit c = true) (d :: ds).
Proof.
  destruct l as [|c l]; [discriminate|]. cbn [some_digits].
  destruct (is_digit c) eqn:D; [|discriminate]. intros [= <-].
  destruct (skip_digits_app l) as (ds & E & F).
  exists c, ds. split; [cbn; f_equal; exact E|constructor; assumption].
Qed.

Lemma digits_end_in_digit (d : ascii) (ds : list ascii) :
  Forall (fun c => is_digit c = true) (d :: ds) -> ends_in_digit (d :: ds).
Proof.
  intros F. destruct (exists_last (l := d :: ds)) as (l' & a & E);
    [discriminate|].
  exists l', a. split; [exact E|]. rewrite E in F.
  apply Forall_app in F as [_ F]. inversion F. assumption.
Qed.

Lemma ends_in_digit_app (p l : list ascii) :
  ends_in_digit l -> ends_in_digit (p ++ l).
Proof.
  intros (l' & d & -> & D). exists (p ++ l'), d.
  split; [apply app_assoc|exact D].
Qed.

Lemma some_digits_end (l rest : list ascii) :
  some_digits l = Some rest -> rest = [] \/ ends_in_digit rest ->
  ends_in_digit l.
Proof.
  intros H R. destruct (some_digits_app l rest H) as (d & ds & -> & F).
  destruct R as [->|R].
  - rewrite app_nil_r. apply digits_end_in_digit, F.
  - apply ends_in_digit_app, R.
Qed.

Lemma exponent_end (l : list ascii) :
  exponent_opt l = Some [] -> l = [] \/ ends_in_digit l.
Proof.
  destruct l as [|c rest]; [left; reflexivity|]. intros H. right. revert H.
  cbn [exponent_opt].
  destruct (Ascii.eqb c "e" || Ascii.eqb c "E")%char; [|discriminate].
  destruct rest as [|s rest']; [discriminate|].
  destruct (Ascii.eqb s "-" || Ascii.eqb s "+")%char; intros H.
  - apply (ends_in_digit_app [c; s]).
    eapply some_digits_end; [exact H|left; reflexivity].
  - apply (ends_in_digit_app [c]).
    eapply some_digits_end; [exact H|left; reflexivity].
Qed.

Lemma some_digits_head (l rest : list ascii) :
  some_digits l = Some rest ->
  exists c r, l = c :: r /\ is_digit c = true.
Proof.
  destruct l as [|c l]; [discriminate|]. cbn [some_digits].
  destruct (is_digit c) eqn:D; [|discriminate]. eauto.
Qed.

Lemma not_Infinity (c : ascii) (r : list Z) :
  c = "."%char \/ is_digit c = true ->
  strip_prefix Infinity (code c :: r) = None.
Proof.
  intros [->|D]; [reflexivity|]. apply is_digit_cases in D.
  repeat (destruct D as [<-|D]; [reflexivity|]). destruct D.
Qed.

(** What follows the optional minus sign of a valid floating-point
    number: it starts with a digit or with the full stop, ends in a digit,
    and StringToNumber reads it as a decimal literal. *)
Lemma valid_number_after_sign (l1 : list ascii) :
  (let '(int, l2) := match some_digits l1 with
                     | Some rest => (true, rest)
                     | None => (false, l1)
                     end in
   let after_fraction :=
     match l2 with
     | c :: rest =>
         if Ascii.eqb c "." then some_digits rest
         else if int then Some l2 else None
     | [] => if int then Some [] else None
     end in
   match after_fraction with
   | Some l3 =>
       match exponent_opt l3 with
       | Some [] => true
       | _ => false
       end
   | None => false
   end) = true ->
  (exists c r, l1 = c :: r /\ (c = "."%char \/ is_digit c = true))
  /\ ends_in_digit l1
  /\ exists m e, 0 <= m /\ forall s,
        unsigned_decimal s (map code l1) = Number.of_decimal s m e.
Proof.
  intros H.
  destruct (some_digits l1) as [l2|] eqn:H1; cbv beta iota zeta in H.
  - destruct (some_digits_head l1 l2 H1) as (c1 & r1 & E1 & D1).
    destruct (digits_some_digits l1 l2 0 0 H1) as (int & n1 & Hd & Hi & Hn);
      [lia|].
    assert (Hinf : strip_prefix Infinity (map code l1) = None)
      by (rewrite E1; apply not_Infinity; auto).
    split; [eauto|].
    destruct l2 as [|c rest].
    + split; [eapply some_digits_end; eauto|].
      exists int, (0 - 0). split; [exact Hi|]. intros s.
      eapply unsigned_decimal_literal; eauto; lia.
    + destruct (Ascii.eqb c ".") eqn:Ec.
      * apply Ascii.eqb_eq in Ec. subst c.
        destruct (some_digits rest) as [l3|] eqn:H2; [|discriminate].
        destruct (exponent_opt l3) as [[|]|] eqn:H3; try discriminate.
        destruct (digits_some_digits rest l3 int 0 H2 Hi)
          as (mant & n2 & Hd2 & Hm & Hn2).
        destruct (exponent_of_valid l3 H3) as (e & He).
        split.
        { eapply some_digits_end; [exact H1|right].
          apply (ends_in_digit_app ["."%char]).
          eapply some_digits_end; [exact H2|]. apply exponent_end, H3. }
        exists mant, (e - n2). split; [exact Hm|]. intros s.
        eapply unsigned_decimal_literal; eauto; lia.
      * destruct (exponent_opt (c :: rest)) as [[|]|] eqn:H3;
          try discriminate.
        destruct (exponent_of_valid _ H3) as (e & He).
        split.
        { eapply some_digits_end; [exact H1|]. apply exponent_end, H3. }
        exists int, (e - 0). split; [exact Hi|]. intros s.
        assert (Hc : c = "e"%char \/ c = "E"%char).
        { cbn [exponent_opt] in H3.
          destruct (Ascii.eqb c "e" || Ascii.eqb c "E")%char eqn:E;
            [|discriminate].
          apply orb_true_iff in E as [E|E]; apply Ascii.eqb_eq in E; auto. }
        eapply unsigned_decimal_literal; eauto; [|lia].
        destruct Hc as [->| ->]; reflexivity.
  - destruct l1 as [|c rest]; [discriminate|].
    destruct (Ascii.eqb c ".") eqn:Ec; [|discriminate].
    apply Ascii.eqb_eq in Ec. subst c.
    destruct (some_digits rest) as [l3|] eqn:H2; [|discriminate].
    destruct (exponent_opt l3) as [[|]|] eqn:H3; try discriminate.
    destruct (digits_some_digits rest l3 0 0 H2)
      as (mant & n2 & Hd2 & Hm & Hn2); [lia|].
    destruct (exponent_of_valid l3 H3) as (e & He).
    split; [eauto|]. split.
    { apply (ends_in_digit_app ["."%char]).
      eapply some_digits_end; [exact H2|]. apply exponent_end, H3. }
    exists mant, (e - n2). split; [exact Hm|]. intros s.
    eapply (unsigned_decimal_literal s _ _ _ 0 0); eauto;
      try reflexivity; try lia.
Qed.

Lemma digit_in_literal_codes (c : ascii) :
  is_digit c = true -> In (code c) literal_codes.
Proof.
  intros D. apply is_digit_cases in D.
  repeat (destruct D as [<-|D];
          [vm_compute; repeat first [left; reflexivity | right]|]).
  destruct D.
Qed.

Lemma no_white_space_at (z : Z) (rest : list Z) :
  In z literal_codes ->
  first_match StrWhiteSpaceChar (z :: rest) = None
  /\ first_match (map (@rev Z) StrWhiteSpaceChar) (z :: rest) = None.
Proof.
  intros H.
  repeat (destruct H as [<-|H]; [split; reflexivity|]). destruct H.
Qed.

(** Nothing is trimmed off a text that starts and ends with such a
    character. *)
Lemma trim_literal (l l' r : list Z) (z z' : Z) :
  l = z :: r -> l = l' ++ [z'] ->
  In z literal_codes -> In z' literal_codes ->
  trim l = l.
Proof.
  intros Hhead Hlast Hz Hz'. unfold trim.
  assert (E1 : skip StrWhiteSpaceChar (length l) l = l).
  { rewrite Hhead. cbn [length skip].
    rewrite (proj1 (no_white_space_at z r Hz)). reflexivity. }
  rewrite E1.
  assert (E2 : skip (map (@rev Z) StrWhiteSpaceChar) (length l) (rev l)
               = rev l).
  { rewrite Hlast at 2 3. rewrite rev_unit. rewrite Hhead at 1.
    cbn [length skip].
    rewrite (proj2 (no_white_space_at z' (rev l') Hz')). reflexivity. }
  rewrite E2. apply rev_involutive.
Qed.

(** A literal that starts with 0 and is a number has no radix prefix. *)
Lemma no_radix_prefix (c : ascii) (r : list Z) :
  Number.isNaN (unsigned_decimal false (48 :: code c :: r)) = false ->
  StrNumericLiteral (48 :: code c :: r)
  = unsigned_decimal false (48 :: code c :: r).
Proof.
  destruct c as [[] [] [] [] [] [] [] []]; intros H;
    first [reflexivity | vm_compute in H; discriminate H].
Qed.

(** The Number of a valid floating-point number is the one of a decimal
    literal. *)
Lemma Number_of_valid_floating_point_number (value : string) :
  valid_floating_point_number value = true ->
  exists s m e, 0 <= m /\ Number_ (Some value) = Number.of_decimal s m e.
Proof.
  intros H.
  pose proof (valid_number_after_sign
                match list_ascii_of_string value with
                | c :: rest =>
                    if Ascii.eqb c "-" then rest
                    else list_ascii_of_string value
                | [] => list_ascii_of_string value
                end H) as B.
  unfold Number_, StringToNumber.
  destruct (list_ascii_of_string value) as [|c rest].
  { destruct B as ((c & r & E & _) & _). discriminate E. }
  destruct (Ascii.eqb c "-") eqn:Ec.
  - apply Ascii.eqb_eq in Ec. subst c.
    destruct B as ((c & r & -> & Hc) & (l' & d & El & Hd) & m & e & Hm & B).
    exists true, m, e. split; [exact Hm|]. rewrite <- B.
    rewrite (trim_literal _ (45 :: map code l') (map code (c :: r)) 45
               (code d)).
    + reflexivity.
    + reflexivity.
    + rewrite El. cbn [map]. rewrite map_app. reflexivity.
    + vm_compute. auto.
    + apply digit_in_literal_codes, Hd.
  - destruct B as ((c0 & r & [= <- <-] & Hc) & (l' & d & El & Hd)
                   & m & e & Hm & B).
    exists false, m, e. split; [exact Hm|]. rewrite <- B.
    rewrite (trim_literal _ (map code l') (map code rest) (code c) (code d)).
    + clear El. cbn [map]. cbn [map] in B.
      destruct Hc as [->|Hc]; [reflexivity|].
      apply is_digit_cases in Hc. destruct Hc as [<-|Hc].
      * destruct rest as [|c2 rest2]; [reflexivity|]. cbn [map] in *.
        apply no_radix_prefix. rewrite B.
        apply of_decimal_is_a_number, Hm.
      * repeat (destruct Hc as [<-|Hc]; [reflexivity|]). destruct Hc.
    + reflexivity.
    + rewrite El, map_app. reflexivity.
    + destruct Hc as [->|Hc]; [vm_compute; auto|].
      apply digit_in_literal_codes, Hc.
    + apply digit_in_literal_codes, Hd.
Qed.

(** The value of a control of type number is never read as NaN. *)
Lemma Number_of_sanitized (typed : string) :
  Number.isNaN (Number_ (Some (sanitize typed))) = false.
Proof.
  unfold sanitize.
  destruct (valid_floating_point_number typed) eqn:V; [|reflexivity].
  destruct (Number_of_valid_floating_point_number typed V)
    as (s & m & e & Hm & ->).
  apply of_decimal_is_a_number, Hm.
Qed.

End NumberInputFacts.

Section SanitizedFacts.

Lemma empty_value_counts_as_zero (kc : Calculator * Signup) :
  (isFinite (hoursPerWeek (fst kc)) = true ->
   inputs (snd (hourlyRateChangeHandler "" kc)) "total-compensation" = "0"
   /\ render_dues (snd (hourlyRateChangeHandler "" kc)) = "$0")
  /\ (isFinite (hourlyRate (fst kc)) = true ->
      inputs (snd (hoursPerWeekChangeHandler "" kc)) "total-compensation"
      = "0"
      /\ render_dues (snd (hoursPerWeekChangeHandler "" kc)) = "$0").
Proof.
  unfold hourlyRateChangeHandler, hoursPerWeekChangeHandler,
    recalculateTotalComp, totalComp.
  cbn [snd fst hourlyRate hoursPerWeek].
  change (Number_ (Some "")) with (S754_zero false).
  destruct kc as [[rate hours] c]. cbn [fst snd hourlyRate hoursPerWeek].
  split; intros F.
  - destruct hours as [sh| | |sh mh eh]; try discriminate;
      (split; [reflexivity|apply dues_of_zero]).
  - destruct rate as [sr| | |sr mr er]; try discriminate;
      (split; [reflexivity|apply dues_of_zero]).
Qed.

End SanitizedFacts.

(** X24.  The rate and the hours controls are of type number, so the value
    that their handlers read is the text sanitized.  Whatever the text, the
    Number of that value is not NaN: the calculator never holds NaN as a
    rate or as the hours.  A text that is not a valid floating-point number
    reaches the handler as the empty string and counts as 0: with the other
    factor finite, total-compensation becomes "0" and the dues shown are
    "$0". *)
Theorem text_that_is_not_a_number_counts_as_zero
    (typed : string) (kc : Calculator * Signup) :
  let value := NumberInput.sanitize typed in
  let by_rate := hourlyRateChangeHandler value kc in
  let by_hours := hoursPerWeekChangeHandler value kc in
  Number.isNaN (hourlyRate (fst by_rate)) = false
  /\ Number.isNaN (hoursPerWeek (fst by_hours)) = false
  /\ (NumberInput.valid_floating_point_number typed = false ->
      value = ""
      /\ (isFinite (hoursPerWeek (fst kc)) = true ->
          inputs (snd by_rate) "total-compensation" = "0"
          /\ render_dues (snd by_rate) = "$0")
      /\ (isFinite (hourlyRate (fst kc)) = true ->
          inputs (snd by_hours) "total-compensation" = "0"
          /\ render_dues (snd by_hours) = "$0")).
Proof.
  intros value by_rate by_hours. subst by_rate by_hours.
  split; [apply Number_of_sanitized|].
  split; [apply Number_of_sanitized|].
  intros V.
  assert (E : value = "") by (subst value; unfold NumberInput.sanitize;
                              rewrite V; reflexivity).
  rewrite E. split; [reflexivity|]. apply empty_value_counts_as_zero.
Qed.

Lemma text_that_is_not_a_number_counts_as_zero_witness :
  let kc := (new_calculator, sample_signup plaid None) in
  let value := NumberInput.sanitize "12 an hour" in
  value = ""
  /\ inputs (snd kc) "total-compensation" = "250000"
  /\ Number.isNaN (hourlyRate (fst (hourlyRateChangeHandler value kc)))
     = false
  /\ inputs (snd (hourlyRateChangeHandler value kc)) "total-compensation"
     = "0"
  /\ render_dues (snd (hourlyRateChangeHandler value kc)) = "$0".
Proof.
  intros kc value.
  destruct (text_that_is_not_a_number_counts_as_zero "12 an hour" kc)
    as (N & _ & H).
  destruct (H eq_refl) as (_ & Hrate & _).
  exact (conj eq_refl (conj eq_refl (conj N (Hrate eq_refl)))).
Defined.

(** X25.  An empty rate or an empty hours value counts as 0: with the other
    factor finite, total-compensation becomes "0" and the dues shown are
    "$0". *)
Theorem an_empty_rate_or_hours_gives_zero (kc : Calculator * Signup) :
  isFinite (hourlyRate (fst kc)) = true ->
  isFinite (hoursPerWeek (fst kc)) = true ->
  let by_rate := snd (hourlyRateChangeHandler "" kc) in
  let by_hours := snd (hoursPerWeekChangeHandler "" kc) in
  inputs by_rate "total-compensation" = "0"
  /\ render_dues by_rate = "$0"
  /\ inputs by_hours "total-compensation" = "0"
  /\ render_dues by_hours = "$0".
Proof.
  intros Hr Hh by_rate by_hours. subst by_rate by_hours.
  unfold hourlyRateChangeHandler, hoursPerWeekChangeHandler,
    recalculateTotalComp, totalComp.
  cbn [snd fst hourlyRate hoursPerWeek].
  change (Number_ (Some "")) with (S754_zero false).
  destruct kc as [[rate hours] c]. cbn [fst snd hourlyRate hoursPerWeek] in *.
  destruct rate as [sr| | |sr mr er]; try discriminate;
    destruct hours as [sh| | |sh mh eh]; try discriminate;
    repeat split; try apply dues_of_zero; reflexivity.
Qed.

Lemma an_empty_rate_or_hours_gives_zero_witness :
  let kc := (new_calculator, sample_signup plaid None) in
  isFinite (hourlyRate (fst kc)) = true
  /\ isFinite (hoursPerWeek (fst kc)) = true
  /\ inputs (snd (hoursPerWeekChangeHandler "" kc)) "total-compensation"
     = "0".
Proof.
  intros kc.
  destruct (an_empty_rate_or_hours_gives_zero kc eq_refl eq_refl)
    as (_ & _ & H & _).
  exact (conj eq_refl (conj eq_refl H)).
Defined.

Section BoundedChecks.
Import NumberToString.
Open Scope Z_scope.

Lemma products_checked :
  all_from (fun hours => all_from (product_is_exact hours) 101 0) 61 0 = true.
Proof. vm_compute. reflexivity. Qed.

Lemma dues_steps_checked : all_from dues_step_at 1000 1 = true.
Proof. vm_compute. reflexivity. Qed.

Lemma dues_are_the_quotient_spec (n : Z) :
  dues_are_the_quotient n = true ->
  formattedDues (Some (string_of_Z n))
  = String.append "$" (string_of_Z (n / 1200)).
Proof.
  unfold dues_are_the_quotient, formattedDues. intros H.
  apply andb_true_iff in H as [H1 H2]. rewrite H1.
  rewrite FastToString_toString in H2. apply String.eqb_eq in H2.
  rewrite H2. reflexivity.
Qed.

End BoundedChecks.

(** X26.  For every whole hourly rate from 0 to 100 and every whole number
    of hours per week from 0 to 60 (each pair is computed), entering the
    rate and the hours sets total-compensation to the decimal text of
    rate * hours * 52, and the dues shown are the dues of that text. *)
Theorem the_calculator_is_exact_on_whole_numbers
    (rate hours : Z) (kc : Calculator * Signup) :
  (0 <= rate <= 100)%Z ->
  (0 <= hours <= 60)%Z ->
  let after :=
    hoursPerWeekChangeHandler (NumberToString.string_of_Z hours)
      (hourlyRateChangeHandler (NumberToString.string_of_Z rate) kc) in
  inputs (snd after) "total-compensation"
  = NumberToString.string_of_Z (rate * hours * 52)
  /\ render_dues (snd after)
     = formattedDues (Some (NumberToString.string_of_Z (rate * hours * 52))).
Proof.
  intros Hr Hh after. subst after.
  assert (P : product_is_exact hours rate = true).
  { pose proof products_checked as C.
    apply (all_from_spec _ 61 0 hours) in C; [|lia].
    apply (all_from_spec _ 101 0 rate) in C; [exact C|lia]. }
  unfold product_is_exact in P. apply andb_true_iff in P as [P V].
  rewrite FastToString_toString in P. apply String.eqb_eq in P.
  unfold hourlyRateChangeHandler, hoursPerWeekChangeHandler,
    recalculateTotalComp, totalComp, render_dues.
  cbn [snd fst hourlyRate hoursPerWeek inputs set_input].
  rewrite String.eqb_refl, P. unfold NumberInput.sanitize. rewrite V.
  split; reflexivity.
Qed.

Lemma the_calculator_is_exact_on_whole_numbers_witness :
  let kc := (new_calculator, sample_signup plaid None) in
  let after := hoursPerWeekChangeHandler "40"
                 (hourlyRateChangeHandler "50" kc) in
  (0 <= 50 <= 100)%Z /\ (0 <= 40 <= 60)%Z
  /\ inputs (snd after) "total-compensation" = "104000".
Proof.
  intros kc after.
  assert (Hr : (0 <= 50 <= 100)%Z) by lia.
  assert (Hh : (0 <= 40 <= 60)%Z) by lia.
  destruct (the_calculator_is_exact_on_whole_numbers 50 40 kc Hr Hh)
    as [H _].
  exact (conj Hr (conj Hh H)).
Defined.

(** X27.  For every k from 1 to 1000 (each one is computed), the dues of the
    whole compensation 1200 * k are "$k" and those of 1200 * k - 1 are
    "$(k - 1)": the display steps up exactly at the multiples of 1200. *)
Theorem dues_rise_by_one_at_every_multiple_of_1200 (k : Z) :
  (1 <= k <= 1000)%Z ->
  formattedDues (Some (NumberToString.string_of_Z (1200 * k - 1)))
  = String.append "$" (NumberToString.string_of_Z (k - 1))
  /\ formattedDues (Some (NumberToString.string_of_Z (1200 * k)))
     = String.append "$" (NumberToString.string_of_Z k).
Proof.
  intros Hk.
  assert (P : dues_step_at k = true).
  { pose proof dues_steps_checked as C.
    apply (all_from_spec _ 1000 1 k) in C; [exact C|lia]. }
  unfold dues_step_at in P. apply andb_true_iff in P as [P1 P2].
  apply dues_are_the_quotient_spec in P1, P2.
  replace ((1200 * k - 1) / 1200)%Z with (k - 1)%Z in P1
    by (apply (Z.div_unique _ _ _ 1199); lia).
  replace ((1200 * k) / 1200)%Z with k in P2
    by (apply (Z.div_unique _ _ _ 0); lia).
  split; assumption.
Qed.

Lemma dues_rise_by_one_at_every_multiple_of_1200_witness :
  (1 <= 208 <= 1000)%Z
  /\ formattedDues (Some "249599") = "$207"
  /\ formattedDues (Some "249600") = "$208".
Proof.
  assert (Hk : (1 <= 208 <= 1000)%Z) by lia.
  exact (conj Hk (dues_rise_by_one_at_every_multiple_of_1200 208 Hk)).
Defined.

(** X28.  For every list of required fields and every labelled control but
    job-title, the control is required exactly when its title has no
    " (optional)" suffix.  The job-title control, whose template binds
    [required] as an attribute and not as a boolean attribute, always has
    the attribute and so is always required, also when it is not in the list
    and its title says " (optional)". *)
Theorem optional_labels_and_required_controls
    (REQUIRED_FIELDS : list string) (name : string) :
  In name labelledFields ->
  (name <> "job-title" ->
   (required REQUIRED_FIELDS name = true
    <-> optionalLabel REQUIRED_FIELDS name = ""))
  /\ required REQUIRED_FIELDS "job-title" = true
  /\ (~ In "job-title" REQUIRED_FIELDS ->
      optionalLabel REQUIRED_FIELDS "job-title" = " (optional)").
Proof.
  intros Hin. split; [|split].
  - intros Hne. unfold required, optionalLabel.
    unfold labelledFields in Hin. cbn [In] in Hin.
    repeat (destruct Hin as [<-|Hin];
            [try congruence;
             destruct (includes REQUIRED_FIELDS _);
             cbn; split; congruence|]).
    destruct Hin.
  - unfold required. cbn.
    destruct (includes REQUIRED_FIELDS "job-title"); reflexivity.
  - intros Hout. unfold optionalLabel.
    destruct (includes REQUIRED_FIELDS "job-title") eqn:E; [|reflexivity].
    apply includes_In in E. contradiction.
Qed.

Lemma optional_labels_and_required_controls_witness :
  let REQUIRED_FIELDS := [ "personal-email"; "signature" ] in
  In "team" labelledFields
  /\ optionalLabel REQUIRED_FIELDS "team" = " (optional)"
  /\ required REQUIRED_FIELDS "team" = false
  /\ optionalLabel REQUIRED_FIELDS "job-title" = " (optional)"
  /\ required REQUIRED_FIELDS "job-title" = true.
Proof.
  intros REQUIRED_FIELDS.
  assert (Hin : In "team" labelledFields) by (vm_compute; tauto).
  destruct (optional_labels_and_required_controls REQUIRED_FIELDS "team" Hin)
    as (_ & Hjob & _).
  exact (conj Hin (conj eq_refl (conj eq_refl (conj eq_refl Hjob)))).
Defined.

Section LoginFacts.
Import URLSearchParams.

Lemma has_app name l l' : has name (l ++ l') = has name l || has name l'.
Proof.
  induction l as [|[k v] l IH]; [reflexivity|].
  cbn [app has]. rewrite IH, orb_assoc. reflexivity.
Qed.

Lemma has_delete_other name name' l :
  name <> name' -> has name' (delete name l) = has name' l.
Proof.
  intros Hne. induction l as [|[k v] l IH]; [reflexivity|].
  cbn [delete has].
  destruct (String.eqb_spec k name) as [->|].
  - destruct (String.eqb_spec name name'); [contradiction|exact IH].
  - cbn [has]. rewrite IH. reflexivity.
Qed.

Lemma has_set_other name name' value l :
  name <> name' -> has name' (set name value l) = has name' l.
Proof.
  intros Hne. induction l as [|[k v] l IH].
  - cbn. destruct (String.eqb_spec name name'); [contradiction|reflexivity].
  - cbn [set has]. destruct (String.eqb_spec k name) as [->|].
    + cbn [has]. rewrite has_delete_other by assumption. reflexivity.
    + cbn [has]. rewrite IH. reflexivity.
Qed.

End LoginFacts.

(** X29.  loginPage shows the notice that a link was sent exactly when the
    query has a link_sent parameter, whatever its value; otherwise it shows
    the form, which posts one control, email, to the page's own address.
    Appending, setting or deleting any other parameter makes no
    difference. *)
Theorem the_login_notice_depends_on_the_presence_of_link_sent
    (params : Entries) :
  (Login.loginPage params = Login.LinkSentNotice
   <-> exists value, In ("link_sent", value) params)
  /\ (Login.loginPage params <> Login.LinkSentNotice ->
      Login.loginPage params = Login.LoginForm "" "post" [("email", "email")])
  /\ (forall name value, name <> "link_sent" ->
        Login.loginPage (URLSearchParams.append name value params)
        = Login.loginPage params
        /\ Login.loginPage (URLSearchParams.set name value params)
           = Login.loginPage params
        /\ Login.loginPage (URLSearchParams.delete name params)
           = Login.loginPage params).
Proof.
  unfold Login.loginPage. split; [|split].
  - rewrite <- has_In.
    destruct (URLSearchParams.has "link_sent" params);
      split; congruence.
  - destruct (URLSearchParams.has "link_sent" params); congruence.
  - intros name value Hne. unfold URLSearchParams.append.
    rewrite has_app, has_set_other, has_delete_other by assumption.
    cbn [URLSearchParams.has].
    destruct (String.eqb_spec name "link_sent"); [contradiction|].
    rewrite !orb_false_r. repeat split.
Qed.
